(** * emsim: event patches, error bins, the Gaussian incidence head,
      sparse tensor conversion and the sparse bottleneck block

    A shallow embedding of
    - [emsim/geant/incidence_predictor.py]   (module [Predictor]),
    - [training.py], [EMDataset]              (module [EMDataset]),
    - [emsim/utils/sparse_utils.py]           (module [SparseUtils]),
    - [emsim/networks/sparse_resnet/blocks.py], [SparseBottleneck]
                                              (module [Blocks]),
    followed by the properties of each ([PredictorFacts], [BinFacts],
    [ExtractFacts], [SparseFacts], [BlocksFacts]).

    Conventions.  Torch float tensors of the predictor are tensors of
    real numbers: [exp], the logistic function and the matrix products
    are the exact ones.  Pixel counts, incidence offsets and the values
    of sparse tensors are rationals.  Python exceptions are values of
    [exn], and code that can raise returns a [result]. *)

From Stdlib Require Import Reals Lra Psatz.
From Stdlib Require Import ZArith QArith Qround Lia.
From Stdlib Require Import String Ascii Bool List Sorted Permutation.
Import ListNotations.

(* ================================================================== *)
(** * Generic helpers *)

(** [mapM] for [option]: the first failing element makes the whole
    batch fail, the way an exception leaves a Python loop. *)
Fixpoint mapM {A B : Type} (f : A -> option B) (l : list A) : option (list B) :=
  match l with
  | [] => Some []
  | a :: l' =>
      match f a with
      | None => None
      | Some b =>
          match mapM f l' with
          | None => None
          | Some bs => Some (b :: bs)
          end
      end
  end.


(** Python exceptions that the modelled code can raise. *)
Inductive exn : Type :=
| IndexError
| ValueError
| OverflowError
| AssertionError
| RuntimeError
| ZeroDivisionError
| NotImplementedError (msg : string).

Inductive result (A : Type) : Type :=
| Ok (a : A)
| Raise (e : exn).
Arguments Ok {A} a.
Arguments Raise {A} e.

Definition rbind {A B : Type} (m : result A) (f : A -> result B) : result B :=
  match m with
  | Ok a => f a
  | Raise e => Raise e
  end.

Notation "x <- m ;; k" := (rbind m (fun x => k))
  (at level 61, m at next level, right associativity).

(** ** Python and numpy indexing *)

Local Open Scope Z_scope.

(** An index [i] on an axis of [n] entries: negative indices count from
    the end, anything outside [-n, n) is an [IndexError]. *)
Definition norm_index (n : nat) (i : Z) : option nat :=
  if (0 <=? i) && (i <? Z.of_nat n) then Some (Z.to_nat i)
  else if (- Z.of_nat n <=? i) && (i <? 0) then Some (Z.to_nat (i + Z.of_nat n))
  else None.

(** A slice bound, the way [a[start:stop]] reads it: negative bounds
    count from the end and everything is clipped to [0, n]. *)
Definition slice_bound (n : nat) (i : Z) : nat :=
  if i <? 0 then Z.to_nat (Z.max (i + Z.of_nat n) 0)
  else Z.to_nat (Z.min i (Z.of_nat n)).

(** [l[start:stop]] *)
Definition slice {A : Type} (l : list A) (start stop : Z) : list A :=
  let a := slice_bound (length l) start in
  let b := slice_bound (length l) stop in
  firstn (b - a) (skipn a l).

Local Close Scope Z_scope.


(* ================================================================== *)
(** * emsim/geant/incidence_predictor.py *)

Module Predictor.
Local Open Scope R_scope.

(** ** 2-vectors and 2x2 matrices (one batch item) *)

Record Vec2 := mkVec2 { v0 : R; v1 : R }.
Record Mat2 := mkMat2 { m00 : R; m01 : R; m10 : R; m11 : R }.

Definition matmul (a b : Mat2) : Mat2 :=
  mkMat2 (m00 a * m00 b + m01 a * m10 b) (m00 a * m01 b + m01 a * m11 b)
         (m10 a * m00 b + m11 a * m10 b) (m10 a * m01 b + m11 a * m11 b).

Definition matvec (a : Mat2) (v : Vec2) : Vec2 :=
  mkVec2 (m00 a * v0 v + m01 a * v1 v) (m10 a * v0 v + m11 a * v1 v).

Definition transpose (a : Mat2) : Mat2 :=
  mkMat2 (m00 a) (m10 a) (m01 a) (m11 a).

Definition matadd (a b : Mat2) : Mat2 :=
  mkMat2 (m00 a + m00 b) (m01 a + m01 b) (m10 a + m10 b) (m11 a + m11 b).

Definition matscale (a : Mat2) (c : R) : Mat2 :=
  mkMat2 (m00 a * c) (m01 a * c) (m10 a * c) (m11 a * c).

(** [torch.eye(2)] *)
Definition eye2 : Mat2 := mkMat2 1 0 0 1.

(** [torch.diag_embed] on a 2-vector *)
Definition diag_embed (v : Vec2) : Mat2 := mkMat2 (v0 v) 0 0 (v1 v).


(** ** The layers of [self.predictor] *)

Record Linear := mkLinear { weight : list (list R); bias : list R }.

Definition dot (w x : list R) : R :=
  fold_right Rplus 0 (map (fun p => fst p * snd p) (combine w x)).

(** [nn.Linear]: one output per row of the weight matrix. *)
Definition linear (l : Linear) (x : list R) : list R :=
  map (fun p => dot (fst p) x + snd p) (combine (weight l) (bias l)).

Definition relu (x : R) : R := Rmax 0 x.

(** [nn.Sequential(nn.Linear, nn.ReLU, nn.Linear)] *)
Definition sequential (p : Linear * Linear) (x : list R) : list R :=
  linear (snd p) (map relu (linear (fst p) x)).

(** ** Images and the backbone *)

(** The input tensor: its shape and its entries.  [forward] itself only
    looks at the shape; the entries go to the backbone. *)
Record Image := mkImage { shape : list nat; data : list R }.

Definition ndim (x : Image) : nat := length (shape x).

(** [x.unsqueeze(1)] *)
Definition unsqueeze1 (x : Image) : Image :=
  match shape x with
  | b :: rest => mkImage (b :: 1%nat :: rest) (data x)
  | [] => x
  end.

(** [x.shape[-2:]] where it has two entries. *)
Fixpoint shape_last2 (s : list nat) : option (nat * nat) :=
  match s with
  | [] => None
  | [_] => None
  | [h; w] => Some (h, w)
  | _ :: s' => shape_last2 s'
  end.

(** The backbone is an external module: a feature vector per batch item. *)
Record Backbone := mkBackbone {
  num_features : nat;
  bb_forward : Image -> list (list R)
}.

(** ** The module *)

Record GaussianFullRankIncidencePointPredictor := mkPredictor {
  mean_parameterization : string;
  backbone : Backbone;
  diagonal_covariance : bool;
  eps : R;
  predictor : Linear * Linear
}.

Definition out_dim (diag : bool) : nat := if diag then 4%nat else 5%nat.

(** [nn.Linear(n_in, n_out)] allocates a weight of [n_out] rows of
    [n_in] entries and a bias of [n_out] entries. *)
Definition linear_shape (n_in n_out : nat) (l : Linear) : Prop :=
  length (weight l) = n_out /\ length (bias l) = n_out /\
  Forall (fun row => length row = n_in) (weight l).

(** [__init__].  The argument [params] stands for the values the two
    [nn.Linear] layers are initialised with (and later trained to).
    The [eps_arg] argument is accepted and the attribute is set to the
    literal [1e-6]. *)
Definition __init__ (backbone : Backbone) (hidden_dim : nat)
    (mean_parameterization : string) (diagonal_covariance : bool)
    (eps_arg : R) (params : Linear * Linear)
  : GaussianFullRankIncidencePointPredictor :=
  mkPredictor mean_parameterization backbone diagonal_covariance 1e-6 params.

(** What [__init__] guarantees about the shapes of [params]. *)
Definition init_shapes (backbone : Backbone) (hidden_dim : nat)
    (diagonal_covariance : bool) (params : Linear * Linear) : Prop :=
  linear_shape (num_features backbone) hidden_dim (fst params) /\
  linear_shape hidden_dim (out_dim diagonal_covariance) (snd params).

(** ** [forward] *)

Record MultivariateNormal := mkMVN { loc : Vec2; scale_tril : Mat2 }.


(** [torch.split(x, [2, 2], -1)] or [torch.split(x, [2, 2, 1], -1)]:
    fails unless the sizes add up to the length of the row. *)
Definition split_raw (diag : bool) (x : list R) : option (Vec2 * Vec2 * option R) :=
  if diag then
    match x with
    | [a; b; c; d] => Some (mkVec2 a b, mkVec2 c d, None)
    | _ => None
    end
  else
    match x with
    | [a; b; c; d; e] => Some (mkVec2 a b, mkVec2 c d, Some e)
    | _ => None
    end.

Definition vexp (v : Vec2) : Vec2 := mkVec2 (exp (v0 v)) (exp (v1 v)).

(** [F.sigmoid] *)
Definition sigmoid (x : R) : R := 1 / (1 + exp (- x)).
Definition vsigmoid (v : Vec2) : Vec2 := mkVec2 (sigmoid (v0 v)) (sigmoid (v1 v)).

(** [cholesky[:, tril_indices[0], tril_indices[1]] = cholesky_offdiag]
    with [tril_indices(2, 2, offset=-1) = [[1], [0]]]: entry (1,0). *)
Definition set_tril (c : Mat2) (offdiag : R) : Mat2 :=
  mkMat2 (m00 c) (m01 c) offdiag (m11 c).

(** The body of [forward] after [x = self.predictor(x)], for one row of
    the batch, up to the parameterization branch: the mean and the
    (possibly rescaled) Cholesky factor. *)
Definition parameters_row (self : GaussianFullRankIncidencePointPredictor)
    (patch_shape : Vec2) (x : list R) : option (Vec2 * Mat2) :=
  match split_raw (diagonal_covariance self) x with
  | None => None
  | Some (mean_vector, cholesky_diagonal, cholesky_offdiag) =>
      let cholesky_diagonal := vexp cholesky_diagonal in
      let cholesky := diag_embed cholesky_diagonal in
      let cholesky :=
        match cholesky_offdiag with
        | Some o => set_tril cholesky o
        | None => cholesky
        end in
      if String.eqb (mean_parameterization self) "sigmoid" then
        let mean_vector := vsigmoid mean_vector in
        let scaling_matrix := diag_embed patch_shape in
        let inverse_scaling_matrix :=
          diag_embed (mkVec2 (1 / v0 patch_shape) (1 / v1 patch_shape)) in
        Some (matvec scaling_matrix mean_vector,
              matmul inverse_scaling_matrix cholesky)
      else Some (mean_vector, cholesky)
  end.

(** The last two statements of [forward]: [eye * self.eps] is added and
    the distribution is built. *)
Definition regularize (e : R) (p : Vec2 * Mat2) : MultivariateNormal :=
  let cholesky := matadd (snd p) (matscale eye2 e) in
  mkMVN (fst p) cholesky.

Definition forward_row (self : GaussianFullRankIncidencePointPredictor)
    (patch_shape : Vec2) (x : list R) : option MultivariateNormal :=
  option_map (regularize (eps self)) (parameters_row self patch_shape x).

(** [forward]: a distribution per batch item. *)
Definition forward (self : GaussianFullRankIncidencePointPredictor)
    (x : Image) : option (list MultivariateNormal) :=
  let x := if Nat.eqb (ndim x) 3 then unsqueeze1 x else x in
  match shape_last2 (shape x) with
  | None => None
  | Some (h, w) =>
      let patch_shape := mkVec2 (INR h) (INR w) in
      let patch_center_coords :=
        mkVec2 (v0 patch_shape / 2) (v1 patch_shape / 2) in
      let x := bb_forward (backbone self) x in
      let x := map (sequential (predictor self)) x in
      mapM (forward_row self patch_shape) x
  end.

(** ** Properties of matrices used in the statements *)









(** The height and width [forward] reads off an image. *)
Definition patch_dims (x : Image) : option (nat * nat) :=
  shape_last2 (shape (if Nat.eqb (ndim x) 3 then unsqueeze1 x else x)).

(** ** Concrete instances used in the examples *)

(** A backbone without features and a batch of one item. *)
Definition unit_backbone : Backbone := mkBackbone 0 (fun _ => [[]]).

(** Layers with [hidden_dim = 0] whose output is the bias [b]. *)
Definition bias_params (b : list R) : Linear * Linear :=
  (mkLinear [] [], mkLinear (map (fun _ => []) b) b).

Definition image_10x1 : Image := mkImage [1; 10; 1]%nat (repeat 0 10).

End Predictor.

(* ================================================================== *)
(** * training.py: [EMDataset] *)

Module EMDataset.
Local Open Scope Z_scope.

(** [arr[r0:r1, c0:c1]] *)
Definition slice2 {A : Type} (arr : list (list A)) (r0 r1 c0 c1 : Z) : list (list A) :=
  map (fun row => slice row c0 c1) (slice arr r0 r1).

Fixpoint update {A : Type} (i : nat) (f : A -> A) (l : list A) : list A :=
  match l, i with
  | [], _ => []
  | x :: l', O => f x :: l'
  | x :: l', S i' => x :: update i' f l'
  end.

(** Entry [(r, c)] of a two-dimensional array. *)
Definition at2 (arr : list (list Q)) (r c : nat) : Q :=
  nth c (nth r arr []) 0%Q.

(** ** The constants of module [emnet] read by [training.py] *)

Record Emnet := mkEmnet {
  EVT_SIZE : Z;
  ERR_SIZE : Z;
  PIXEL_SIZE : Q;
  PIXEL_ERR_RANGE_MIN : Q;
  PIXEL_ERR_RANGE_MAX : Q
}.

(** ** The dataframe *)

Record Row := mkRow {
  event : Z;
  row : Z;
  col : Z;
  counts : Q;
  xinc : Q;
  yinc : Q
}.

Record EMDataset := mkEMDataset {
  df_data : list Row;
  events : list Z;
  noise_mean : Q;
  noise_sigma : Q;
  add_noise : bool;
  add_shift : Z
}.

(** [Series.unique()]: the distinct values in order of first appearance. *)
Fixpoint unique_from (seen : list Z) (l : list Z) : list Z :=
  match l with
  | [] => []
  | x :: l' =>
      if existsb (Z.eqb x) seen then unique_from seen l'
      else x :: unique_from (x :: seen) l'
  end.

Definition unique (l : list Z) : list Z := unique_from [] l.

(** [__init__]; [df] is what [pd.read_pickle(dframe)] returns. *)
Definition __init__ (df : list Row) (noise_mean noise_sigma : Q)
    (nstart nend : Z) (add_noise : bool) (add_shift : Z) : EMDataset :=
  let events := unique (map event df) in
  let events :=
    if nend =? 0 then slice events nstart (Z.of_nat (length events))
    else slice events nstart nend in
  mkEMDataset df events noise_mean noise_sigma add_noise add_shift.

(** ** Noise *)

(** One call of [np.random.normal(loc, scale, size)]: the sample drawn
    at each position of the array. *)
Definition Draw := nat -> nat -> Q.

Fixpoint mapi_from {A B : Type} (i : nat) (f : nat -> A -> B) (l : list A) : list B :=
  match l with
  | [] => []
  | x :: l' => f i x :: mapi_from (S i) f l'
  end.

(** [gaussnoise(data, mean, stdev)] with the sample [draw]. *)
Definition gaussnoise (data : list (list Q)) (draw : Draw) : list (list Q) :=
  mapi_from 0 (fun i r => mapi_from 0 (fun j v => (v + draw i j)%Q) r) data.

(** ** The event canvas *)

(** [np.zeros([rows, cols])] *)
Definition zeros (rows cols : nat) : list (list Q) :=
  repeat (repeat 0%Q cols) rows.

(** [evt_arr[row, col] += counts] *)
Definition add_at (evt_arr : list (list Q)) (r c : Z) (v : Q)
  : result (list (list Q)) :=
  match norm_index (length evt_arr) r with
  | None => Raise IndexError
  | Some i =>
      match norm_index (length (nth i evt_arr [])) c with
      | None => Raise IndexError
      | Some j =>
          Ok (update i (update j (fun old => (old + v)%Q)) evt_arr)
      end
  end.

(** The loop over the rows of [df_evt]. *)
Fixpoint scatter (evt_arr : list (list Q)) (df_evt : list Row)
  : result (list (list Q)) :=
  match df_evt with
  | [] => Ok evt_arr
  | r :: rest =>
      evt_arr' <- add_at evt_arr (row r) (col r) (counts r) ;;
      scatter evt_arr' rest
  end.

(** "Prepare the event." *)
Definition prepare_event (df_evt : list Row) : result (list (list Q)) :=
  scatter (zeros 101 101) df_evt.

(** ** The maximum pixel *)

(** [np.argmax] on a flat array: the first index of the maximum; an
    entry replaces the running maximum only when strictly greater. *)
Fixpoint argmax_from (best_i : nat) (best : Q) (i : nat) (l : list Q) : nat :=
  match l with
  | [] => best_i
  | x :: l' =>
      match (best ?= x)%Q with
      | Lt => argmax_from i x (S i) l'
      | _ => argmax_from best_i best (S i) l'
      end
  end.

Definition argmax (arr : list (list Q)) : result nat :=
  match concat arr with
  | [] => Raise ValueError
  | x :: l => Ok (argmax_from 0 x 1 l)
  end.

(** [arr.shape] of a two-dimensional array. *)
Definition shape2 (arr : list (list Q)) : nat * nat :=
  (length arr, length (nth 0 arr [])).

(** [np.unravel_index(k, shape)] for a two-dimensional shape. *)
Definition unravel_index (k : nat) (shp : nat * nat) : result (nat * nat) :=
  if (k <? fst shp * snd shp)%nat
  then Ok ((k / snd shp)%nat, (k mod snd shp)%nat)
  else Raise ValueError.

(** [int((n - 1) / 2)]: true division, then truncation towards zero. *)
Definition half_width (n : Z) : Z := Z.quot (n - 1) 2.

(** The 11x11 window around the centre of the canvas. *)
Definition search_window (evt_arr : list (list Q)) : list (list Q) :=
  slice2 evt_arr (50 - half_width 11) (50 + half_width 11 + 1)
                 (50 - half_width 11) (50 + half_width 11 + 1).

(** "Use an 11x11 event+noise to determine the maximum pixel."
    Returns [(y_shift, x_shift)]. *)
Definition peak_shift (self : EMDataset) (draw : Draw)
    (evt_arr : list (list Q)) : result (Z * Z) :=
  let evt_small := search_window evt_arr in
  let evt_small :=
    if add_noise self then gaussnoise evt_small draw else evt_small in
  k <- argmax evt_small ;;
  yx_shift <- unravel_index k (shape2 evt_small) ;;
  let y_shift := Z.of_nat (fst yx_shift) - 5 in
  let x_shift := Z.of_nat (snd yx_shift) - 5 in
  Ok (y_shift, x_shift).

(** "Extract the specified event size from the larger event, centered
    on the maximum pixel." *)
Definition extract_patch (cfg : Emnet) (evt_arr : list (list Q))
    (y_shift x_shift : Z) : list (list Q) :=
  let d := half_width (EVT_SIZE cfg) in
  slice2 evt_arr (50 + y_shift - d) (50 + y_shift + d + 1)
                 (50 + x_shift - d) (50 + x_shift + d + 1).

(** Lines 77-111 of [__getitem__]: the patch and the shifts. *)
Definition extract (cfg : Emnet) (self : EMDataset) (draw1 draw2 : Draw)
    (df_evt : list Row) : result (list (list Q) * (Z * Z)) :=
  evt_arr <- prepare_event df_evt ;;
  yx <- peak_shift self draw1 evt_arr ;;
  let y_shift := fst yx in
  let x_shift := snd yx in
  let evt_arr := extract_patch cfg evt_arr y_shift x_shift in
  let evt_arr :=
    if add_noise self then gaussnoise evt_arr draw2 else evt_arr in
  Ok (evt_arr, (y_shift, x_shift)).

(** ** The error bins *)

(** [int(q)] on a float: truncation towards zero. *)
Definition int_ (q : Q) : Z := Z.quot (Qnum q) (Zpos (Qden q)).

Definition SHIFTED_ERR_RANGE_MIN (cfg : Emnet) (self : EMDataset) : Q :=
  (PIXEL_ERR_RANGE_MIN cfg - inject_Z (add_shift self) * PIXEL_SIZE cfg)%Q.

Definition SHIFTED_ERR_RANGE_MAX (cfg : Emnet) (self : EMDataset) : Q :=
  (PIXEL_ERR_RANGE_MAX cfg + inject_Z (add_shift self) * PIXEL_SIZE cfg)%Q.

(** [int(ERR_SIZE*(v - MIN)/(MAX - MIN))].  A zero divisor makes the
    numpy quotient infinite or NaN, on which [int] raises. *)
Definition raw_bin (cfg : Emnet) (self : EMDataset) (v : Q) : result Z :=
  let num := (inject_Z (ERR_SIZE cfg) * (v - SHIFTED_ERR_RANGE_MIN cfg self))%Q in
  let den := (SHIFTED_ERR_RANGE_MAX cfg self - SHIFTED_ERR_RANGE_MIN cfg self)%Q in
  if Qeq_bool den 0 then
    if Qeq_bool num 0 then Raise ValueError else Raise OverflowError
  else Ok (int_ (num / den)%Q).

(** "Construct the error matrix.": [(xbin, ybin, err_ind)]. *)
Definition error_bins (cfg : Emnet) (self : EMDataset) (err : Q * Q)
  : result (Z * Z * Z) :=
  xbin <- raw_bin cfg self (fst err) ;;
  let xbin := Z.max xbin 0 in
  let xbin := Z.min xbin (ERR_SIZE cfg - 1) in
  ybin <- raw_bin cfg self (snd err) ;;
  let ybin := Z.max ybin 0 in
  let ybin := Z.min ybin (ERR_SIZE cfg - 1) in
  let err_ind := ybin * ERR_SIZE cfg + xbin in
  Ok (xbin, ybin, err_ind).

(** [df_evt.xinc.values[0]] and [df_evt.yinc.values[0]] *)
Definition first_value (f : Row -> Q) (df_evt : list Row) : result Q :=
  match df_evt with
  | [] => Raise IndexError
  | r :: _ => Ok (f r)
  end.

(** ** [__getitem__] *)

(** The body of [__getitem__] from "Prepare the event." on, for the
    rows [df_evt] of one event. *)
Definition getitem_event (cfg : Emnet) (self : EMDataset) (draw1 draw2 : Draw)
    (df_evt : list Row) : result (list (list Q) * (Q * Q) * Z) :=
  ex <- extract cfg self draw1 draw2 df_evt ;;
  let evt_arr := fst ex in
  let y_shift := fst (snd ex) in
  let x_shift := snd (snd ex) in
  x0 <- first_value xinc df_evt ;;
  y0 <- first_value yinc df_evt ;;
  let err := ((PIXEL_SIZE cfg * inject_Z x_shift + x0)%Q,
              (PIXEL_SIZE cfg * inject_Z y_shift + y0)%Q) in
  bins <- error_bins cfg self err ;;
  let err_ind := snd bins in
  Ok (evt_arr, err, err_ind).

Definition __getitem__ (cfg : Emnet) (self : EMDataset) (draw1 draw2 : Draw)
    (idx : Z) : result (list (list Q) * (Q * Q) * Z) :=
  match norm_index (length (events self)) idx with
  | None => Raise IndexError
  | Some i =>
      let evt := nth i (events self) 0 in
      let df_evt := filter (fun r => event r =? evt) (df_data self) in
      getitem_event cfg self draw1 draw2 df_evt
  end.

(** ** What the statements talk about *)

(** [(r, c)] is the position of the maximum of [arr] that comes first
    in row-major order. *)
Definition first_argmax (arr : list (list Q)) (r c : nat) : Prop :=
  (r < length arr)%nat /\ (c < length (nth r arr []))%nat /\
  (forall r' c', (r' < length arr)%nat -> (c' < length (nth r' arr []))%nat ->
     (at2 arr r' c' <= at2 arr r c)%Q) /\
  (forall r' c', (r' < length arr)%nat -> (c' < length (nth r' arr []))%nat ->
     (r' < r \/ (r' = r /\ c' < c))%nat ->
     (at2 arr r' c' < at2 arr r c)%Q).

(** [k] is the first position of the maximum of the flat array [l]. *)
Definition is_first_max (l : list Q) (k : nat) : Prop :=
  (k < length l)%nat /\
  (forall j, (j < length l)%nat -> (nth j l 0 <= nth k l 0)%Q) /\
  (forall j, (j < k)%nat -> (nth j l 0 < nth k l 0)%Q).

(** The shape of the canvas [np.zeros([101,101])]. *)
Definition canvas_shape (arr : list (list Q)) : Prop :=
  length arr = 101%nat /\ Forall (fun r => length r = 101%nat) arr.



(** ** Concrete instances used in the examples *)

Definition no_draw : Draw := fun _ _ => 0%Q.

(** Range (-5, 5), 10 bins, 5x5 patches. *)
Definition emnet_example : Emnet := mkEmnet 5 10 1 (-5) 5.

(** A dataframe with the single hit of count 5 at (50, 50) of event 0. *)
Definition single_hit : list Row := [mkRow 0 50 50 5 0 0].

Definition dataset_example : EMDataset :=
  __init__ single_hit 0 0 0 0 false 0.

End EMDataset.

(* ================================================================== *)
(** * emsim/utils/sparse_utils.py *)

Module SparseUtils.
Local Open Scope Z_scope.

(** ** Tensors *)

(** A two-dimensional integer tensor with its shape, so that a tensor
    without rows or without columns keeps its other dimension. *)
Record IndexTensor := mkIndexTensor {
  i_rows : nat;
  i_cols : nat;
  i_data : list (list Z)
}.

(** The [values()] of a sparse tensor: one-dimensional when every
    dimension is sparse, two-dimensional [nnz x channels] when the last
    dimension is dense.  Entries stand for floats; the conversions only
    move them and add those that meet at one coordinate. *)
Inductive Values : Type :=
| Values1 (v : list Q)
| Values2 (v_rows v_cols : nat) (v : list (list Q)).

(** A sparse COO [torch.Tensor]: [indices] is [sparse_dim x nnz]. *)
Record SparseTensor := mkSparseTensor {
  size : list nat;
  indices : IndexTensor;
  values : Values;
  is_coalesced : bool
}.

Record SparseConvTensor := mkSparseConvTensor {
  features : Values;
  sc_indices : IndexTensor;
  spatial_shape : list nat;
  batch_size : nat
}.

(** What the two conversions may be handed. *)
Inductive TorchTensor : Type :=
| Dense (shape : list nat) (data : list Q)
| Sparse (t : SparseTensor).

Inductive AnyTensor : Type :=
| Torch (t : TorchTensor)
| Spconv (s : SparseConvTensor).

(** ** Operations on index tensors *)

(** [t.permute(1, 0)], [t.transpose(0, 1)] *)
Definition transpose (t : IndexTensor) : IndexTensor :=
  mkIndexTensor (i_cols t) (i_rows t)
    (map (fun j => map (fun r => nth j r 0) (i_data t)) (seq 0 (i_cols t))).

(** [t[:-1]] *)
Definition drop_last_row (t : IndexTensor) : IndexTensor :=
  let data := slice (i_data t) 0 (-1) in
  mkIndexTensor (length data) (i_cols t) data.

(** A value as a signed 32-bit integer. *)
Definition int32 (z : Z) : Z := (z + 2 ^ 31) mod 2 ^ 32 - 2 ^ 31.

(** [t.int()] *)
Definition to_int (t : IndexTensor) : IndexTensor :=
  mkIndexTensor (i_rows t) (i_cols t) (map (map int32) (i_data t)).

(** [values.ndim] and [values.shape[-1]] *)
Definition v_ndim (v : Values) : nat :=
  match v with Values1 _ => 1%nat | Values2 _ _ _ => 2%nat end.

Definition v_last_dim (v : Values) : nat :=
  match v with Values1 l => length l | Values2 _ c _ => c end.

(** [values.unsqueeze(-1)] *)
Definition unsqueeze_last (v : Values) : Values :=
  match v with
  | Values1 l => Values2 (length l) 1 (map (fun x => [x]) l)
  | Values2 _ _ _ => v
  end.

(** ** Coalescing *)

(** Lexicographic comparison of two coordinates. *)
Fixpoint lex_compare (k k' : list Z) : comparison :=
  match k, k' with
  | [], [] => Eq
  | [], _ :: _ => Lt
  | _ :: _, [] => Gt
  | x :: r, x' :: r' =>
      match x ?= x' with
      | Eq => lex_compare r r'
      | c => c
      end
  end.

Definition lex_lt (k k' : list Z) : Prop := lex_compare k k' = Lt.

Section Coalesce.
Variable V : Type.
Variable add : V -> V -> V.

(** Insertion into a list of entries sorted by coordinate; values
    that meet at one coordinate are added. *)
Fixpoint insert_entry (k : list Z) (v : V) (es : list (list Z * V))
  : list (list Z * V) :=
  match es with
  | [] => [(k, v)]
  | (k', v') :: es' =>
      match lex_compare k k' with
      | Lt => (k, v) :: es
      | Eq => (k', add v v') :: es'
      | Gt => (k', v') :: insert_entry k v es'
      end
  end.

Definition coalesce_entries (es : list (list Z * V)) : list (list Z * V) :=
  fold_right (fun e acc => insert_entry (fst e) (snd e) acc) [] es.
End Coalesce.

Arguments insert_entry {V} add k v es.
Arguments coalesce_entries {V} add es.

Fixpoint add_rows (u v : list Q) : list Q :=
  match u, v with
  | x :: u', y :: v' => (x + y)%Q :: add_rows u' v'
  | _, _ => []
  end.

(** The coordinates of the stored entries: the columns of [indices]. *)
Definition coordinates (ix : IndexTensor) : list (list Z) :=
  i_data (transpose ix).

(** [indices] rebuilt from a list of coordinates of [sparse_dim] entries. *)
Definition of_coordinates (sparse_dim : nat) (ks : list (list Z)) : IndexTensor :=
  transpose (mkIndexTensor (length ks) sparse_dim ks).

(** [t.coalesce()]: the entries sorted by coordinate, duplicates added. *)
Definition coalesce (t : SparseTensor) : SparseTensor :=
  if is_coalesced t then t
  else
    let ks := coordinates (indices t) in
    match values t with
    | Values1 v =>
        let es := coalesce_entries Qplus (combine ks v) in
        mkSparseTensor (size t)
          (of_coordinates (i_rows (indices t)) (map fst es))
          (Values1 (map snd es)) true
    | Values2 _ c v =>
        let es := coalesce_entries add_rows (combine ks v) in
        mkSparseTensor (size t)
          (of_coordinates (i_rows (indices t)) (map fst es))
          (Values2 (length es) c (map snd es)) true
    end.

(** [torch.sparse_coo_tensor(indices, values, size)] *)
Definition sparse_coo_tensor (ix : IndexTensor) (v : Values) (sz : list nat)
  : SparseTensor :=
  mkSparseTensor sz ix v false.

(** [t.indices()]: only a coalesced tensor hands out its indices. *)
Definition get_indices (t : SparseTensor) : result IndexTensor :=
  if is_coalesced t then Ok (indices t) else Raise RuntimeError.

(** ** The two conversions *)

(** A [SparseConvTensor] is kept as the four arguments it is built
    from.  [.contiguous()] only changes the memory layout. *)

Definition torch_sparse_to_spconv (tensor : AnyTensor) : result SparseConvTensor :=
  match tensor with
  | Spconv s => Ok s
  | Torch (Dense _ _) => Raise AssertionError
  | Torch (Sparse t) =>
      let spatial_shape := slice (size t) 1 (-1) in
      match size t with
      | [] => Raise IndexError
      | batch_size :: _ =>
          indices_th <- get_indices t ;;
          let features_th := values t in
          let '(features_th, indices_th) :=
            if Nat.eqb (v_ndim features_th) 1
            then (unsqueeze_last features_th, drop_last_row indices_th)
            else (features_th, indices_th) in
          let indices_th := to_int (transpose indices_th) in
          Ok (mkSparseConvTensor features_th indices_th spatial_shape batch_size)
      end
  end.

Definition spconv_to_torch_sparse (tensor : AnyTensor) : result SparseTensor :=
  match tensor with
  | Torch (Sparse t) => Ok t
  | Torch (Dense _ _) => Raise AssertionError
  | Spconv s =>
      let size := [batch_size s] ++ spatial_shape s ++ [v_last_dim (features s)] in
      let indices := transpose (sc_indices s) in
      let values := features s in
      Ok (coalesce (sparse_coo_tensor indices values size))
  end.

(** There and back. *)
Definition round_trip (t : SparseTensor) : result SparseTensor :=
  s <- torch_sparse_to_spconv (Torch (Sparse t)) ;;
  spconv_to_torch_sparse (Spconv s).

(** ** What the statements talk about *)

(** The entry of the dense form of [t] at the full index [ix]: the sum
    of the stored values whose coordinate is the sparse part of [ix]. *)
Definition value_at (v : Values) (n : nat) (dense_ix : list Z) : Q :=
  match v, dense_ix with
  | Values1 l, [] => nth n l 0%Q
  | Values2 _ _ l, [c] => nth (Z.to_nat c) (nth n l []) 0%Q
  | _, _ => 0%Q
  end.

Definition list_eqb (k k' : list Z) : bool :=
  match lex_compare k k' with Eq => true | _ => false end.

Definition dense_at (t : SparseTensor) (ix : list Z) : Q :=
  let sd := i_rows (indices t) in
  let k := firstn sd ix in
  let rest := skipn sd ix in
  fold_right Qplus 0%Q
    (map (fun p => if list_eqb (fst p) k
                   then value_at (values t) (snd p) rest else 0%Q)
         (combine (coordinates (indices t))
                  (seq 0 (i_cols (indices t))))).

(** [ix] has [rows] rows of [cols] entries. *)
Definition index_shape (ix : IndexTensor) : Prop :=
  length (i_data ix) = i_rows ix /\
  Forall (fun r => length r = i_cols ix) (i_data ix).

(** A coalesced sparse tensor of shape [[b, h, w, c]] whose last
    dimension is dense: three index rows, values [nnz x c], coordinates
    in increasing order without duplicates, indices within [int32]. *)
Definition hybrid_coalesced (t : SparseTensor) (b h w c : nat) : Prop :=
  size t = [b; h; w; c] /\
  is_coalesced t = true /\
  index_shape (indices t) /\ i_rows (indices t) = 3%nat /\
  (exists v, values t = Values2 (i_cols (indices t)) c v /\
             length v = i_cols (indices t)) /\
  Sorted lex_lt (coordinates (indices t)) /\
  Forall (Forall (fun z => 0 <= z < 2 ^ 31)) (i_data (indices t)).

(** A coalesced sparse tensor of shape [[b, h, w, 1]] with four sparse
    dimensions: four index rows, one-dimensional values, and channel
    coordinates that are all 0, as the single channel forces. *)
Definition fully_sparse_single_channel (t : SparseTensor) (b h w : nat) : Prop :=
  size t = [b; h; w; 1%nat] /\
  is_coalesced t = true /\
  index_shape (indices t) /\ i_rows (indices t) = 4%nat /\
  (exists v, values t = Values1 v /\ length v = i_cols (indices t)) /\
  Sorted lex_lt (coordinates (indices t)) /\
  Forall (Forall (fun z => 0 <= z < 2 ^ 31)) (i_data (indices t)) /\
  Forall (fun z => z = 0) (nth 3 (i_data (indices t)) []).

(** ** Concrete instances used in the examples *)

(** Shape [1, 1, 1, 2], every dimension sparse: the entries 1 at
    (0,0,0,0) and 2 at (0,0,0,1). *)
Definition two_channels : SparseTensor :=
  mkSparseTensor [1; 1; 1; 2]%nat
    (mkIndexTensor 4 2 [[0; 0]; [0; 0]; [0; 0]; [0; 1]])
    (Values1 [1; 2]%Q) true.

(** Shape [1, 2, 2, 2], last dimension dense: the rows (1, 2) at
    (0,0,1) and (3, 4) at (0,1,0). *)
Definition hybrid_example : SparseTensor :=
  mkSparseTensor [1; 2; 2; 2]%nat
    (mkIndexTensor 3 2 [[0; 0]; [0; 1]; [1; 0]])
    (Values2 2 2 [[1; 2]; [3; 4]]%Q) true.

End SparseUtils.

(* ================================================================== *)
(** * emsim/networks/sparse_resnet/blocks.py: [SparseBottleneck] *)

Module Blocks.
Local Open Scope Z_scope.

Inductive conv_layer_t : Type := SubMConv2d | SparseConv2d.

(** The layers a block registers as attributes.  The layer classes are
    external, a layer is kept as the call that builds it. *)
Inductive Layer : Type :=
| Conv (cls : conv_layer_t) (in_ch out_ch kernel_size stride padding dilation : Z)
       (bias : bool)
| Norm (norm_layer : string) (num_features : Z)
| Act (act_layer : string) (inplace : bool)
| External (name : string).

Inductive Attr : Type :=
| ALayer (l : Layer)
| AOption (l : option Layer)
| AInt (z : Z).

(** The state of [self] during [__init__]: whether [super().__init__()]
    has run, and the attributes set so far. *)
Record Self := mkSelf {
  initialized : bool;
  attrs : list (string * Attr)
}.

Definition new_self : Self := mkSelf false [].

(** A computation on [self] that may raise. *)
Definition M (A : Type) : Type := Self -> result A * Self.

Definition ret {A : Type} (a : A) : M A := fun s => (Ok a, s).

Definition raise {A : Type} (e : exn) : M A := fun s => (Raise e, s).

Definition bind {A B : Type} (m : M A) (f : A -> M B) : M B :=
  fun s =>
    match m s with
    | (Ok a, s') => f a s'
    | (Raise e, s') => (Raise e, s')
    end.

Notation "x <~ m ;; k" := (bind m (fun x => k))
  (at level 61, m at next level, right associativity).
Notation "m ;;; k" := (bind m (fun _ => k))
  (at level 61, right associativity).

Definition assert_ (b : bool) : M unit :=
  if b then ret tt else raise AssertionError.

Definition super_init : M unit :=
  fun s => (Ok tt, mkSelf true (attrs s)).

Definition setattr (name : string) (a : Attr) : M unit :=
  fun s => (Ok tt, mkSelf (initialized s) (attrs s ++ [(name, a)])).

(** ["sub" in conv_type] *)
Definition contains (needle hay : string) : bool :=
  match String.index 0 needle hay with
  | Some _ => true
  | None => false
  end.

(** [x // y] *)
Definition floordiv (x y : Z) : M Z :=
  if y =? 0 then raise ZeroDivisionError else ret (x / y).

Definition expansion : Z := 4.

(** [SparseBottleneck.__init__] *)
Definition __init__ (conv_type : string) (inplanes planes stride : Z)
    (downsample : option Layer) (base_width reduce_first dilation
    first_dilation : Z) (act_layer norm_layer : string) : M unit :=
  @raise unit (NotImplementedError "Not tested") ;;;
  assert_ (xorb (contains "sub" conv_type) (contains "sparse" conv_type)) ;;;
  conv_layer <~ (if contains "sub" conv_type then ret SubMConv2d
                 else if contains "sparse" conv_type then ret SparseConv2d
                 else raise ValueError) ;;
  super_init ;;;
  let width := planes * base_width / 64 in
  first_planes <~ floordiv width reduce_first ;;
  let outplanes := planes * expansion in
  setattr "conv1" (ALayer (Conv conv_layer inplanes first_planes 1 1 0 1 false)) ;;;
  setattr "bn1" (ALayer (Norm norm_layer first_planes)) ;;;
  setattr "act1" (ALayer (Act act_layer true)) ;;;
  setattr "conv2" (ALayer (Conv conv_layer first_planes width 3 stride
                             first_dilation first_dilation false)) ;;;
  setattr "bn2" (ALayer (Norm norm_layer width)) ;;;
  setattr "act2" (ALayer (Act act_layer true)) ;;;
  setattr "conv3" (ALayer (Conv conv_layer width outplanes 1 1 0 1 false)) ;;;
  setattr "bn3" (ALayer (Norm norm_layer outplanes)) ;;;
  setattr "act3" (ALayer (Act act_layer true)) ;;;
  setattr "downsample" (AOption downsample) ;;;
  setattr "stride" (AInt stride) ;;;
  setattr "dilation" (AInt dilation).

(** [SparseBottleneck(...)]: a fresh object on which [__init__] runs;
    the object is returned when [__init__] does. *)
Definition SparseBottleneck (conv_type : string) (inplanes planes stride : Z)
    (downsample : option Layer) (base_width reduce_first dilation
    first_dilation : Z) (act_layer norm_layer : string) : result Self :=
  match __init__ conv_type inplanes planes stride downsample base_width
          reduce_first dilation first_dilation act_layer norm_layer new_self with
  | (Ok _, self) => Ok self
  | (Raise e, _) => Raise e
  end.

End Blocks.

(* ================================================================== *)
(** * training.py: more of [EMDataset] *)

Module EMDatasetMore.
Import EMDataset.
Local Open Scope Z_scope.

(** [__len__] *)
Definition __len__ (self : EMDataset) : nat := length (events self).

(** The hit lies in the index range of the 101x101 canvas, negative
    indices included. *)
Definition hit_in_canvas (h : Row) : Prop :=
  (-101 <= row h < 101) /\ (-101 <= col h < 101).

(** The hit [h] is added to entry [(r, c)] of the canvas. *)
Definition lands (h : Row) (r c : nat) : bool :=
  match norm_index 101 (row h), norm_index 101 (col h) with
  | Some i, Some j => Nat.eqb i r && Nat.eqb j c
  | _, _ => false
  end.

(** The counts of the hits that land on [(r, c)], added in the order of
    the rows to the value [start]. *)
Definition accumulated (df_evt : list Row) (r c : nat) (start : Q) : Q :=
  fold_left (fun acc h => if lands h r c then (acc + counts h)%Q else acc)
            df_evt start.


(** Two hits on the pixel (50, 50) and one hit given with negative
    indices, which lands on (100, 0). *)
Definition three_hits : list Row :=
  [mkRow 0 50 50 5 0 0; mkRow 0 50 50 2 0 0; mkRow 0 (-1) (-101) 3 0 0].

End EMDatasetMore.

(* ================================================================== *)
(** * emsim/utils/sparse_utils.py: gathering and batch offsets *)

Module SparseGather.
Import SparseUtils.
Local Open Scope Z_scope.

(** ** [batch_offsets_from_sparse_tensor_indices] *)

(** The argument: an integer tensor, or a floating point one, on which
    the assertion fails. *)
Inductive IndicesArg : Type :=
| IntIndices (t : IndexTensor)
| FloatIndices (v : Values).

(** [t.max()] of a one-dimensional tensor; it raises on an empty one. *)
Definition tensor_max (l : list Z) : result Z :=
  match l with
  | [] => Raise RuntimeError
  | x :: l' => Ok (fold_left Z.max l' x)
  end.

(** [torch.arange(n)]; a negative [n] is refused. *)
Definition arange (n : Z) : result (list Z) :=
  if n <? 0 then Raise RuntimeError
  else Ok (map Z.of_nat (seq 0 (Z.to_nat n))).

(** [argmax] of a one-dimensional tensor: the first index of the
    maximum, 0 on an empty column. *)
Fixpoint argmax_from (best_i : nat) (best : Z) (i : nat) (l : list Z) : nat :=
  match l with
  | [] => best_i
  | x :: l' =>
      if best <? x then argmax_from i x (S i) l'
      else argmax_from best_i best (S i) l'
  end.

Definition argmax (l : list Z) : nat :=
  match l with
  | [] => O
  | x :: l' => argmax_from 0 x 1 l'
  end.

(** Column [b] of [(batch_indices.unsqueeze(-1) == arange).to(uint8)]. *)
Definition matching_column (batch_indices : list Z) (b : Z) : list Z :=
  map (fun x => if x =? b then 1 else 0) batch_indices.

Definition batch_offsets_from_sparse_tensor_indices (indices_tensor : IndicesArg)
  : result (list nat) :=
  match indices_tensor with
  | FloatIndices _ => Raise AssertionError
  | IntIndices t =>
      match i_data t with
      | [] => Raise IndexError
      | batch_indices :: _ =>
          max_batch_index <- tensor_max batch_indices ;;
          columns <- arange (max_batch_index + 1) ;;
          let out := map (fun b => argmax (matching_column batch_indices b))
                         columns in
          Ok out
      end
  end.

(** ** [gather_from_sparse_tensor] *)

(** The index tensor, of shape [lead ++ [last]]: one row of [last]
    entries per position of the leading dimensions. *)
Record IndexBatch := mkIndexBatch {
  ib_lead : list nat;
  ib_last : nat;
  ib_rows : list (list Z)
}.

(** The gathered tensor, of shape [g_shape]; one value per row of the
    index tensor, a list of channels when the last dimension is dense. *)
Inductive Gathered : Type :=
| Scalars (g_shape : list nat) (v : list Q)
| Vectors (g_shape : list nat) (v : list (list Q)).

(** [np.prod] *)
Definition prod (l : list nat) : Z :=
  fold_right (fun n acc => Z.of_nat n * acc) 1 l.

(** [[np.prod(sparse_shape[i + 1 :] + (1,)) for i in range(len(sparse_shape))]] *)
Definition dim_linear_offsets (sparse_shape : list nat) : list Z :=
  map (fun i => prod (skipn (S i) sparse_shape ++ [1%nat]))
      (seq 0 (length sparse_shape)).

(** [(k * dim_linear_offsets).sum()] for one coordinate [k]. *)
Definition linearize (offsets : list Z) (k : list Z) : Z :=
  fold_right Z.add 0 (map (fun p => fst p * snd p) (combine k offsets)).

(** A row of zeros, the dense value where nothing is stored. *)
Definition zero_row (c : nat) : list Q := repeat 0%Q c.

(** Row [i] of [linearized.index_select(0, idx).to_dense()]: the sum of
    the values stored at the linear index [i]. *)
Definition select_scalar (lin : list Z) (v : list Q) (i : Z) : Q :=
  fold_right Qplus 0%Q
    (map (fun p => if fst p =? i then nth (snd p) v 0%Q else 0%Q)
         (combine lin (seq 0 (length lin)))).

Definition select_vector (c : nat) (lin : list Z) (v : list (list Q)) (i : Z)
  : list Q :=
  fold_right add_rows (zero_row c)
    (map (fun p => if fst p =? i then nth (snd p) v (zero_row c) else zero_row c)
         (combine lin (seq 0 (length lin)))).

(** The position [index_select] reads for the index [i] on an axis of
    [n] entries. *)
Definition select_position (n : Z) (i : Z) : result Z :=
  if (0 <=? i) && (i <? n) then Ok i
  else if (- n <=? i) && (i <? 0) then Ok (i + n)
  else Raise IndexError.

Fixpoint mapR {A B : Type} (f : A -> result B) (l : list A) : result (list B) :=
  match l with
  | [] => Ok []
  | a :: l' => b <- f a ;; bs <- mapR f l' ;; Ok (b :: bs)
  end.

Section Gather.
(** [batch_dim_to_leading_index] of [batching_utils], which is not part
    of the sources at hand. *)
Variable batch_dim_to_leading_index : IndexBatch -> IndexBatch.

Definition gather_from_sparse_tensor (sparse_tensor : SparseTensor)
    (index_tensor : IndexBatch) : result Gathered :=
  let sparse_dim := i_rows (indices sparse_tensor) in
  if negb (Nat.eqb (ib_last index_tensor) sparse_dim) then Raise ValueError
  else
    let sparse_shape := firstn sparse_dim (size sparse_tensor) in
    let dim_linear_offsets := dim_linear_offsets sparse_shape in
    indices_ <- get_indices sparse_tensor ;;
    let sparse_tensor_indices_linear :=
      map (linearize dim_linear_offsets) (coordinates indices_) in
    let linear_size := prod sparse_shape in
    bd <- (if negb (Nat.eqb (ib_last index_tensor) sparse_dim) then
             if Nat.eqb (ib_last index_tensor) (sparse_dim - 1)
             then Ok (batch_dim_to_leading_index index_tensor)
             else Raise AssertionError
           else Ok index_tensor) ;;
    let index_tensor := bd in
    let index_tensor_shape := ib_lead index_tensor ++ [ib_last index_tensor] in
    let index_tensor_linearized :=
      map (linearize dim_linear_offsets) (ib_rows index_tensor) in
    positions <- mapR (select_position linear_size) index_tensor_linearized ;;
    match values sparse_tensor with
    | Values1 v =>
        Ok (Scalars (ib_lead index_tensor)
              (map (select_scalar sparse_tensor_indices_linear v) positions))
    | Values2 _ c v =>
        Ok (Vectors (ib_lead index_tensor ++ [c])
              (map (select_vector c sparse_tensor_indices_linear v) positions))
    end.
End Gather.

(** ** What the statements talk about *)

(** The coordinate [k] lies inside the shape [shp]. *)
Fixpoint in_bounds (shp : list nat) (k : list Z) : Prop :=
  match shp, k with
  | [], [] => True
  | n :: shp', x :: k' => 0 <= x < Z.of_nat n /\ in_bounds shp' k'
  | _, _ => False
  end.

(** The position of the first occurrence of [b] in [l] (the length of
    [l] when there is none). *)
Fixpoint first_index (b : Z) (l : list Z) : nat :=
  match l with
  | [] => O
  | x :: l' => if x =? b then O else S (first_index b l')
  end.

(** The number of entries of [l] below [b]. *)
Definition count_below (b : Z) (l : list Z) : nat :=
  length (filter (fun x => x <? b) l).

(** ** Concrete instances used in the examples *)

(** The batch indices of five entries in the batches 0, 0, 2, 2, 2. *)
Definition batch_row_example : IndexTensor :=
  mkIndexTensor 2 5 [[0; 0; 2; 2; 2]; [4; 7; 1; 3; 9]].

(** Shape [2, 3], both dimensions sparse: 5 at (0,1), 7 at (1,0). *)
Definition matrix_example : SparseTensor :=
  mkSparseTensor [2; 3]%nat
    (mkIndexTensor 2 2 [[0; 1]; [1; 0]]) (Values1 [5; 7]%Q) true.

End SparseGather.

(* ================================================================== *)
(** * emsim/networks/sparse_resnet/blocks.py: the other blocks *)

Module BlocksV2.
Import Blocks.
Local Open Scope Z_scope.

(** ** [SparseBasicBlock] *)

(** [SparseBasicBlock.__init__]: the choice of the convolution class
    and [super().__init__()]. *)
Definition SparseBasicBlock_init (conv_type : string) : M unit :=
  assert_ (xorb (contains "sub" conv_type) (contains "sparse" conv_type)) ;;;
  conv_layer <~ (if contains "sub" conv_type then ret SubMConv2d
                 else if contains "sparse" conv_type then ret SparseConv2d
                 else raise ValueError) ;;
  super_init.

(** ** [SparseBottleneckV2] *)





Section BottleneckV2.
(** [get_padding] of [timm.layers], which is not part of the sources
    at hand: kernel size, stride, dilation. *)
Variable get_padding : Z -> Z -> Z -> Z.


(** ** [SparseResnetV2Stage] *)



End BottleneckV2.

(** ** What the statements talk about *)








End BlocksV2.

(* ================================================================== *)
(** * training.py: [sum_neighbors] *)

Module SumNeighbors.
Import EMDataset.
Local Open Scope Z_scope.

(** The array is changed in place, and stays changed when an
    exception ends the call: a state and error monad over the array. *)
Definition Arr : Type := list (list Q).
Definition M (A : Type) : Type := Arr -> result A * Arr.

Definition ret {A : Type} (a : A) : M A := fun arr => (Ok a, arr).

Definition bind {A B : Type} (m : M A) (k : A -> M B) : M B := fun arr =>
  match m arr with
  | (Ok a, arr') => k a arr'
  | (Raise e, arr') => (Raise e, arr')
  end.

Local Notation "x <~ m ;; k" := (bind m (fun x => k))
  (at level 61, m at next level, right associativity).
Local Notation "m ;;; k" := (bind m (fun _ => k))
  (at level 61, right associativity).

(** [arr[r, c]] *)
Definition getitem (r c : Z) : M Q := fun arr =>
  match norm_index (length arr) r with
  | None => (Raise IndexError, arr)
  | Some i =>
      match norm_index (length (nth i arr [])) c with
      | None => (Raise IndexError, arr)
      | Some j => (Ok (at2 arr i j), arr)
      end
  end.

(** [arr[r, c] = 0] *)
Definition setitem0 (r c : Z) : M unit := fun arr =>
  match norm_index (length arr) r with
  | None => (Raise IndexError, arr)
  | Some i =>
      match norm_index (length (nth i arr [])) c with
      | None => (Raise IndexError, arr)
      | Some j => (Ok tt, update i (update j (fun _ => 0%Q)) arr)
      end
  end.

(** [arr.shape] *)
Definition shape : M (nat * nat) := fun arr => (Ok (shape2 arr), arr).

(** The two lines taken for each neighbor:
    [sum += arr[r, c]] and [if(remove): arr[r, c] = 0]. *)
Definition visit (r c : Z) (remove : bool) (sum : Q) : M Q :=
  v <~ getitem r c ;;
  (if remove then setitem0 r c else ret tt) ;;;
  ret (sum + v)%Q.

(** [if(cond): ...] around them. *)
Definition when (cond : bool) (m : Q -> M Q) (sum : Q) : M Q :=
  if cond then m sum else ret sum.

Definition sum_neighbors (ind : Z * Z) (remove : bool) : M Q :=
  let '(i, j) := ind in
  (* Start with the central pixel. *)
  sum <~ getitem i j ;;
  (if remove then setitem0 i j else ret tt) ;;;
  (* Determine which neighbors exist. *)
  shp <~ shape ;;
  let left_neighbor := 0 <=? j - 1 in
  let right_neighbor := j + 1 <? Z.of_nat (fst shp) in
  let upper_neighbor := 0 <=? i - 1 in
  let lower_neighbor := i + 1 <? Z.of_nat (snd shp) in
  (* Add the 4 side-neighboring pixels to the sum. *)
  sum <~ when left_neighbor (visit i (j - 1) remove) sum ;;
  sum <~ when right_neighbor (visit i (j + 1) remove) sum ;;
  sum <~ when upper_neighbor (visit (i - 1) j remove) sum ;;
  sum <~ when lower_neighbor (visit (i + 1) j remove) sum ;;
  (* Add the 4 diagonal neighbors to the sum. *)
  sum <~ when (left_neighbor && upper_neighbor)
           (visit (i - 1) (j - 1) remove) sum ;;
  sum <~ when (right_neighbor && upper_neighbor)
           (visit (i - 1) (j + 1) remove) sum ;;
  sum <~ when (left_neighbor && lower_neighbor)
           (visit (i + 1) (j - 1) remove) sum ;;
  sum <~ when (right_neighbor && lower_neighbor)
           (visit (i + 1) (j + 1) remove) sum ;;
  ret sum.

(** ** What the statements talk about *)

(** A two-dimensional array of [rows] rows and [cols] columns. *)
Definition rect (arr : Arr) (rows cols : nat) : Prop :=
  length arr = rows /\ Forall (fun r => length r = cols) arr.

(** The array continued by zeros on all sides. *)
Definition padded (arr : Arr) (r c : Z) : Q :=
  if (0 <=? r) && (0 <=? c) then at2 arr (Z.to_nat r) (Z.to_nat c) else 0%Q.

(** The sum of the 3x3 block around [(i, j)], in the order in which
    [sum_neighbors] adds it up. *)
Definition block_sum (arr : Arr) (i j : Z) : Q :=
  (padded arr i j
   + padded arr i (j - 1) + padded arr i (j + 1)
   + padded arr (i - 1) j + padded arr (i + 1) j
   + padded arr (i - 1) (j - 1) + padded arr (i - 1) (j + 1)
   + padded arr (i + 1) (j - 1) + padded arr (i + 1) (j + 1))%Q.

(** [(r, c)] lies in the 3x3 block around [(i, j)]. *)
Definition in_block (i j : Z) (r c : nat) : bool :=
  (i - 1 <=? Z.of_nat r) && (Z.of_nat r <=? i + 1) &&
  (j - 1 <=? Z.of_nat c) && (Z.of_nat c <=? j + 1).

(** [arr[r, c] = 0] when [remove] is set, as a function. *)
Definition zero_cell (remove : bool) (r c : Z) (arr : Arr) : Arr :=
  if remove
  then update (Z.to_nat r) (update (Z.to_nat c) (fun _ => 0%Q)) arr
  else arr.

Definition array_3x3 : Arr := [[1; 2; 3]; [4; 5; 6]; [7; 8; 9]]%Q.
Definition array_3x2 : Arr := [[1; 2]; [3; 4]; [5; 6]]%Q.

End SumNeighbors.

(* ================================================================== *)
(** * training.py: [EMFrameDataset] *)

Module EMFrameDataset.
Import EMDataset.
Local Open Scope Z_scope.

Definition Arr : Type := list (list Q).

(** The arguments of [__init__], which stores them unchanged.
    [self.irows] and [self.icols] are set there from [frame_size] and
    never assigned again; they are the functions [irows] and [icols]
    below. *)
Record EMFrameDataset := mkEMFrameDataset {
  emdset : EMDataset;
  nframes : Z;
  frame_size : nat;
  nelec_mean : Q;
  nelec_sigma : Q;
  noise_mean : Q;
  noise_sigma : Q;
  m_line : option Q;
  b_line : option Q;
  th_classical : Q;
  lside : Z
}.

(** [np.indices((n, n))] *)
Definition indices (n : nat) : list (list Z) * list (list Z) :=
  (map (fun i => repeat (Z.of_nat i) n) (seq 0 n),
   repeat (map Z.of_nat (seq 0 n)) n).

Definition irows (self : EMFrameDataset) : list (list Z) :=
  fst (indices (frame_size self)).

Definition icols (self : EMFrameDataset) : list (list Z) :=
  snd (indices (frame_size self)).

Definition __len__ (self : EMFrameDataset) : Z := nframes self.

(** ** Random draws *)

(** What the generator hands out during one call of [__getitem__]:
    the value of [np.random.randint(2)], the values of
    [np.random.randint(frame.size)], one for each turn of the loop,
    the value of [np.random.randint(len(self.emdset))], and the noise
    samples of the event and of the frame. *)
Record Draws := mkDraws {
  region_draw : nat;
  eloc_draws : list nat;
  ievt_draw : nat;
  event_noise1 : Draw;
  event_noise2 : Draw;
  frame_noise : Draw
}.

(** [np.random.randint(high)] handing out [u]: it refuses a [high]
    that is not positive. *)
Definition randint (high : nat) (u : nat) : result nat :=
  if (0 <? high)%nat then Ok u else Raise ValueError.

(** ** Array operations *)

(** [arr[i, j]] for [(i, j)] inside the array. *)
Definition atz (arr : list (list Z)) (loc : nat * nat) : Z :=
  nth (snd loc) (nth (fst loc) arr []) 0.

(** [arr[loc] = v] for [loc] inside the array. *)
Definition set_at (arr : Arr) (loc : nat * nat) (v : Q) : Arr :=
  update (fst loc) (update (snd loc) (fun _ => v)) arr.

(** Elementwise operations on arrays of one shape. *)
Definition map2 {A B C : Type} (f : A -> B -> C) (a : list A) (b : list B)
  : list C :=
  map (fun p => f (fst p) (snd p)) (combine a b).

Definition map2_2d {A B C : Type} (f : A -> B -> C)
    (a : list (list A)) (b : list (list B)) : list (list C) :=
  map2 (map2 f) a b.

(** One axis of numpy broadcasting: equal lengths, or length 1. *)
Definition broadcast_axis {A : Type} (n : nat) (l : list A) : result (list A) :=
  if Nat.eqb (length l) n then Ok l
  else match l with
       | [x] => Ok (repeat x n)
       | _ => Raise ValueError
       end.

Fixpoint mapR {A B : Type} (f : A -> result B) (l : list A) : result (list B) :=
  match l with
  | [] => Ok []
  | a :: l' => b <- f a ;; bs <- mapR f l' ;; Ok (b :: bs)
  end.

(** [src] broadcast to [rows x cols], [rows] and [cols] positive. *)
Definition broadcast_to (rows cols : nat) (src : Arr) : result Arr :=
  src <- broadcast_axis rows src ;;
  mapR (broadcast_axis cols) src.

(** [frame[r0:r1, c0:c1] += src] *)
Definition iadd_slice2 (frame : Arr) (r0 r1 c0 c1 : Z) (src : Arr)
  : result Arr :=
  let a := slice_bound (length frame) r0 in
  let b := slice_bound (length frame) r1 in
  let ncols := length (nth 0 frame []) in
  let c := slice_bound ncols c0 in
  let d := slice_bound ncols c1 in
  src <- broadcast_to (b - a) (d - c) src ;;
  Ok (mapi_from 0
        (fun r line =>
           if (a <=? r)%nat && (r <? b)%nat then
             mapi_from 0
               (fun k v =>
                  if (c <=? k)%nat && (k <? d)%nat
                  then (v + at2 src (r - a) (k - c))%Q else v)
               line
           else line)
        frame).

(** ** [__getitem__] *)

(** "Add the electron to the frame." *)
Definition paste (cfg : Emnet) (frame evt_arr : Arr) (eloc : nat * nat)
  : result Arr :=
  let shp := shape2 frame in
  let e0 := Z.of_nat (fst eloc) in
  let e1 := Z.of_nat (snd eloc) in
  let delta := half_width (EVT_SIZE cfg) in
  let ileft := Z.max (e0 - delta) 0 in
  let delta_ileft := e0 - ileft in
  let jleft := Z.max (e1 - delta) 0 in
  let delta_jleft := e1 - jleft in
  let iright := Z.min (e0 + delta + 1) (Z.of_nat (fst shp)) in
  let delta_iright := iright - e0 in
  let jright := Z.min (e1 + delta + 1) (Z.of_nat (snd shp)) in
  let delta_jright := jright - e1 in
  iadd_slice2 frame ileft iright jleft jright
    (slice2 evt_arr (delta - delta_ileft) (delta + delta_iright)
                    (delta - delta_jleft) (delta + delta_jright)).

(** "Do not throw the electron in the dark region." *)
Definition dark (light_region : Z) (m b : Q) (irow icol : Z) : bool :=
  ((light_region =? 0) &&
   (if Qlt_le_dec (inject_Z irow) (m * inject_Z icol + b) then true else false))
  || ((light_region =? 1) &&
      (if Qlt_le_dec (m * inject_Z icol + b) (inject_Z irow) then true else false)).

(** "If we have specified an edge, check whether we should throw the
    electron." *)
Definition rejected (self : EMFrameDataset) (light_region : Z)
    (eloc : nat * nat) : bool :=
  match m_line self, b_line self with
  | Some m, Some b =>
      let irow := atz (irows self) eloc in
      let icol := atz (icols self) eloc in
      dark light_region m b irow icol
  | _, _ => false
  end.

(** The loop body from "Throw an electron." on. *)
Definition throw_electron (cfg : Emnet) (self : EMFrameDataset) (draws : Draws)
    (frame frame_truth : Arr) (eloc : nat * nat) : result (Arr * Arr) :=
  ievt <- randint (length (events (emdset self))) (ievt_draw draws) ;;
  evt_item <- EMDataset.__getitem__ cfg (emdset self)
                (event_noise1 draws) (event_noise2 draws) (Z.of_nat ievt) ;;
  let evt_arr := fst (fst evt_item) in
  frame <- paste cfg frame evt_arr eloc ;;
  let frame_truth := set_at frame_truth eloc 1%Q in
  Ok (frame, frame_truth).

(** [while(iel < nelec)] with [nelec = 1]: the turns of the loop take
    the draws of [elocs] one after the other; the first electron that
    is thrown ends the loop.  [None]: every draw at hand was rejected. *)
Fixpoint throw (cfg : Emnet) (self : EMFrameDataset) (draws : Draws)
    (light_region : Z) (frame frame_truth : Arr) (elocs : list nat)
  : option (result (Arr * Arr)) :=
  match elocs with
  | [] => None
  | u :: elocs' =>
      let shp := shape2 frame in
      match (k <- randint (fst shp * snd shp) u ;; unravel_index k shp) with
      | Raise e => Some (Raise e)
      | Ok eloc =>
          if rejected self light_region eloc
          then throw cfg self draws light_region frame frame_truth elocs'
          else Some (throw_electron cfg self draws frame frame_truth eloc)
      end
  end.

(** What a call comes to.  [TypeError] is not among the exceptions of
    the other functions. *)
Inductive outcome (A : Type) : Type :=
| Returns (a : A)
| Raises (e : exn)
| RaisesTypeError.
Arguments Returns {A} a.
Arguments Raises {A} e.
Arguments RaisesTypeError {A}.

Definition bool_to_float (b : bool) : Q := if b then 1%Q else 0%Q.

(** "Create the edge truth." *)
Definition edge_truth (self : EMFrameDataset) (light_region : Z) (m b : Q)
  : list (list bool) :=
  map2_2d
    (fun irow icol =>
       if light_region =? 0
       then (if Qlt_le_dec (inject_Z irow) (m * inject_Z icol + b)
             then false else true)
       else (if Qlt_le_dec (m * inject_Z icol + b) (inject_Z irow)
             then false else true))
    (irows self) (icols self).

(** "Compute the distance matrix." *)
Definition dist (self : EMFrameDataset) (m b : Q) : Arr :=
  map2_2d
    (fun irow icol =>
       ((m * inject_Z icol - inject_Z irow + b) / (m * m + 1))%Q)
    (irows self) (icols self).

(** The part of [__getitem__] after the loop. *)
Definition truths (self : EMFrameDataset) (draws : Draws) (light_region : Z)
    (frame frame_truth : Arr) : outcome (Arr * list Arr) :=
  let frame :=
    if Qlt_le_dec 0 (noise_sigma self)
    then gaussnoise frame (frame_noise draws) else frame in
  match m_line self, b_line self with
  | Some m, Some b =>
      let dist := dist self m b in
      let edge_truth := edge_truth self light_region m b in
      let edge_frame :=
        map2_2d (fun v e => (v * bool_to_float e)%Q) frame edge_truth in
      let th_truth := zeros (fst (shape2 edge_frame)) (snd (shape2 edge_frame)) in
      match (k <- argmax edge_frame ;;
             unravel_index k (length edge_truth, length (nth 0 edge_truth [])))
      with
      | Raise e => Raises e
      | Ok loc =>
          let th_truth := set_at th_truth loc 1%Q in
          let all_truth :=
            [frame_truth; th_truth; map (map bool_to_float) edge_truth; dist] in
          Returns (frame, all_truth)
      end
  | _, _ => RaisesTypeError
  end.

Definition __getitem__ (cfg : Emnet) (self : EMFrameDataset) (draws : Draws)
    (idx : Z) : option (outcome (Arr * list Arr)) :=
  let frame := zeros (frame_size self) (frame_size self) in
  let frame_truth := zeros (fst (shape2 frame)) (snd (shape2 frame)) in
  let light_region :=
    if 0 <=? lside self then lside self else Z.of_nat (region_draw draws) in
  match throw cfg self draws light_region frame frame_truth (eloc_draws draws)
  with
  | None => None
  | Some (Raise e) => Some (Raises e)
  | Some (Ok (frame, frame_truth)) =>
      Some (truths self draws light_region frame frame_truth)
  end.

(** ** What the statements talk about *)

(** [(r, c)] lies within [delta] of [(i, j)] on both axes. *)
Definition in_patch (delta : Z) (i j r c : nat) : bool :=
  (Z.abs (Z.of_nat r - Z.of_nat i) <=? delta) &&
  (Z.abs (Z.of_nat c - Z.of_nat j) <=? delta).

(** The entry of the event patch that comes to lie on [(r, c)] when
    the centre of the patch is put on [(i, j)]. *)
Definition patch_entry (evt_arr : Arr) (delta : Z) (i j r c : nat) : Q :=
  at2 evt_arr (Z.to_nat (delta + Z.of_nat r - Z.of_nat i))
              (Z.to_nat (delta + Z.of_nat c - Z.of_nat j)).

(** ** Concrete instances used in the examples *)

(** The entries 1 to 25, row by row. *)
Definition patch_example : Arr :=
  [[1; 2; 3; 4; 5]; [6; 7; 8; 9; 10]; [11; 12; 13; 14; 15];
   [16; 17; 18; 19; 20]; [21; 22; 23; 24; 25]]%Q.

Definition draws_example : Draws :=
  mkDraws 0 [7%nat] 0 no_draw no_draw no_draw.

(** The first location drawn, (0, 2), lies in the dark region of
    [frames_example], the second, (1, 0), in the light region. *)
Definition draws_two : Draws :=
  mkDraws 0 [2%nat; 4%nat] 0 no_draw no_draw no_draw.

(** Four by four pixels, patches from [dataset_example], the line
    [irow = icol] with the light region below it. *)
Definition frames_example : EMFrameDataset :=
  mkEMFrameDataset dataset_example 10 4 0 0 0 0 (Some 1%Q) (Some 0%Q) 825 0.

(** The same with the defaults [m_line = None], [b_line = None]. *)
Definition frames_default : EMFrameDataset :=
  mkEMFrameDataset dataset_example 10 4 0 0 0 0 None None 825 (-1).

(** What [frames_example] hands out on [draws_two]. *)
Definition frame_example : Arr :=
  [[0; 0; 0; 0]; [5; 0; 0; 0]; [0; 0; 0; 0]; [0; 0; 0; 0]]%Q.

Definition all_truth_example : list Arr :=
  [[[0; 0; 0; 0]; [1; 0; 0; 0]; [0; 0; 0; 0]; [0; 0; 0; 0]];
   [[0; 0; 0; 0]; [1; 0; 0; 0]; [0; 0; 0; 0]; [0; 0; 0; 0]];
   [[1; 0; 0; 0]; [1; 1; 0; 0]; [1; 1; 1; 0]; [1; 1; 1; 1]];
   [[0 # 2; 1 # 2; 2 # 2; 3 # 2]; [-1 # 2; 0 # 2; 1 # 2; 2 # 2];
    [-2 # 2; -1 # 2; 0 # 2; 1 # 2]; [-3 # 2; -2 # 2; -1 # 2; 0 # 2]]]%Q.

End EMFrameDataset.

(* ================================================================== *)
(** * emsim/utils/sparse_utils.py: gathering feature rows *)

Module SparseGatherDense.
Import SparseUtils SparseGather.
Local Open Scope Z_scope.

(** Row [k] of the dense form of a tensor whose last dimension, of [c]
    channels, is dense. *)
Definition dense_row (t : SparseTensor) (c : nat) (k : list Z) : list Q :=
  map (fun ch => dense_at t (k ++ [Z.of_nat ch])) (seq 0 c).

(** Shape [2, 3, 2], last dimension dense: the rows (1, 2) at (0,1)
    and (3, 4) at (1,0). *)
Definition features_example : SparseTensor :=
  mkSparseTensor [2; 3; 2]%nat
    (mkIndexTensor 2 2 [[0; 1]; [1; 0]])
    (Values2 2 2 [[1; 2]; [3; 4]]%Q) true.

End SparseGatherDense.

(* ================================================================== *)
(** * emsim/utils/sparse_utils.py: from spconv and back *)

Module SparseBack.
Import SparseUtils.
Local Open Scope Z_scope.


(** From spconv to torch and back. *)
Definition round_trip_back (s : SparseConvTensor) : result SparseConvTensor :=
  t <- spconv_to_torch_sparse (Spconv s) ;;
  torch_sparse_to_spconv (Torch (Sparse t)).




(** Two sites given twice and out of order: (0,1,0) with features
    (1, 2) and (10, 20), (0,0,1) with (3, 4). *)
Definition spconv_example : SparseConvTensor :=
  mkSparseConvTensor (Values2 3 2 [[1; 2]; [3; 4]; [10; 20]]%Q)
    (mkIndexTensor 3 3 [[0; 1; 0]; [0; 0; 1]; [0; 1; 0]]) [2; 2]%nat 1.

(** The same sites, each once and in order. *)
Definition spconv_sorted_example : SparseConvTensor :=
  mkSparseConvTensor (Values2 2 2 [[3; 4]; [11; 22]]%Q)
    (mkIndexTensor 2 3 [[0; 0; 1]; [0; 1; 0]]) [2; 2]%nat 1.

End SparseBack.

(* ================================================================== *)
(** * emsim/utils/sparse_utils.py: [unpack_sparse_tensors] *)

Module Unpack.
Local Open Scope string_scope.

(** ** The keys *)

Definition newline : string := String "010"%char "".

Fixpoint has_newline (s : string) : bool :=
  match s with
  | "" => false
  | String c s' => Ascii.eqb c "010"%char || has_newline s'
  end.

(** [key] ends with [tail], and what comes before is a match of [.+]:
    not empty and without a newline. *)
Definition match_at (tail key : string) : option string :=
  let n := (String.length key - String.length tail)%nat in
  let head := substring 0 n key in
  if String.eqb (substring n (String.length tail) key) tail
     && negb (String.eqb head "") && negb (has_newline head)
  then Some head else None.

(** [re.match(".+(?=" + suffix + "$)", key)], giving [match[0]]: [$]
    holds at the end of the key and also before a newline that ends
    it. *)
Definition re_match (suffix key : string) : option string :=
  match match_at suffix key with
  | Some head => Some head
  | None => match_at (suffix ++ newline) key
  end.

(** [[match[0] for match in [re.match(...) for key in keys]
      if match is not None]] *)
Definition prefixes_of (suffix : string) (keys : list string) : list string :=
  flat_map (fun key => match re_match suffix key with
                       | Some head => [head]
                       | None => []
                       end) keys.

Section Batch.
(** The tensors, tuples and other values a batch holds, and
    [torch.sparse_coo_tensor(indices, values, shape, ...).coalesce()]
    on them, [shape] being turned into a list first when it is a
    tensor; it returns or raises. *)
Variable Value : Type.
Variable Err : Type.
Variable sparse_coo_tensor : Value -> Value -> Value -> Value + Err.

(** The order in which [list(s)] hands out the elements of the set [s]
    built from a list. *)
Variable set_order : list string -> list string.

(** ** The batch *)

(** A [dict] with string keys, in insertion order. *)
Definition Dict : Type := list (string * Value).

Fixpoint lookup (key : string) (d : Dict) : option Value :=
  match d with
  | [] => None
  | (k, v) :: d' => if String.eqb key k then Some v else lookup key d'
  end.

(** [d[key] = v] *)
Fixpoint setitem (key : string) (v : Value) (d : Dict) : Dict :=
  match d with
  | [] => [(key, v)]
  | (k, v') :: d' =>
      if String.eqb key k then (k, v) :: d' else (k, v') :: setitem key v d'
  end.

(** [del d[key]], for a key that is there *)
Definition remove (key : string) (d : Dict) : Dict :=
  filter (fun e => negb (String.eqb key (fst e))) d.

Inductive outcome (A : Type) : Type :=
| Done (a : A)
| KeyError (key : string)
| Raised (e : Err).
Arguments Done {A} a.
Arguments KeyError {A} key.
Arguments Raised {A} e.

(** The batch is changed in place, and stays changed when an exception
    ends the call. *)
Definition M (A : Type) : Type := Dict -> outcome A * Dict.

Definition ret {A : Type} (a : A) : M A := fun d => (Done a, d).

Definition bind {A B : Type} (m : M A) (k : A -> M B) : M B := fun d =>
  match m d with
  | (Done a, d') => k a d'
  | (KeyError key, d') => (KeyError key, d')
  | (Raised e, d') => (Raised e, d')
  end.

Local Notation "x <~ m ;; k" := (bind m (fun x => k))
  (at level 61, m at next level, right associativity).
Local Notation "m ;;; k" := (bind m (fun _ => k))
  (at level 61, right associativity).

(** [batch[key]] *)
Definition getitem (key : string) : M Value := fun d =>
  match lookup key d with
  | Some v => (Done v, d)
  | None => (KeyError key, d)
  end.

(** [del batch[key]] *)
Definition delitem (key : string) : M unit := fun d =>
  match lookup key d with
  | Some _ => (Done tt, remove key d)
  | None => (KeyError key, d)
  end.

Definition call (r : Value + Err) : M Value := fun d =>
  match r with
  | inl v => (Done v, d)
  | inr e => (Raised e, d)
  end.

(** ** [unpack_sparse_tensors] *)

(** The body of the loop. *)
Definition unpack_one (prefix : string) : M unit :=
  shape <~ getitem (prefix ++ "_shape") ;;
  indices <~ getitem (prefix ++ "_indices") ;;
  values <~ getitem (prefix ++ "_values") ;;
  tensor <~ call (sparse_coo_tensor indices values shape) ;;
  (fun d => (Done tt, setitem prefix tensor d)) ;;;
  delitem (prefix ++ "_indices") ;;;
  delitem (prefix ++ "_values") ;;;
  delitem (prefix ++ "_shape").

Fixpoint unpack_loop (prefixes : list string) : M unit :=
  match prefixes with
  | [] => ret tt
  | prefix :: rest => unpack_one prefix ;;; unpack_loop rest
  end.

(** The elements of [set(a) & set(b) & set(c)]. *)
Definition common (a b c : list string) : list string :=
  filter (fun p => existsb (String.eqb p) b && existsb (String.eqb p) c) a.

Definition unpack_sparse_tensors : M unit := fun batch =>
  let keys := map fst batch in
  let prefixes_indices := prefixes_of "_indices" keys in
  let prefixes_values := prefixes_of "_values" keys in
  let prefixes_shape := prefixes_of "_shape" keys in
  let prefixes :=
    set_order (common prefixes_indices prefixes_values prefixes_shape) in
  unpack_loop prefixes batch.

(** ** What the statements talk about *)

(** The batch holds the three parts of a packed tensor [p]. *)
Definition packed (batch : Dict) (p : string) : Prop :=
  p <> "" /\
  lookup (p ++ "_indices") batch <> None /\
  lookup (p ++ "_values") batch <> None /\
  lookup (p ++ "_shape") batch <> None.

(** The tensor built from the three parts of [p], when they are there
    and the constructor returns. *)
Definition tensor_of (batch : Dict) (p : string) : option Value :=
  match lookup (p ++ "_indices") batch, lookup (p ++ "_values") batch,
        lookup (p ++ "_shape") batch with
  | Some i, Some v, Some s =>
      match sparse_coo_tensor i v s with
      | inl t => Some t
      | inr _ => None
      end
  | _, _, _ => None
  end.

(** [key] is one of the three parts of [p]. *)
Definition part_of (p key : string) : Prop :=
  key = p ++ "_indices" \/ key = p ++ "_values" \/ key = p ++ "_shape".

(** The prefixes that occur with all three suffixes. *)
Definition candidates (batch : Dict) : list string :=
  let keys := map fst batch in
  common (prefixes_of "_indices" keys) (prefixes_of "_values" keys)
         (prefixes_of "_shape" keys).

(** [list(set(...))] hands out each of them once, in some order. *)
Definition any_order (batch : Dict) : Prop :=
  Permutation (set_order (candidates batch))
              (nodup string_dec (candidates batch)).

Definition part_ofb (p key : string) : bool :=
  String.eqb key (p ++ "_indices") || String.eqb key (p ++ "_values")
  || String.eqb key (p ++ "_shape").

(** No candidate is named like a part of another one. *)
Definition flatb (batch : Dict) : bool :=
  forallb (fun p => forallb (fun q => negb (part_ofb p q)) (candidates batch))
          (candidates batch).

(** The constructor returns on the parts of every candidate. *)
Definition constructible (batch : Dict) : bool :=
  forallb (fun p => match tensor_of batch p with
                    | Some _ => true
                    | None => false
                    end) (candidates batch).

(** No key holds a newline. *)
Definition plain_keys (batch : Dict) : bool :=
  forallb (fun k => negb (has_newline k)) (map fst batch).

End Batch.

Arguments Done {Err A} a.
Arguments KeyError {Err A} key.
Arguments Raised {Err A} e.

(** ** Concrete instances used in the examples *)

(** Values are numbers; a "tensor" is the sum of its three parts. *)
Definition sum_parts (i v s : nat) : nat + unit := inl (i + v + s)%nat.

Definition batch_example : Dict nat :=
  [("a_indices", 1%nat); ("image", 2%nat); ("a_values", 3%nat);
   ("b_shape", 4%nat); ("a_shape", 5%nat)].

End Unpack.

(* ================================================================== *)
(** * Properties *)

Lemma mapM_total {A B : Type} (f : A -> option B) (P : B -> Prop) (l : list A) :
  (forall a, In a l -> exists b, f a = Some b /\ P b) ->
  exists bs, mapM f l = Some bs /\ Forall P bs /\ length bs = length l.
Proof.
  induction l as [|a l IH]; intros H.
  - exists []. repeat split; constructor.
  - destruct (H a (or_introl eq_refl)) as [b [Hb Pb]].
    destruct IH as [bs [Hbs [HP Hlen]]].
    { intros a' Ha'. apply H. now right. }
    exists (b :: bs). simpl. rewrite Hb, Hbs.
    repeat split; [now constructor | simpl; congruence].
Qed.

(* ================================================================== *)
(** ** The incidence distribution head *)

Module PredictorFacts.
Import Predictor.
Local Open Scope R_scope.

Lemma linear_length (l : Linear) (x : list R) (n_in n_out : nat) :
  linear_shape n_in n_out l -> length (linear l x) = n_out.
Proof.
  intros [Hw [Hb _]]. unfold linear.
  rewrite length_map, length_combine, Hw, Hb. apply Nat.min_id.
Qed.

Lemma sequential_length bb hidden diag params (x : list R) :
  init_shapes bb hidden diag params ->
  length (sequential params x) = out_dim diag.
Proof.
  intros [_ H2]. unfold sequential. eapply linear_length; eassumption.
Qed.

Lemma eps_init bb hidden mp diag eps_arg params :
  eps (__init__ bb hidden mp diag eps_arg params) = 1e-6.
Proof. reflexivity. Qed.

Lemma sigmoid_bounds (x : R) : 0 < sigmoid x < 1.
Proof.
  unfold sigmoid. pose proof (exp_pos (- x)) as He.
  split.
  - apply Rdiv_lt_0_compat; lra.
  - apply (Rmult_lt_reg_r (1 + exp (- x))); [lra|].
    unfold Rdiv. rewrite Rmult_assoc, Rinv_l by lra. lra.
Qed.

Lemma sigmoid_0 : sigmoid 0 = 1 / 2.
Proof. unfold sigmoid. rewrite Ropp_0, exp_0. lra. Qed.




Lemma split_raw_full (x : list R) :
  length x = 5%nat ->
  exists a b c d e, x = [a; b; c; d; e] /\
    split_raw false x = Some (mkVec2 a b, mkVec2 c d, Some e).
Proof.
  destruct x as [|a [|b [|c [|d [|e [|f x]]]]]]; simpl; try discriminate.
  intros _. now exists a, b, c, d, e.
Qed.

Lemma split_raw_diag (x : list R) :
  length x = 4%nat ->
  exists a b c d, x = [a; b; c; d] /\
    split_raw true x = Some (mkVec2 a b, mkVec2 c d, None).
Proof.
  destruct x as [|a [|b [|c [|d [|e x]]]]]; simpl; try discriminate.
  intros _. now exists a, b, c, d.
Qed.


(** [forward] succeeds on a batch as soon as each row does. *)
Lemma forward_rows (P : MultivariateNormal -> Prop)
    (self : GaussianFullRankIncidencePointPredictor)
    (x : Image) (h w : nat) :
  patch_dims x = Some (h, w) ->
  (forall f, length (sequential (predictor self) f)
             = out_dim (diagonal_covariance self)) ->
  (forall raw, length raw = out_dim (diagonal_covariance self) ->
     exists d, forward_row self (mkVec2 (INR h) (INR w)) raw = Some d /\ P d) ->
  exists ds, forward self x = Some ds /\ Forall P ds.
Proof.
  intros Hdims Hseq Hrow. unfold forward. unfold patch_dims in Hdims.
  rewrite Hdims.
  destruct (mapM_total (forward_row self (mkVec2 (INR h) (INR w))) P
    (map (sequential (predictor self))
       (bb_forward (backbone self)
          (if Nat.eqb (ndim x) 3 then unsqueeze1 x else x))))
    as [ds [Hds [HP _]]].
  - intros raw Hin. apply in_map_iff in Hin. destruct Hin as [f [<- _]].
    apply Hrow, Hseq.
  - exists ds. split; assumption.
Qed.



Lemma init_sequential_length bb hidden mp diag eps_arg params (f : list R) :
  init_shapes bb hidden diag params ->
  length (sequential (predictor (__init__ bb hidden mp diag eps_arg params)) f)
  = out_dim (diagonal_covariance (__init__ bb hidden mp diag eps_arg params)).
Proof. intros H. simpl. eapply sequential_length; eassumption. Qed.









Lemma sigmoid_mean_row bb hidden diag eps_arg params (h w : nat) (raw : list R) :
  length raw = out_dim diag ->
  exists d,
    forward_row (__init__ bb hidden "sigmoid" diag eps_arg params)
      (mkVec2 (INR h) (INR w)) raw = Some d /\
    0 <= v0 (loc d) <= INR h /\ 0 <= v1 (loc d) <= INR w.
Proof.
  intros Hlen. unfold forward_row, parameters_row. simpl.
  pose proof (pos_INR h) as Hh. pose proof (pos_INR w) as Hw.
  assert (Hb : forall n t, 0 <= n -> 0 <= n * sigmoid t + 0 * 0 <= n).
  { intros n t Hn. pose proof (sigmoid_bounds t). nra. }
  assert (Hb' : forall n t u, 0 <= n -> 0 <= 0 * sigmoid u + n * sigmoid t <= n).
  { intros n t u Hn. pose proof (sigmoid_bounds t). nra. }
  destruct diag; simpl in Hlen.
  - destruct (split_raw_diag raw Hlen) as (a & b & c & d & -> & ->).
    simpl. eexists. split; [reflexivity|]. simpl. split.
    + pose proof (Hb' 0 b a (Rle_refl 0)). pose proof (Hb (INR h) a Hh).
      pose proof (sigmoid_bounds a). pose proof (sigmoid_bounds b). nra.
    + pose proof (sigmoid_bounds a). pose proof (sigmoid_bounds b). nra.
  - destruct (split_raw_full raw Hlen) as (a & b & c & d & e & -> & ->).
    simpl. eexists. split; [reflexivity|]. simpl. split.
    + pose proof (sigmoid_bounds a). pose proof (sigmoid_bounds b). nra.
    + pose proof (sigmoid_bounds a). pose proof (sigmoid_bounds b). nra.
Qed.

(** C5 (amended).  Sigmoid mean parameterization: for an image of
    height [h] and width [w], the first coordinate of every returned
    mean lies in [[0, h]] and the second in [[0, w]]: the mean is
    rescaled by [x.shape[-2:] = (H, W)], so the first coordinate is
    bounded by the height and the second by the width. *)
Theorem sigmoid_mean_in_patch bb hidden diag eps_arg params x (h w : nat) :
  init_shapes bb hidden diag params ->
  patch_dims x = Some (h, w) ->
  exists ds,
    forward (__init__ bb hidden "sigmoid" diag eps_arg params) x = Some ds /\
    Forall (fun d => 0 <= v0 (loc d) <= INR h /\ 0 <= v1 (loc d) <= INR w) ds.
Proof.
  intros Hshape Hdims.
  eapply forward_rows; [exact Hdims | |].
  - intros f. now apply init_sequential_length.
  - intros raw Hlen. simpl in Hlen. now apply sigmoid_mean_row.
Qed.

(** Witness of C5 (amended): all-zero raw outputs on the 10x1 image. *)
Lemma sigmoid_mean_in_patch_witness :
  exists ds,
    forward (__init__ unit_backbone 0 "sigmoid" false 1
               (bias_params [0; 0; 0; 0; 0])) image_10x1 = Some ds /\
    Forall (fun d => 0 <= v0 (loc d) <= INR 10 /\ 0 <= v1 (loc d) <= INR 1) ds.
Proof.
  apply (sigmoid_mean_in_patch unit_backbone 0%nat false 1
           (bias_params [0; 0; 0; 0; 0]) image_10x1 10 1).
  - unfold init_shapes, linear_shape; simpl. repeat split; repeat constructor.
  - reflexivity.
Defined.

(** C5, counterexample.  An image of height 10 and width 1 with
    all-zero raw outputs: the mean is [(5, 1/2)], whose first
    coordinate exceeds the patch width. *)
Lemma sigmoid_mean_exceeds_width :
  patch_dims image_10x1 = Some (10%nat, 1%nat) /\
  exists d,
    forward (__init__ unit_backbone 0 "sigmoid" false 1e-6
               (bias_params [0; 0; 0; 0; 0])) image_10x1 = Some [d] /\
    v0 (loc d) = 5 /\ v1 (loc d) = 1 / 2 /\
    ~ (0 <= v0 (loc d) <= INR 1).
Proof.
  split; [reflexivity|].
  eexists. split; [reflexivity|].
  unfold dot. simpl. rewrite !Rplus_0_l, sigmoid_0.
  repeat split; try lra.
Qed.

(** C6.  The [eps] argument of the constructor has no effect: the
    attribute is always [1e-6], [forward] adds exactly [1e-6 * I] to the
    (possibly rescaled) Cholesky factor before it builds the
    distribution, and two predictors that differ only in the [eps]
    argument return the same distributions on the same input. *)
Theorem eps_argument_ignored bb hidden mp diag (eps1 eps2 : R) params :
  eps (__init__ bb hidden mp diag eps1 params) = 1e-6 /\
  (forall ps raw,
     forward_row (__init__ bb hidden mp diag eps1 params) ps raw =
     option_map
       (fun p => mkMVN (fst p) (matadd (snd p) (matscale eye2 1e-6)))
       (parameters_row (__init__ bb hidden mp diag eps1 params) ps raw)) /\
  (forall ps raw,
     option_map scale_tril
       (forward_row (__init__ bb hidden mp diag eps1 params) ps raw) =
     option_map
       (fun p => mkMat2 (m00 (snd p) + 1e-6) (m01 (snd p))
                        (m10 (snd p)) (m11 (snd p) + 1e-6))
       (parameters_row (__init__ bb hidden mp diag eps1 params) ps raw)) /\
  (forall x,
     forward (__init__ bb hidden mp diag eps1 params) x =
     forward (__init__ bb hidden mp diag eps2 params) x).
Proof.
  split; [reflexivity|]. split; [reflexivity|]. split; [|reflexivity].
  intros ps raw. unfold forward_row.
  destruct (parameters_row _ ps raw) as [[mean cholesky]|]; [|reflexivity].
  simpl. unfold matadd, matscale, eye2. simpl. do 2 f_equal; ring.
Qed.

End PredictorFacts.

(* ================================================================== *)
(** ** The error bins of [EMDataset.__getitem__] *)

Module BinFacts.
Import EMDataset.
Local Open Scope Z_scope.













End BinFacts.

(* ================================================================== *)
(** ** The patch extraction of [EMDataset.__getitem__] *)

Module ExtractFacts.
Import EMDataset.
Local Open Scope nat_scope.

(** *** Lists: slices and updates *)

Lemma Forall_firstn {A : Type} (P : A -> Prop) (n : nat) (l : list A) :
  Forall P l -> Forall P (firstn n l).
Proof.
  revert n. induction l as [|x l IH]; intros [|n] H; simpl; try constructor.
  - now inversion H.
  - apply IH. now inversion H.
Qed.

Lemma Forall_skipn {A : Type} (P : A -> Prop) (n : nat) (l : list A) :
  Forall P l -> Forall P (skipn n l).
Proof.
  revert n. induction l as [|x l IH]; intros [|n] H; simpl; auto.
  apply IH. now inversion H.
Qed.

Lemma Forall_slice {A : Type} (P : A -> Prop) (l : list A) (a b : Z) :
  Forall P l -> Forall P (slice l a b).
Proof. intros H. unfold slice. now apply Forall_firstn, Forall_skipn. Qed.


Lemma update_length {A : Type} (i : nat) (f : A -> A) (l : list A) :
  length (update i f l) = length l.
Proof.
  revert i. induction l as [|x l IH]; intros [|i]; simpl; auto.
Qed.

Lemma Forall_update {A : Type} (P : A -> Prop) (i : nat) (f : A -> A)
    (l : list A) :
  (forall x, P x -> P (f x)) -> Forall P l -> Forall P (update i f l).
Proof.
  intros Hf. revert i. induction l as [|x l IH]; intros [|i] H; simpl;
    inversion H; subst; constructor; auto.
Qed.

(** *** The canvas keeps its shape *)

Lemma zeros_shape : canvas_shape (zeros 101 101).
Proof.
  split; [apply repeat_length|].
  apply Forall_forall. intros r Hr. apply repeat_spec in Hr. subst r.
  apply repeat_length.
Qed.

Lemma norm_index_in (n : nat) (i : Z) :
  (0 <= i < Z.of_nat n)%Z -> norm_index n i = Some (Z.to_nat i).
Proof.
  intros H. unfold norm_index.
  destruct (Z.leb_spec 0 i); [|lia].
  destruct (Z.ltb_spec i (Z.of_nat n)); [|lia]. reflexivity.
Qed.

Lemma add_at_shape (arr : list (list Q)) (r c : Z) (v : Q) :
  canvas_shape arr -> (0 <= r < 101)%Z -> (0 <= c < 101)%Z ->
  exists arr', add_at arr r c v = Ok arr' /\ canvas_shape arr'.
Proof.
  intros [Hlen Hrows] Hr Hc. unfold add_at.
  rewrite Hlen, norm_index_in by (simpl; lia).
  assert (Hrow : length (nth (Z.to_nat r) arr []) = 101).
  { apply (proj1 (Forall_nth _ _) Hrows). lia. }
  rewrite Hrow, norm_index_in by (simpl; lia).
  eexists. split; [reflexivity|]. split.
  - now rewrite update_length.
  - apply Forall_update; [|exact Hrows].
    intros x Hx. now rewrite update_length.
Qed.

Lemma scatter_shape (df_evt : list Row) (arr : list (list Q)) :
  canvas_shape arr ->
  Forall (fun h => (0 <= row h < 101)%Z /\ (0 <= col h < 101)%Z) df_evt ->
  exists arr', scatter arr df_evt = Ok arr' /\ canvas_shape arr'.
Proof.
  revert arr. induction df_evt as [|h rest IH]; intros arr Hs Hin; simpl.
  - now exists arr.
  - inversion Hin as [|? ? [Hr Hc] Hrest]; subst.
    destruct (add_at_shape arr (row h) (col h) (counts h) Hs Hr Hc)
      as [arr' [-> Hs']].
    simpl. now apply IH.
Qed.

(** *** The search window is 11x11 *)

Lemma slice_window_length {A : Type} (l : list A) :
  length l = 101 -> length (slice l 45 56) = 11.
Proof.
  intros H. unfold slice. rewrite H.
  change (slice_bound 101 45) with 45. change (slice_bound 101 56) with 56.
  rewrite length_firstn, length_skipn, H. reflexivity.
Qed.

Lemma search_window_shape (arr : list (list Q)) :
  canvas_shape arr ->
  length (search_window arr) = 11 /\
  Forall (fun r => length r = 11) (search_window arr).
Proof.
  intros [Hlen Hrows]. unfold search_window, slice2.
  change (50 - half_width 11)%Z with 45%Z.
  change (50 + half_width 11 + 1)%Z with 56%Z.
  split.
  - rewrite length_map. now apply slice_window_length.
  - apply Forall_map. apply Forall_slice.
    eapply Forall_impl; [|exact Hrows].
    intros r Hr. now apply slice_window_length.
Qed.

(** *** [argmax] returns the first position of the maximum *)

Lemma argmax_from_first_max (l pre : list Q) (best_i : nat) :
  is_first_max pre best_i ->
  is_first_max (pre ++ l)
    (argmax_from best_i (nth best_i pre 0%Q) (length pre) l).
Proof.
  revert pre best_i. induction l as [|x l IH]; intros pre best_i Hinv.
  - simpl. now rewrite app_nil_r.
  - destruct Hinv as (Hlt & Hmax & Hfirst). simpl.
    replace (pre ++ x :: l) with ((pre ++ [x]) ++ l)
      by (rewrite <- app_assoc; reflexivity).
    assert (Hlen : length (pre ++ [x]) = S (length pre))
      by (rewrite length_app; simpl; lia).
    assert (Hx : nth (length pre) (pre ++ [x]) 0%Q = x)
      by apply nth_middle.
    destruct (nth best_i pre 0 ?= x)%Q eqn:Hc.
    + rewrite <- Hlen.
      replace (nth best_i pre 0%Q) with (nth best_i (pre ++ [x]) 0%Q)
        by (apply app_nth1; exact Hlt).
      apply IH. apply Qeq_alt in Hc. repeat split.
      * rewrite Hlen. lia.
      * intros j Hj. rewrite Hlen in Hj.
        rewrite (app_nth1 pre [x] 0%Q Hlt).
        destruct (Nat.eq_dec j (length pre)) as [->|Hne].
        -- rewrite Hx. rewrite Hc. apply Qle_refl.
        -- rewrite app_nth1 by lia. apply Hmax. lia.
      * intros j Hj. rewrite (app_nth1 pre [x] 0%Q Hlt).
        rewrite app_nth1 by lia. now apply Hfirst.
    + specialize (IH (pre ++ [x]) (length pre)).
      rewrite Hx, Hlen in IH.
      apply IH. apply Qlt_alt in Hc. repeat split.
      * rewrite Hlen. lia.
      * intros j Hj. rewrite Hlen in Hj. rewrite Hx.
        destruct (Nat.eq_dec j (length pre)) as [->|Hne].
        -- rewrite Hx. apply Qle_refl.
        -- rewrite app_nth1 by lia. apply Qlt_le_weak.
           eapply Qle_lt_trans; [apply Hmax; lia | exact Hc].
      * intros j Hj. rewrite Hx. rewrite app_nth1 by lia.
        eapply Qle_lt_trans; [apply Hmax; lia | exact Hc].
    + rewrite <- Hlen.
      replace (nth best_i pre 0%Q) with (nth best_i (pre ++ [x]) 0%Q)
        by (apply app_nth1; exact Hlt).
      apply IH. apply Qgt_alt in Hc. repeat split.
      * rewrite Hlen. lia.
      * intros j Hj. rewrite Hlen in Hj.
        rewrite (app_nth1 pre [x] 0%Q Hlt).
        destruct (Nat.eq_dec j (length pre)) as [->|Hne].
        -- rewrite Hx. now apply Qlt_le_weak.
        -- rewrite app_nth1 by lia. apply Hmax. lia.
      * intros j Hj. rewrite (app_nth1 pre [x] 0%Q Hlt).
        rewrite app_nth1 by lia. now apply Hfirst.
Qed.

Lemma argmax_first_max (arr : list (list Q)) :
  concat arr <> [] ->
  exists k, argmax arr = Ok k /\ is_first_max (concat arr) k.
Proof.
  intros Hne. unfold argmax. destruct (concat arr) as [|x l]; [congruence|].
  eexists. split; [reflexivity|].
  apply (argmax_from_first_max l [x] 0).
  repeat split; simpl; try lia.
  intros [|j] Hj; [apply Qle_refl | lia].
Qed.

(** *** Flat and two-dimensional positions *)

Lemma concat_uniform_length {A : Type} (arr : list (list A)) (w : nat) :
  Forall (fun r => length r = w) arr ->
  length (concat arr) = length arr * w.
Proof.
  induction 1 as [|r arr Hr _ IH]; simpl; [reflexivity|].
  rewrite length_app, IH, Hr. reflexivity.
Qed.

Lemma nth_concat_uniform {A : Type} (arr : list (list A)) (w r c : nat) (d : A) :
  Forall (fun r => length r = w) arr ->
  r < length arr -> c < w ->
  nth (r * w + c) (concat arr) d = nth c (nth r arr []) d.
Proof.
  intros Hu. revert r. induction Hu as [|x arr Hx _ IH]; intros r Hr Hc.
  - simpl in Hr. lia.
  - destruct r as [|r]; simpl.
    + apply app_nth1. lia.
    + rewrite <- Hx at 1. rewrite <- Nat.add_assoc, app_nth2_plus.
      apply IH; simpl in Hr; lia.
Qed.

Lemma first_max_unravel (arr : list (list Q)) (w k : nat) :
  0 < w -> Forall (fun r => length r = w) arr ->
  is_first_max (concat arr) k ->
  first_argmax arr (k / w) (k mod w).
Proof.
  intros Hw Hu (Hk & Hmax & Hfirst).
  rewrite (concat_uniform_length arr w Hu) in Hk, Hmax.
  assert (Hrow : forall r, r < length arr -> length (nth r arr []) = w).
  { intros r Hr. apply (proj1 (Forall_nth _ _) Hu). exact Hr. }
  assert (Hr : k / w < length arr)
    by (apply Nat.Div0.div_lt_upper_bound; lia).
  assert (Hc : k mod w < w) by (apply Nat.mod_upper_bound; lia).
  assert (Hkeq : k = k / w * w + k mod w)
    by (rewrite (Nat.div_mod_eq k w) at 1; lia).
  assert (Hat : forall r c, r < length arr -> c < w ->
            at2 arr r c = nth (r * w + c) (concat arr) 0%Q).
  { intros r c Hr' Hc'. unfold at2. symmetry. now apply nth_concat_uniform. }
  repeat split.
  - exact Hr.
  - now rewrite Hrow.
  - intros r' c' Hr' Hc'. rewrite Hrow in Hc' by assumption.
    rewrite !Hat by assumption. rewrite <- Hkeq. apply Hmax. nia.
  - intros r' c' Hr' Hc' Hbefore. rewrite Hrow in Hc' by assumption.
    rewrite !Hat by assumption. rewrite <- Hkeq. apply Hfirst. nia.
Qed.

(** *** The peak shift *)

Lemma peak_shift_first_argmax (self : EMDataset) (draw : Draw)
    (evt_arr : list (list Q)) :
  add_noise self = false -> canvas_shape evt_arr ->
  exists r c,
    first_argmax (search_window evt_arr) r c /\
    peak_shift self draw evt_arr = Ok (Z.of_nat r - 5, Z.of_nat c - 5)%Z.
Proof.
  intros Hnoise Hshape.
  destruct (search_window_shape evt_arr Hshape) as [Hl Hrows].
  assert (Hlen : length (concat (search_window evt_arr)) = 11 * 11)
    by (rewrite (concat_uniform_length _ 11 Hrows), Hl; reflexivity).
  destruct (argmax_first_max (search_window evt_arr)) as [k [Hk Hfirst]].
  { intros E. rewrite E in Hlen. discriminate. }
  assert (Hrow0 : length (nth 0 (search_window evt_arr) []) = 11)
    by (apply (proj1 (Forall_nth _ _) Hrows); lia).
  exists (k / 11), (k mod 11). split.
  - apply first_max_unravel; [lia | exact Hrows | exact Hfirst].
  - unfold peak_shift. rewrite Hnoise, Hk. unfold rbind at 1.
    unfold unravel_index, shape2. rewrite Hl, Hrow0.
    destruct Hfirst as [Hlt _]. rewrite Hlen in Hlt.
    cbn [fst snd]. apply Nat.ltb_lt in Hlt. rewrite Hlt. reflexivity.
Qed.

(** C7.  With noise disabled and all hits inside the centred 11x11
    search window, the extraction succeeds and the peak shift is the
    position of the first maximum, in row-major order, of the 11x11
    search sub-array, minus its centre (5, 5).  For the single hit of
    count 5 at (50, 50) and 5x5 patches the shift is (0, 0) and the
    patch is 5 at its centre and 0 elsewhere. *)
Theorem peak_shift_is_first_argmax :
  (forall (cfg : Emnet) (self : EMDataset) (draw1 draw2 : Draw)
          (df_evt : list Row),
     add_noise self = false ->
     Forall (fun h => (45 <= row h <= 55)%Z /\ (45 <= col h <= 55)%Z) df_evt ->
     exists evt_arr r c,
       prepare_event df_evt = Ok evt_arr /\
       (length (search_window evt_arr) = 11 /\
        Forall (fun line => length line = 11) (search_window evt_arr)) /\
       first_argmax (search_window evt_arr) r c /\
       extract cfg self draw1 draw2 df_evt =
       Ok (extract_patch cfg evt_arr (Z.of_nat r - 5) (Z.of_nat c - 5),
           (Z.of_nat r - 5, Z.of_nat c - 5)%Z)) /\
  extract emnet_example dataset_example no_draw no_draw single_hit =
  Ok ([[0; 0; 0; 0; 0]; [0; 0; 0; 0; 0]; [0; 0; 5; 0; 0];
       [0; 0; 0; 0; 0]; [0; 0; 0; 0; 0]]%Q, (0, 0)%Z).
Proof.
  split.
  - intros cfg self draw1 draw2 df_evt Hnoise Hwin.
    destruct (scatter_shape df_evt (zeros 101 101) zeros_shape)
      as [evt_arr [Hprep Hshape]].
    { eapply Forall_impl; [|exact Hwin]. intros h [Hr Hc]. lia. }
    destruct (peak_shift_first_argmax self draw1 evt_arr Hnoise Hshape)
      as (r & c & Hfirst & Hpeak).
    exists evt_arr, r, c. split; [exact Hprep|].
    split; [now apply search_window_shape|]. split; [exact Hfirst|].
    unfold extract. unfold prepare_event in *. rewrite Hprep.
    unfold rbind at 1. rewrite Hpeak. unfold rbind. cbn [fst snd].
    rewrite Hnoise. reflexivity.
  - vm_compute. reflexivity.
Qed.

(** Witness of C7: the single hit of count 5 at (50, 50). *)
Lemma peak_shift_is_first_argmax_witness :
  exists evt_arr r c,
    prepare_event single_hit = Ok evt_arr /\
    (length (search_window evt_arr) = 11 /\
     Forall (fun line => length line = 11) (search_window evt_arr)) /\
    first_argmax (search_window evt_arr) r c /\
    extract emnet_example dataset_example no_draw no_draw single_hit =
    Ok (extract_patch emnet_example evt_arr (Z.of_nat r - 5) (Z.of_nat c - 5),
        (Z.of_nat r - 5, Z.of_nat c - 5)%Z).
Proof.
  apply (proj1 peak_shift_is_first_argmax emnet_example dataset_example
           no_draw no_draw single_hit).
  - reflexivity.
  - repeat constructor; simpl; lia.
Defined.

(** The sample [__getitem__] returns for the single hit: the patch, the
    error (0, 0) and the index of the bin (5, 5). *)
Lemma getitem_single_hit :
  __getitem__ emnet_example dataset_example no_draw no_draw 0 =
  Ok ([[0; 0; 0; 0; 0]; [0; 0; 0; 0; 0]; [0; 0; 5; 0; 0];
       [0; 0; 0; 0; 0]; [0; 0; 0; 0; 0]]%Q, (0, 0)%Q, 55%Z).
Proof. vm_compute. reflexivity. Qed.

(** *** The event without hits *)



(** *** Events reached through [__getitem__] have rows *)

Lemma In_slice {A : Type} (x : A) (l : list A) (a b : Z) :
  In x (slice l a b) -> In x l.
Proof.
  unfold slice. intros H.
  apply (proj1 (Forall_forall (fun y => In y l) _)
           (Forall_slice _ l a b (proj2 (Forall_forall _ l) (fun y Hy => Hy)))).
  exact H.
Qed.

Lemma In_unique_from (x : Z) (seen l : list Z) :
  In x (unique_from seen l) -> In x l.
Proof.
  revert seen. induction l as [|y l IH]; intros seen H; simpl in *; [exact H|].
  destruct (existsb (Z.eqb y) seen).
  - right. eapply IH. exact H.
  - destruct H as [->|H]; [now left | right; eapply IH; exact H].
Qed.






End ExtractFacts.

(* ================================================================== *)
(** ** The conversions between torch sparse tensors and spconv tensors *)

Module SparseFacts.
Import SparseUtils.
Local Open Scope nat_scope.

(** *** Transposition *)

Lemma nth_nil_Z (j : nat) : nth j (@nil Z) 0%Z = 0%Z.
Proof. destruct j; reflexivity. Qed.

Lemma map_nth_seq (l : list Z) :
  map (fun j => nth j l 0%Z) (seq 0 (length l)) = l.
Proof.
  apply (nth_ext _ _ 0%Z 0%Z).
  - now rewrite length_map, length_seq.
  - intros n Hn. rewrite length_map, length_seq in Hn.
    rewrite (nth_indep _ 0%Z (nth 0 l 0%Z))
      by (rewrite length_map, length_seq; exact Hn).
    rewrite (map_nth (fun j => nth j l 0%Z)), seq_nth by exact Hn.
    reflexivity.
Qed.

Lemma transpose_data (data : list (list Z)) (rows cols : nat) :
  length data = rows -> Forall (fun r => length r = cols) data ->
  map (fun i => map (fun r => nth i r 0%Z)
                (map (fun j => map (fun r' => nth j r' 0%Z) data) (seq 0 cols)))
      (seq 0 rows) = data.
Proof.
  intros Hlen Hrows. apply (nth_ext _ _ [] []).
  - now rewrite length_map, length_seq.
  - intros n Hn. rewrite length_map, length_seq in Hn.
    set (F := fun i => map (fun r => nth i r 0%Z)
                (map (fun j => map (fun r' => nth j r' 0%Z) data) (seq 0 cols))).
    rewrite (nth_indep _ [] (F 0)) by (rewrite length_map, length_seq; exact Hn).
    rewrite (map_nth F), seq_nth by exact Hn. simpl. unfold F.
    rewrite map_map.
    assert (Hrow : length (nth n data []) = cols)
      by (apply (proj1 (Forall_nth _ _) Hrows); lia).
    etransitivity; [|apply (map_nth_seq (nth n data []))]. rewrite Hrow.
    apply map_ext. intros j.
    rewrite <- (nth_nil_Z j) at 1.
    apply (map_nth (fun r' => nth j r' 0%Z)).
Qed.

Lemma transpose_involutive (t : IndexTensor) :
  index_shape t -> transpose (transpose t) = t.
Proof.
  intros [Hlen Hrows]. destruct t as [rows cols data]. simpl in *.
  unfold transpose. simpl. f_equal. now apply transpose_data.
Qed.


(** *** Indices that fit 32 bits *)

Lemma int32_small (z : Z) : (0 <= z < 2 ^ 31)%Z -> int32 z = z.
Proof.
  intros H. unfold int32.
  rewrite Z.mod_small; [lia|].
  change (2 ^ 32)%Z with (2 * 2 ^ 31)%Z. lia.
Qed.

Lemma transpose_small (t : IndexTensor) :
  Forall (Forall (fun z => (0 <= z < 2 ^ 31)%Z)) (i_data t) ->
  Forall (Forall (fun z => (0 <= z < 2 ^ 31)%Z)) (i_data (transpose t)).
Proof.
  intros H. unfold transpose. simpl.
  apply Forall_map. apply Forall_forall. intros j _.
  apply Forall_map. eapply Forall_impl; [|exact H].
  intros r Hr. simpl.
  destruct (Nat.lt_ge_cases j (length r)) as [Hj|Hj].
  - apply (proj1 (Forall_nth _ _) Hr). exact Hj.
  - rewrite nth_overflow by exact Hj. split; [lia | reflexivity].
Qed.

Lemma to_int_small (t : IndexTensor) :
  Forall (Forall (fun z => (0 <= z < 2 ^ 31)%Z)) (i_data t) ->
  to_int t = t.
Proof.
  intros H. destruct t as [rows cols data]. unfold to_int. simpl in *.
  f_equal. induction H as [|r data Hr _ IH]; simpl; [reflexivity|].
  f_equal; [|exact IH].
  induction Hr as [|z r Hz _ IHr]; simpl; [reflexivity|].
  now rewrite int32_small, IHr.
Qed.

(** *** Coalescing a coalesced list of entries *)

Lemma coalesce_entries_sorted {V : Type} (add : V -> V -> V)
    (es : list (list Z * V)) :
  Sorted lex_lt (map fst es) -> coalesce_entries add es = es.
Proof.
  induction es as [|[k v] es IH]; intros Hs; simpl in *; [reflexivity|].
  apply Sorted_inv in Hs. destruct Hs as [Hs Hhd].
  unfold coalesce_entries in *. simpl. rewrite (IH Hs).
  destruct es as [|[k' v'] es']; simpl; [reflexivity|].
  simpl in Hhd. apply HdRel_inv in Hhd. unfold lex_lt in Hhd.
  now rewrite Hhd.
Qed.

Lemma map_fst_combine {A B : Type} (l : list A) (l' : list B) :
  length l = length l' -> map fst (combine l l') = l.
Proof.
  revert l'. induction l as [|a l IH]; intros [|b l'] H; simpl in *;
    try discriminate; [reflexivity|].
  f_equal. apply IH. lia.
Qed.

Lemma map_snd_combine {A B : Type} (l : list A) (l' : list B) :
  length l = length l' -> map snd (combine l l') = l'.
Proof.
  revert l'. induction l as [|a l IH]; intros [|b l'] H; simpl in *;
    try discriminate; [reflexivity|].
  f_equal. apply IH. lia.
Qed.

(** *** The round trip of a tensor with a dense channel dimension *)

(** A coalesced sparse tensor whose channel dimension is dense comes
    back from the two conversions unchanged. *)
Lemma hybrid_round_trip (t : SparseTensor) (b h w c : nat) :
  hybrid_coalesced t b h w c -> round_trip t = Ok t.
Proof.
  destruct t as [sz ix vals co]. unfold hybrid_coalesced. simpl.
  intros (Hsz & Hco & Hshape & Hrows & (v & Hv & Hlen) & Hsorted & Hsmall).
  subst sz co vals. unfold round_trip, torch_sparse_to_spconv. simpl.
  unfold get_indices. simpl. unfold rbind.
  rewrite (to_int_small (transpose ix)) by now apply transpose_small.
  unfold spconv_to_torch_sparse. simpl.
  rewrite (transpose_involutive ix Hshape).
  unfold coalesce, sparse_coo_tensor. simpl.
  assert (Hks : length (coordinates ix) = length v).
  { unfold coordinates, transpose. simpl.
    now rewrite length_map, length_seq, Hlen. }
  rewrite coalesce_entries_sorted
    by (rewrite map_fst_combine by exact Hks; exact Hsorted).
  rewrite map_fst_combine, map_snd_combine by exact Hks.
  rewrite length_combine, Hks, Nat.min_id, Hlen.
  f_equal. f_equal.
  unfold of_coordinates.
  replace (mkIndexTensor (length (coordinates ix)) (i_rows ix) (coordinates ix))
    with (transpose ix).
  - now apply transpose_involutive.
  - rewrite Hks, Hlen. reflexivity.
Qed.

(** The lemma applies to the example with two dense channels. *)
Lemma hybrid_round_trip_example : round_trip hybrid_example = Ok hybrid_example.
Proof.
  apply (hybrid_round_trip hybrid_example 1 2 2 2).
  unfold hybrid_coalesced.
  split; [reflexivity|]. split; [reflexivity|].
  split; [split; [reflexivity | repeat constructor]|].
  split; [reflexivity|].
  split; [exists [[1; 2]; [3; 4]]%Q; split; reflexivity|].
  split.
  - repeat constructor.
  - repeat constructor; (lia || reflexivity).
Qed.

(** *** The round trip of a fully sparse tensor with one channel *)

Lemma sorted_drop_channel (A B C : nat -> Z) (l : list nat) :
  Sorted lex_lt (map (fun j => [A j; B j; C j; 0%Z]) l) ->
  Sorted lex_lt (map (fun j => [A j; B j; C j]) l).
Proof.
  induction l as [|j l IH]; intros Hs; simpl in *; [constructor|].
  apply Sorted_inv in Hs. destruct Hs as [Hs Hhd].
  constructor; [now apply IH|].
  destruct l as [|j' l]; simpl in *; constructor.
  apply HdRel_inv in Hhd. unfold lex_lt in *. simpl in *.
  exact Hhd.
Qed.

Lemma combine_map_self {A B : Type} (f : A -> B) (l : list A) :
  combine (map f l) l = map (fun x => (f x, x)) l.
Proof. induction l as [|x l IH]; simpl; [reflexivity | now rewrite IH]. Qed.

Lemma nth_all_zero (r : list Z) (j : nat) :
  Forall (fun z => z = 0%Z) r -> nth j r 0%Z = 0%Z.
Proof.
  intros H. destruct (Nat.lt_ge_cases j (length r)) as [Hj|Hj].
  - apply (proj1 (Forall_nth _ _) H). exact Hj.
  - now apply nth_overflow.
Qed.

(** A coalesced, fully sparse tensor with a single channel comes back
    with its shape and its dense form; its channel dimension has
    become dense. *)
Lemma single_channel_round_trip (t : SparseTensor) (b h w : nat) :
  fully_sparse_single_channel t b h w ->
  exists t',
    round_trip t = Ok t' /\ size t' = size t /\
    forall i0 i1 i2 : Z,
      dense_at t' [i0; i1; i2; 0%Z] = dense_at t [i0; i1; i2; 0%Z].
Proof.
  destruct t as [sz [rows cols data] vals co]. unfold fully_sparse_single_channel.
  simpl.
  intros (Hsz & Hco & [Hlen Hrows] & Hr4 & (v & Hv & Hvlen) & Hsorted & Hsmall & Hlast).
  simpl in *. subst sz co vals rows.
  destruct data as [|r0 [|r1 [|r2 [|r3 [|r4 data]]]]]; try discriminate.
  simpl in Hlast.
  unfold round_trip, torch_sparse_to_spconv. simpl.
  unfold get_indices. simpl. unfold rbind.
  change (drop_last_row (mkIndexTensor 4 cols [r0; r1; r2; r3]))
    with (mkIndexTensor 3 cols [r0; r1; r2]).
  set (ix3 := mkIndexTensor 3 cols [r0; r1; r2]).
  assert (Hshape3 : index_shape ix3).
  { split; [reflexivity|]. simpl.
    inversion Hrows as [|? ? H0 Hrows1]; subst.
    inversion Hrows1 as [|? ? H1 Hrows2]; subst.
    inversion Hrows2 as [|? ? H2 _]; subst.
    repeat constructor; assumption. }
  assert (Hsmall3 : Forall (Forall (fun z => (0 <= z < 2 ^ 31)%Z)) (i_data ix3)).
  { simpl.
    inversion Hsmall as [|? ? H0 Hs1]; subst.
    inversion Hs1 as [|? ? H1 Hs2]; subst.
    inversion Hs2 as [|? ? H2 _]; subst.
    repeat constructor; assumption. }
  rewrite (to_int_small (transpose ix3)) by now apply transpose_small.
  rewrite (transpose_involutive ix3 Hshape3).
  unfold coalesce, sparse_coo_tensor. simpl.
  assert (Hsorted3 : Sorted lex_lt (coordinates ix3)).
  { unfold coordinates, transpose in *. simpl in *.
    apply sorted_drop_channel with (A := fun j => nth j r0 0%Z)
      (B := fun j => nth j r1 0%Z) (C := fun j => nth j r2 0%Z).
    erewrite map_ext; [exact Hsorted|].
    intros j. simpl. now rewrite (nth_all_zero r3 j Hlast). }
  assert (Hks : length (coordinates ix3) = length (map (fun x : Q => [x]) v)).
  { unfold coordinates, transpose. simpl.
    now rewrite !length_map, length_seq, Hvlen. }
  rewrite coalesce_entries_sorted
    by (rewrite map_fst_combine by exact Hks; exact Hsorted3).
  rewrite map_fst_combine, map_snd_combine by exact Hks.
  replace (of_coordinates 3 (coordinates ix3)) with ix3.
  2:{ unfold of_coordinates.
      replace (mkIndexTensor (length (coordinates ix3)) 3 (coordinates ix3))
        with (transpose ix3).
      - symmetry. now apply transpose_involutive.
      - rewrite Hks, length_map, Hvlen. reflexivity. }
  eexists. split; [reflexivity|]. split; [reflexivity|].
  intros i0 i1 i2. unfold dense_at. simpl.
  f_equal. unfold coordinates, transpose. simpl.
  rewrite !combine_map_self, !map_map.
  apply map_ext_in. intros j Hj. apply in_seq in Hj. simpl.
  rewrite (nth_all_zero r3 j Hlast).
  rewrite (nth_indep _ [] [0%Q]) by (rewrite length_map, Hvlen; lia).
  rewrite (map_nth (fun x : Q => [x])). simpl.
  unfold list_eqb. simpl. reflexivity.
Qed.
(** C9, the failing input.  A coalesced tensor of shape [1, 1, 1, 2]
    with four sparse dimensions and the entries 1 at (0,0,0,0) and 2
    at (0,0,0,1): [torch_sparse_to_spconv] drops the channel row of the
    indices, and the way back returns a tensor of shape [1, 1, 1, 1]
    holding 3 at (0,0,0,0).  The shape, the coordinates and the dense
    form all differ from those of the input. *)
Theorem round_trip_drops_channels :
  is_coalesced two_channels = true /\
  size two_channels = [1; 1; 1; 2] /\
  dense_at two_channels [0; 0; 0; 0]%Z = 1%Q /\
  dense_at two_channels [0; 0; 0; 1]%Z = 2%Q /\
  exists t',
    round_trip two_channels = Ok t' /\
    t' <> two_channels /\
    size t' = [1; 1; 1; 1] /\
    coordinates (indices t') = [[0; 0; 0]%Z] /\
    dense_at t' [0; 0; 0; 0]%Z = 3%Q /\
    dense_at t' [0; 0; 0; 1]%Z = 0%Q.
Proof.
  repeat split; try reflexivity.
  eexists. split; [vm_compute; reflexivity|].
  repeat split; try reflexivity.
  discriminate.
Qed.

End SparseFacts.

(* ================================================================== *)
(** ** [SparseBottleneck] *)

Module BlocksFacts.
Import Blocks.

(** C10.  Whatever the arguments, [SparseBottleneck.__init__] raises
    [NotImplementedError] as its first statement: [self] is left as it
    was, [super().__init__()] has not run and no layer is registered,
    and the constructor call never returns a block. *)
Theorem sparse_bottleneck_not_implemented
    (conv_type : string) (inplanes planes stride : Z)
    (downsample : option Layer)
    (base_width reduce_first dilation first_dilation : Z)
    (act_layer norm_layer : string) :
  (forall self,
     __init__ conv_type inplanes planes stride downsample base_width
       reduce_first dilation first_dilation act_layer norm_layer self
     = (Raise (NotImplementedError "Not tested"), self)) /\
  __init__ conv_type inplanes planes stride downsample base_width
    reduce_first dilation first_dilation act_layer norm_layer new_self
  = (Raise (NotImplementedError "Not tested"), mkSelf false []) /\
  SparseBottleneck conv_type inplanes planes stride downsample base_width
    reduce_first dilation first_dilation act_layer norm_layer
  = Raise (NotImplementedError "Not tested").
Proof. repeat split. Qed.

End BlocksFacts.

(* ================================================================== *)
(** ** The dataset: canvas, patch shape, events and samples *)

Module DatasetFacts.
Import EMDataset EMDatasetMore ExtractFacts.
Local Open Scope nat_scope.

(** *** Indexing the canvas *)

Lemma norm_index_wrap (n : nat) (i : Z) :
  (- Z.of_nat n <= i < 0)%Z -> norm_index n i = Some (Z.to_nat (i + Z.of_nat n)).
Proof.
  intros H. unfold norm_index.
  destruct (Z.leb_spec 0 i); [lia|]. simpl.
  destruct (Z.leb_spec (- Z.of_nat n) i); [|lia].
  destruct (Z.ltb_spec i 0); [|lia]. reflexivity.
Qed.

Lemma norm_index_out (n : nat) (i : Z) :
  ~ (- Z.of_nat n <= i < Z.of_nat n)%Z -> norm_index n i = None.
Proof.
  intros H. unfold norm_index.
  destruct (Z.leb_spec 0 i); destruct (Z.ltb_spec i (Z.of_nat n)); simpl;
    try lia;
    destruct (Z.leb_spec (- Z.of_nat n) i); destruct (Z.ltb_spec i 0); simpl;
    try lia; reflexivity.
Qed.

Lemma norm_index_some (n : nat) (i : Z) :
  (- Z.of_nat n <= i < Z.of_nat n)%Z ->
  exists k, norm_index n i = Some k /\ k < n.
Proof.
  intros H. destruct (Z_lt_le_dec i 0).
  - exists (Z.to_nat (i + Z.of_nat n)). split; [apply norm_index_wrap; lia | lia].
  - exists (Z.to_nat i). split; [apply norm_index_in; lia | lia].
Qed.

Lemma nth_update_same {A : Type} (i : nat) (f : A -> A) (l : list A) (d : A) :
  i < length l -> nth i (update i f l) d = f (nth i l d).
Proof.
  revert i. induction l as [|x l IH]; intros [|i] H; simpl in *; try lia.
  - reflexivity.
  - apply IH. lia.
Qed.

Lemma nth_update_other {A : Type} (i j : nat) (f : A -> A) (l : list A) (d : A) :
  i <> j -> nth j (update i f l) d = nth j l d.
Proof.
  revert i j. induction l as [|x l IH]; intros [|i] [|j] H; simpl; try reflexivity.
  - lia.
  - apply IH. lia.
Qed.

Lemma add_at_total (arr : list (list Q)) (r c : Z) (v : Q) :
  canvas_shape arr ->
  (-101 <= r < 101)%Z -> (-101 <= c < 101)%Z ->
  exists i j arr',
    norm_index 101 r = Some i /\ norm_index 101 c = Some j /\
    add_at arr r c v = Ok arr' /\ canvas_shape arr' /\
    (forall r' c', at2 arr' r' c' =
       if Nat.eqb i r' && Nat.eqb j c' then (at2 arr r' c' + v)%Q
       else at2 arr r' c').
Proof.
  intros [Hlen Hrows] Hr Hc.
  destruct (norm_index_some 101 r Hr) as [i [Hi Hilt]].
  destruct (norm_index_some 101 c Hc) as [j [Hj Hjlt]].
  exists i, j. unfold add_at. rewrite Hlen, Hi.
  assert (Hrow : length (nth i arr []) = 101)
    by (apply (proj1 (Forall_nth _ _) Hrows); lia).
  rewrite Hrow, Hj. eexists. repeat split; try reflexivity.
  - now rewrite update_length.
  - apply Forall_update; [|exact Hrows].
    intros x Hx. now rewrite update_length.
  - intros r' c'. unfold at2.
    destruct (Nat.eqb_spec i r') as [<-|Hne]; simpl.
    + rewrite nth_update_same by lia.
      destruct (Nat.eqb_spec j c') as [<-|Hne'].
      * rewrite nth_update_same by lia. reflexivity.
      * now apply nth_update_other.
    + now rewrite nth_update_other.
Qed.

Lemma add_at_fails (arr : list (list Q)) (r c : Z) (v : Q) :
  canvas_shape arr ->
  ~ ((-101 <= r < 101)%Z /\ (-101 <= c < 101)%Z) ->
  add_at arr r c v = Raise IndexError.
Proof.
  intros [Hlen Hrows] Hout. unfold add_at. rewrite Hlen.
  destruct (Z_le_dec (-101) r) as [H1|H1];
    [destruct (Z_lt_dec r 101) as [H2|H2]|];
    try (rewrite norm_index_out by (simpl; lia); reflexivity).
  destruct (norm_index_some 101 r (conj H1 H2)) as [i [Hi Hilt]].
  rewrite Hi.
  assert (Hrow : length (nth i arr []) = 101)
    by (apply (proj1 (Forall_nth _ _) Hrows); lia).
  rewrite Hrow, norm_index_out by (simpl; lia). reflexivity.
Qed.


(** *** The loop over the hits *)

Lemma hit_in_canvas_dec (h : Row) : {hit_in_canvas h} + {~ hit_in_canvas h}.
Proof.
  unfold hit_in_canvas.
  destruct (Z_le_dec (-101) (row h)); destruct (Z_lt_dec (row h) 101);
    destruct (Z_le_dec (-101) (col h)); destruct (Z_lt_dec (col h) 101);
    (left; lia) || (right; lia).
Qed.

Lemma scatter_total (df_evt : list Row) (arr : list (list Q)) :
  canvas_shape arr -> Forall hit_in_canvas df_evt ->
  exists arr',
    scatter arr df_evt = Ok arr' /\ canvas_shape arr' /\
    forall r c, at2 arr' r c = accumulated df_evt r c (at2 arr r c).
Proof.
  revert arr. induction df_evt as [|h rest IH]; intros arr Hs Hin; simpl.
  - exists arr. repeat split; auto; apply Hs.
  - inversion Hin as [|? ? [Hr Hc] Hrest]; subst.
    destruct (add_at_total arr (row h) (col h) (counts h) Hs Hr Hc)
      as (i & j & arr1 & Hi & Hj & Hadd & Hs1 & Hat).
    rewrite Hadd. simpl.
    destruct (IH arr1 Hs1 Hrest) as (arr' & Hsc & Hs' & Hacc).
    exists arr'. repeat split; try assumption; try apply Hs'.
    intros r c. rewrite Hacc, Hat. unfold accumulated. simpl.
    unfold lands. rewrite Hi, Hj. reflexivity.
Qed.

Lemma scatter_fails (df_evt : list Row) (arr : list (list Q)) :
  canvas_shape arr -> ~ Forall hit_in_canvas df_evt ->
  scatter arr df_evt = Raise IndexError.
Proof.
  revert arr. induction df_evt as [|h rest IH]; intros arr Hs Hnot; simpl.
  - exfalso. apply Hnot. constructor.
  - destruct (hit_in_canvas_dec h) as [[Hr Hc]|Hout].
    + destruct (add_at_total arr (row h) (col h) (counts h) Hs Hr Hc)
        as (i & j & arr1 & _ & _ & Hadd & Hs1 & _).
      rewrite Hadd. simpl. apply IH; [exact Hs1|].
      intros Hrest. apply Hnot. constructor; [split; assumption | exact Hrest].
    + rewrite add_at_fails by assumption. reflexivity.
Qed.

Lemma at2_zeros (rows cols r c : nat) : at2 (zeros rows cols) r c = 0%Q.
Proof.
  unfold at2, zeros.
  destruct (Nat.lt_ge_cases r rows) as [Hr|Hr].
  - rewrite nth_repeat_lt by exact Hr.
    destruct (Nat.lt_ge_cases c cols) as [Hc|Hc].
    + now rewrite nth_repeat_lt.
    + apply nth_overflow. now rewrite repeat_length.
  - rewrite (nth_overflow (repeat _ _)) by (now rewrite repeat_length).
    now destruct c.
Qed.

(** X1.  The canvas is built exactly when every hit has its row and its
    column in [-101, 101): negative indices are accepted (they count
    from the far edge), and a single hit outside that range makes the
    loop raise [IndexError]. *)
Theorem prepare_event_index_range (df_evt : list Row) :
  (Forall hit_in_canvas df_evt ->
   exists evt_arr, prepare_event df_evt = Ok evt_arr /\ canvas_shape evt_arr) /\
  (~ Forall hit_in_canvas df_evt -> prepare_event df_evt = Raise IndexError).
Proof.
  split; intros H.
  - destruct (scatter_total df_evt (zeros 101 101) zeros_shape H)
      as (arr & Hsc & Hs & _).
    now exists arr.
  - now apply scatter_fails; [apply zeros_shape|].
Qed.

(** X2.  The hits are accumulated, not overwritten: each entry of the
    canvas is the sum, in the order of the rows, of the counts of the
    hits that land on it, a hit with a negative index landing on the
    entry counted from the far edge. *)
Theorem prepare_event_accumulates (df_evt : list Row) :
  Forall hit_in_canvas df_evt ->
  exists evt_arr,
    prepare_event df_evt = Ok evt_arr /\
    forall r c, at2 evt_arr r c = accumulated df_evt r c 0%Q.
Proof.
  intros H.
  destruct (scatter_total df_evt (zeros 101 101) zeros_shape H)
    as (arr & Hsc & _ & Hacc).
  exists arr. split; [exact Hsc|].
  intros r c. rewrite Hacc, at2_zeros. reflexivity.
Qed.


(** *** The shape of the patch *)

Lemma slice_length {A : Type} (l : list A) (a b : Z) :
  (0 <= a <= b)%Z -> (b <= Z.of_nat (length l))%Z ->
  length (slice l a b) = Z.to_nat (b - a).
Proof.
  intros Hab Hb. unfold slice, slice_bound.
  destruct (Z.ltb_spec a 0); [lia|]. destruct (Z.ltb_spec b 0); [lia|].
  rewrite length_firstn, length_skipn. lia.
Qed.

Lemma mapi_from_length {A B : Type} (f : nat -> A -> B) (l : list A) (i : nat) :
  length (mapi_from i f l) = length l.
Proof.
  revert i. induction l as [|x l IH]; intros i; simpl; [reflexivity|].
  now rewrite IH.
Qed.

Lemma Forall_mapi_from {A B : Type} (P : A -> Prop) (R : B -> Prop)
    (f : nat -> A -> B) (l : list A) (i : nat) :
  (forall k x, P x -> R (f k x)) -> Forall P l -> Forall R (mapi_from i f l).
Proof.
  intros Hf H. revert i. induction H as [|x l Hx _ IH]; intros i; simpl;
    constructor; auto.
Qed.



Lemma slice2_shape {A : Type} (arr : list (list A)) (r0 r1 c0 c1 : Z) (n m : nat) :
  length arr = n -> Forall (fun r => length r = m) arr ->
  (0 <= r0 <= r1)%Z -> (r1 <= Z.of_nat n)%Z ->
  (0 <= c0 <= c1)%Z -> (c1 <= Z.of_nat m)%Z ->
  length (slice2 arr r0 r1 c0 c1) = Z.to_nat (r1 - r0) /\
  Forall (fun r => length r = Z.to_nat (c1 - c0)) (slice2 arr r0 r1 c0 c1).
Proof.
  intros Hn Hm Hr0 Hr1 Hc0 Hc1. unfold slice2. split.
  - rewrite length_map. apply slice_length; [lia | now rewrite Hn].
  - apply Forall_map. apply Forall_slice.
    eapply Forall_impl; [|exact Hm].
    intros r Hr. simpl in Hr. apply slice_length; [lia | now rewrite Hr].
Qed.



(** *** The events of a dataset *)

Lemma NoDup_firstn {A : Type} (n : nat) (l : list A) :
  NoDup l -> NoDup (firstn n l).
Proof.
  revert n. induction l as [|x l IH]; intros [|n] H; simpl; try constructor.
  - inversion H as [|? ? Hx Hl]; subst. intros Hin. apply Hx.
    rewrite <- (firstn_skipn n l). apply in_or_app. now left.
  - apply IH. now inversion H.
Qed.

Lemma NoDup_skipn {A : Type} (n : nat) (l : list A) :
  NoDup l -> NoDup (skipn n l).
Proof.
  revert n. induction l as [|x l IH]; intros [|n] H; simpl; auto.
  apply IH. now inversion H.
Qed.

Lemma NoDup_slice {A : Type} (l : list A) (a b : Z) :
  NoDup l -> NoDup (slice l a b).
Proof. intros H. unfold slice. now apply NoDup_firstn, NoDup_skipn. Qed.

Lemma slice_length_le {A : Type} (l : list A) (a b : Z) :
  length (slice l a b) <= length l.
Proof.
  unfold slice. rewrite length_firstn, length_skipn. lia.
Qed.

Lemma unique_from_spec (l seen : list Z) :
  NoDup (unique_from seen l) /\
  (forall x, In x (unique_from seen l) -> ~ In x seen) /\
  length (unique_from seen l) <= length l.
Proof.
  revert seen. induction l as [|y l IH]; intros seen; simpl.
  - repeat split; [constructor | intros x [] | lia].
  - destruct (existsb (Z.eqb y) seen) eqn:E.
    + destruct (IH seen) as (H1 & H2 & H3). repeat split; auto.
    + destruct (IH (y :: seen)) as (H1 & H2 & H3). repeat split.
      * constructor; [|exact H1]. intros Hin. apply (H2 y Hin). now left.
      * intros x [<-|Hin] Hseen.
        -- assert (existsb (Z.eqb y) seen = true)
             by (apply existsb_exists; exists y; split; [exact Hseen | apply Z.eqb_refl]).
           congruence.
        -- apply (H2 x Hin). now right.
      * simpl. lia.
Qed.

(** X5.  The events of a dataset built by [__init__] are pairwise
    distinct, each of them has at least one row in the dataframe, and
    there are at most as many of them as there are rows. *)
Theorem init_events (df : list Row) (noise_mean noise_sigma : Q)
    (nstart nend : Z) (add_noise : bool) (add_shift : Z) :
  NoDup (events (__init__ df noise_mean noise_sigma nstart nend
                   add_noise add_shift)) /\
  (forall e,
     In e (events (__init__ df noise_mean noise_sigma nstart nend
                     add_noise add_shift)) ->
     exists r, In r df /\ event r = e) /\
  __len__ (__init__ df noise_mean noise_sigma nstart nend add_noise add_shift)
  <= length df.
Proof.
  unfold __len__, __init__. simpl.
  destruct (unique_from_spec (map event df) []) as (Hnd & _ & Hle).
  fold (unique (map event df)) in Hnd, Hle.
  rewrite length_map in Hle.
  repeat split.
  - destruct (nend =? 0)%Z; now apply NoDup_slice.
  - intros e He.
    assert (Hin : In e (map event df)).
    { apply (In_unique_from _ []). fold (unique (map event df)).
      destruct (nend =? 0)%Z; eapply In_slice; exact He. }
    apply in_map_iff in Hin. destruct Hin as [r [Hr Hdf]]. now exists r.
  - destruct (nend =? 0)%Z;
      (eapply Nat.le_trans; [apply slice_length_le | exact Hle]).
Qed.

(** *** [__getitem__] from end to end *)




(** *** Witnesses *)

(** Witness of X1 and an example of each case: the three hits build a
    canvas, a hit in row 101 raises. *)
Lemma prepare_event_index_range_witness :
  exists evt_arr, prepare_event three_hits = Ok evt_arr /\ canvas_shape evt_arr.
Proof.
  apply (proj1 (prepare_event_index_range three_hits)).
  repeat constructor; simpl; lia.
Defined.

Lemma prepare_event_row_101 :
  prepare_event [mkRow 0 101 50 1 0 0] = Raise IndexError.
Proof. reflexivity. Qed.

(** Witness of X2; the two hits on (50, 50) add up to 7 and the hit at
    (-1, -101) lands on (100, 0). *)
Lemma prepare_event_accumulates_witness :
  exists evt_arr,
    prepare_event three_hits = Ok evt_arr /\
    forall r c, at2 evt_arr r c = accumulated three_hits r c 0%Q.
Proof.
  apply (prepare_event_accumulates three_hits).
  repeat constructor; simpl; lia.
Defined.

Lemma accumulated_three_hits :
  accumulated three_hits 50 50 0%Q = 7%Q /\
  accumulated three_hits 100 0 0%Q = 3%Q /\
  accumulated three_hits 0 0 0%Q = 0%Q.
Proof. repeat split; vm_compute; reflexivity. Qed.



(** Witness of X5: the event of the single hit. *)
Lemma init_events_witness :
  exists r, In r single_hit /\ event r = 0%Z.
Proof.
  apply (proj1 (proj2 (init_events single_hit 0 0 0 0 false 0)) 0%Z).
  simpl. now left.
Defined.

End DatasetFacts.

(* ================================================================== *)
(** ** Batch offsets *)

Module OffsetFacts.
Import SparseUtils SparseGather.
Local Open Scope nat_scope.

Lemma argmax_from_one (l : list Z) (b : Z) (best_i i : nat) :
  argmax_from best_i 1 i (matching_column l b) = best_i.
Proof.
  revert i. induction l as [|x l IH]; intros i; simpl; [reflexivity|].
  destruct (x =? b)%Z; simpl; apply IH.
Qed.

Lemma argmax_from_zero (l : list Z) (b : Z) (best_i i : nat) :
  argmax_from best_i 0 i (matching_column l b) =
  if existsb (fun x => (x =? b)%Z) l then i + first_index b l else best_i.
Proof.
  revert i. induction l as [|x l IH]; intros i; simpl; [reflexivity|].
  destruct (x =? b)%Z; simpl.
  - rewrite argmax_from_one. lia.
  - rewrite IH. destruct (existsb _ l); lia.
Qed.

Lemma argmax_matching (l : list Z) (b : Z) :
  argmax (matching_column l b) =
  if existsb (fun x => (x =? b)%Z) l then first_index b l else 0.
Proof.
  destruct l as [|x l]; simpl; [reflexivity|].
  destruct (x =? b)%Z; simpl.
  - apply argmax_from_one.
  - rewrite argmax_from_zero. destruct (existsb _ l); reflexivity.
Qed.

Lemma existsb_In (l : list Z) (b : Z) :
  existsb (fun x => (x =? b)%Z) l = true <-> In b l.
Proof.
  rewrite existsb_exists. split.
  - intros [x [Hin Hx]]. apply Z.eqb_eq in Hx. now subst.
  - intros H. exists b. split; [exact H | apply Z.eqb_refl].
Qed.

(** [first_index] is the first occurrence. *)
Lemma first_index_spec (l : list Z) (b : Z) :
  In b l ->
  first_index b l < length l /\
  nth (first_index b l) l 0%Z = b /\
  forall j, j < first_index b l -> nth j l 0%Z <> b.
Proof.
  induction l as [|x l IH]; intros Hin; [destruct Hin|]. simpl.
  destruct (Z.eqb_spec x b) as [->|Hne].
  - repeat split; [lia | intros j Hj; lia].
  - destruct Hin as [Hx|Hin]; [congruence|].
    destruct (IH Hin) as (H1 & H2 & H3). repeat split; [lia | exact H2 |].
    intros [|j] Hj; [exact Hne | apply H3; lia].
Qed.

Lemma fold_max_ge (l : list Z) (x : Z) :
  (x <= fold_left Z.max l x)%Z /\
  forall y, In y l -> (y <= fold_left Z.max l x)%Z.
Proof.
  revert x. induction l as [|z l IH]; intros x; simpl.
  - split; [lia | intros y []].
  - destruct (IH (Z.max x z)) as [H1 H2]. split; [lia|].
    intros y [<-|Hy]; [lia | now apply H2].
Qed.

Lemma nth_map_seq (f : Z -> nat) (n k : nat) :
  k < n -> nth k (map f (map Z.of_nat (seq 0 n))) 0 = f (Z.of_nat k).
Proof.
  intros H. rewrite map_map.
  rewrite (nth_indep _ 0 (f (Z.of_nat 0))) by (now rewrite length_map, length_seq).
  rewrite (map_nth (fun i => f (Z.of_nat i))), seq_nth by exact H.
  reflexivity.
Qed.

Lemma batch_offsets_spec (t : IndexTensor)
    (batch_indices : list Z) (others : list (list Z)) :
  i_data t = batch_indices :: others ->
  batch_indices <> [] ->
  Forall (fun b => (0 <= b)%Z) batch_indices ->
  exists out max_batch_index,
    batch_offsets_from_sparse_tensor_indices (IntIndices t) = Ok out /\
    tensor_max batch_indices = Ok max_batch_index /\
    In max_batch_index batch_indices /\
    length out = Z.to_nat (max_batch_index + 1) /\
    (forall b, In b batch_indices ->
       nth (Z.to_nat b) out 0 = first_index b batch_indices /\
       nth (first_index b batch_indices) batch_indices 0%Z = b /\
       forall j, j < first_index b batch_indices ->
                 nth j batch_indices 0%Z <> b) /\
    (forall b, (0 <= b)%Z -> ~ In b batch_indices ->
       nth (Z.to_nat b) out 0 = 0).
Proof.
  intros Hdata Hne Hpos.
  destruct batch_indices as [|x l] eqn:E; [congruence|]. rewrite <- E in *.
  set (m := fold_left Z.max l x).
  assert (Hmax : tensor_max batch_indices = Ok m) by (rewrite E; reflexivity).
  assert (Hge : forall y, In y batch_indices -> (y <= m)%Z).
  { intros y Hy. rewrite E in Hy. destruct (fold_max_ge l x) as [H1 H2].
    destruct Hy as [<-|Hy]; [exact H1 | now apply H2]. }
  assert (Hm0 : (0 <= m)%Z).
  { assert (0 <= x)%Z by (rewrite E in Hpos; now inversion Hpos).
    destruct (fold_max_ge l x) as [H1 _]. unfold m. lia. }
  assert (Hin : In m batch_indices).
  { rewrite E. unfold m. clear. revert x.
    induction l as [|z l IH]; intros x; simpl; [now left|].
    destruct (IH (Z.max x z)) as [H|H].
    - rewrite <- H.
      destruct (Z.max_spec x z) as [[_ Hz]|[_ Hz]]; rewrite Hz;
        [right; now left | now left].
    - right. right. exact H. }
  unfold batch_offsets_from_sparse_tensor_indices. rewrite Hdata, Hmax.
  cbn [rbind]. unfold arange.
  destruct (Z.ltb_spec (m + 1) 0); [lia|]. cbn [rbind].
  do 2 eexists. split; [reflexivity|]. split; [reflexivity|].
  split; [exact Hin|]. split; [now rewrite !length_map, length_seq|].
  split.
  - intros b Hb. pose proof (Hge b Hb) as Hle.
    assert (0 <= b)%Z by (apply (proj1 (Forall_forall _ _) Hpos); exact Hb).
    rewrite (nth_map_seq (fun b => argmax (matching_column batch_indices b)))
      by lia.
    rewrite Z2Nat.id by lia. rewrite argmax_matching.
    rewrite (proj2 (existsb_In batch_indices b) Hb).
    destruct (first_index_spec batch_indices b Hb) as (_ & H2 & H3).
    repeat split; assumption.
  - intros b Hb0 Hb.
    destruct (Nat.lt_ge_cases (Z.to_nat b) (Z.to_nat (m + 1))) as [Hlt|Hgeq].
    + rewrite (nth_map_seq (fun b => argmax (matching_column batch_indices b)))
        by exact Hlt.
      rewrite argmax_matching.
      destruct (existsb _ batch_indices) eqn:Ex; [|reflexivity].
      apply existsb_In in Ex.
      rewrite Z2Nat.id in Ex by lia. contradiction.
    + apply nth_overflow. now rewrite !length_map, length_seq.
Qed.


(** X6.  On an integer tensor whose first row holds the batch indices,
    none of them negative: without entries the function raises
    [RuntimeError] (the maximum of an empty tensor); otherwise the
    result has one entry per batch number up to the largest one, the
    entry of a batch that occurs is the position of its first
    occurrence, and the entry of a batch that does not occur is 0. *)
Theorem batch_offsets_first_occurrence (t : IndexTensor)
    (batch_indices : list Z) (others : list (list Z)) :
  i_data t = batch_indices :: others ->
  Forall (fun b => (0 <= b)%Z) batch_indices ->
  (batch_indices = [] ->
   batch_offsets_from_sparse_tensor_indices (IntIndices t) = Raise RuntimeError) /\
  (batch_indices <> [] ->
   exists out max_batch_index,
     batch_offsets_from_sparse_tensor_indices (IntIndices t) = Ok out /\
     tensor_max batch_indices = Ok max_batch_index /\
     In max_batch_index batch_indices /\
     length out = Z.to_nat (max_batch_index + 1) /\
     (forall b, In b batch_indices ->
        nth (Z.to_nat b) out 0 = first_index b batch_indices /\
        nth (first_index b batch_indices) batch_indices 0%Z = b /\
        forall j, j < first_index b batch_indices ->
                  nth j batch_indices 0%Z <> b) /\
     (forall b, (0 <= b)%Z -> ~ In b batch_indices ->
        nth (Z.to_nat b) out 0 = 0)).
Proof.
  intros Hdata Hpos. split.
  - intros ->. unfold batch_offsets_from_sparse_tensor_indices.
    rewrite Hdata. reflexivity.
  - intros Hne. now apply (batch_offsets_spec t batch_indices others).
Qed.

(** Witness of X6: the batches 0, 0, 2, 2, 2 give the offsets 0, 0, 2. *)
Lemma batch_offsets_first_occurrence_witness :
  exists out max_batch_index,
    batch_offsets_from_sparse_tensor_indices (IntIndices batch_row_example)
    = Ok out /\
    tensor_max [0; 0; 2; 2; 2]%Z = Ok max_batch_index /\
    In max_batch_index [0; 0; 2; 2; 2]%Z /\
    length out = Z.to_nat (max_batch_index + 1) /\
    (forall b, In b [0; 0; 2; 2; 2]%Z ->
       nth (Z.to_nat b) out 0 = first_index b [0; 0; 2; 2; 2]%Z /\
       nth (first_index b [0; 0; 2; 2; 2]%Z) [0; 0; 2; 2; 2]%Z 0%Z = b /\
       forall j, j < first_index b [0; 0; 2; 2; 2]%Z ->
                 nth j [0; 0; 2; 2; 2]%Z 0%Z <> b) /\
    (forall b, (0 <= b)%Z -> ~ In b [0; 0; 2; 2; 2]%Z ->
       nth (Z.to_nat b) out 0 = 0).
Proof.
  apply (proj2 (batch_offsets_first_occurrence batch_row_example
                  [0; 0; 2; 2; 2]%Z [[4; 7; 1; 3; 9]%Z] eq_refl
                  ltac:(repeat constructor; lia))).
  discriminate.
Defined.

Lemma batch_offsets_example :
  batch_offsets_from_sparse_tensor_indices (IntIndices batch_row_example)
  = Ok [0; 0; 2].
Proof. reflexivity. Qed.

Lemma first_index_sorted (l : list Z) (b : Z) :
  StronglySorted Z.le l -> In b l -> first_index b l = count_below b l.
Proof.
  unfold count_below.
  induction l as [|x l IH]; intros Hs Hin; [destruct Hin|].
  inversion Hs as [|? ? Hs' Hall]; subst. simpl.
  destruct (Z.eqb_spec x b) as [->|Hne].
  - destruct (Z.ltb_spec b b); [lia|].
    assert (Hnone : filter (fun x => (x <? b)%Z) l = []).
    { clear -Hall. induction Hall as [|y l Hy _ IH]; simpl; [reflexivity|].
      destruct (Z.ltb_spec y b); [lia | exact IH]. }
    now rewrite Hnone.
  - destruct Hin as [Hx|Hin]; [congruence|].
    assert (x <= b)%Z by (apply (proj1 (Forall_forall _ _) Hall); exact Hin).
    destruct (Z.ltb_spec x b); [|lia]. simpl. now rewrite IH.
Qed.

(** X7.  When the batch indices are in non-decreasing order, as in a
    coalesced tensor, the entry of every batch that occurs is its batch
    offset, the number of entries of smaller batches; a batch without
    entries gets 0 all the same, whatever came before it. *)
Theorem batch_offsets_sorted (t : IndexTensor)
    (batch_indices : list Z) (others : list (list Z)) :
  i_data t = batch_indices :: others ->
  batch_indices <> [] ->
  Forall (fun b => (0 <= b)%Z) batch_indices ->
  Sorted Z.le batch_indices ->
  exists out,
    batch_offsets_from_sparse_tensor_indices (IntIndices t) = Ok out /\
    (forall b, In b batch_indices ->
       nth (Z.to_nat b) out 0 = count_below b batch_indices) /\
    (forall b, (0 <= b)%Z -> ~ In b batch_indices ->
       nth (Z.to_nat b) out 0 = 0).
Proof.
  intros Hdata Hne Hpos Hsorted.
  destruct (batch_offsets_spec t batch_indices others Hdata Hne Hpos)
    as (out & m & Hout & _ & _ & _ & Hocc & Habs).
  exists out. split; [exact Hout|]. split; [|exact Habs].
  intros b Hb. destruct (Hocc b Hb) as [H1 _]. rewrite H1.
  apply first_index_sorted; [|exact Hb].
  apply Sorted_StronglySorted; [|exact Hsorted].
  intros x y z. apply Z.le_trans.
Qed.

(** Witness of X7: batch 1 is empty and gets 0, although two entries
    of batch 0 come before. *)
Lemma batch_offsets_sorted_witness :
  exists out,
    batch_offsets_from_sparse_tensor_indices (IntIndices batch_row_example)
    = Ok out /\
    (forall b, In b [0; 0; 2; 2; 2]%Z ->
       nth (Z.to_nat b) out 0 = count_below b [0; 0; 2; 2; 2]%Z) /\
    (forall b, (0 <= b)%Z -> ~ In b [0; 0; 2; 2; 2]%Z ->
       nth (Z.to_nat b) out 0 = 0).
Proof.
  apply (batch_offsets_sorted batch_row_example
           [0; 0; 2; 2; 2]%Z [[4; 7; 1; 3; 9]%Z] eq_refl).
  - discriminate.
  - repeat constructor; lia.
  - repeat constructor; lia.
Defined.

End OffsetFacts.

(* ================================================================== *)
(** ** Gathering from a sparse tensor *)

Module GatherFacts.
Import SparseUtils SparseGather.
Local Open Scope Z_scope.

(** *** Linear indices *)

Lemma prod_app_one (l : list nat) : prod (l ++ [1%nat]) = prod l.
Proof.
  unfold prod. induction l as [|n l IH]; simpl; [reflexivity|].
  fold (prod (l ++ [1%nat])) in *. fold (prod l) in *. now rewrite IH.
Qed.

Lemma dim_linear_offsets_cons (n : nat) (shp : list nat) :
  dim_linear_offsets (n :: shp) = prod shp :: dim_linear_offsets shp.
Proof.
  unfold dim_linear_offsets. simpl length. rewrite <- cons_seq. simpl map.
  rewrite prod_app_one. f_equal.
  rewrite <- seq_shift, map_map. reflexivity.
Qed.

Lemma linearize_cons (off : Z) (offs : list Z) (x : Z) (k : list Z) :
  linearize (off :: offs) (x :: k) = x * off + linearize offs k.
Proof. reflexivity. Qed.

Lemma linearize_range (shp : list nat) (k : list Z) :
  in_bounds shp k ->
  0 <= linearize (dim_linear_offsets shp) k < prod shp.
Proof.
  revert k. induction shp as [|n shp IH]; intros [|x k] H; simpl in H;
    try contradiction.
  - unfold linearize, prod. simpl. lia.
  - destruct H as [Hx Hk]. specialize (IH k Hk).
    rewrite dim_linear_offsets_cons, linearize_cons.
    change (prod (n :: shp)) with (Z.of_nat n * prod shp). nia.
Qed.

Lemma linearize_injective (shp : list nat) (k k' : list Z) :
  in_bounds shp k -> in_bounds shp k' ->
  linearize (dim_linear_offsets shp) k = linearize (dim_linear_offsets shp) k' ->
  k = k'.
Proof.
  revert k k'. induction shp as [|n shp IH]; intros [|x k] [|x' k'] H H' Heq;
    simpl in H, H'; try contradiction; [reflexivity|].
  destruct H as [Hx Hk]. destruct H' as [Hx' Hk'].
  rewrite dim_linear_offsets_cons, !linearize_cons in Heq.
  pose proof (linearize_range shp k Hk) as Hr.
  pose proof (linearize_range shp k' Hk') as Hr'.
  assert (x = x') by nia. subst x'.
  f_equal. apply IH; [assumption | assumption | lia].
Qed.

Lemma list_eqb_eq (k k' : list Z) : list_eqb k k' = true <-> k = k'.
Proof.
  unfold list_eqb. revert k'. induction k as [|x k IH]; intros [|x' k']; simpl;
    try (split; [discriminate | discriminate]); [tauto|].
  destruct (Z.compare_spec x x') as [->|Hlt|Hgt].
  - rewrite IH. split; [now intros -> | now intros [= ->]].
  - split; [discriminate | intros [= -> _]; lia].
  - split; [discriminate | intros [= -> _]; lia].
Qed.

Lemma in_bounds_length (shp : list nat) (k : list Z) :
  in_bounds shp k -> length k = length shp.
Proof.
  revert k. induction shp as [|n shp IH]; intros [|x k] H; simpl in *;
    try contradiction; [reflexivity|].
  f_equal. apply IH. apply H.
Qed.

Lemma combine_map_l {A B C : Type} (f : A -> B) (l : list A) (l' : list C) :
  combine (map f l) l' = map (fun p => (f (fst p), snd p)) (combine l l').
Proof.
  revert l'. induction l as [|a l IH]; intros [|c l']; simpl; try reflexivity.
  now rewrite IH.
Qed.

Lemma mapR_ok {A B : Type} (f : A -> result B) (g : A -> B) (l : list A) :
  (forall a, In a l -> f a = Ok (g a)) -> mapR f l = Ok (map g l).
Proof.
  induction l as [|a l IH]; intros H; simpl; [reflexivity|].
  rewrite (H a (or_introl eq_refl)). cbn [rbind].
  rewrite IH by (intros a' Ha'; apply H; now right). reflexivity.
Qed.

(** *** The gathered values *)







Lemma gather_wraps_example :
  gather_from_sparse_tensor (fun ib => ib) matrix_example
    (mkIndexBatch [1%nat] 2 [[0; 3]]) = Ok (Scalars [1%nat] [7%Q]) /\
  dense_at matrix_example [1; 0] = 7%Q.
Proof. split; vm_compute; reflexivity. Qed.

(** X10.  An index tensor whose last dimension differs from the number
    of sparse dimensions is refused with [ValueError]; the later branch
    that would prepend a batch index can therefore never run, and the
    result does not depend on [batch_dim_to_leading_index] at all. *)
Theorem gather_dimension_check (t : SparseTensor) (ib : IndexBatch)
    (leading leading' : IndexBatch -> IndexBatch) :
  (ib_last ib <> i_rows (indices t) ->
   gather_from_sparse_tensor leading t ib = Raise ValueError) /\
  gather_from_sparse_tensor leading t ib
  = gather_from_sparse_tensor leading' t ib.
Proof.
  unfold gather_from_sparse_tensor.
  destruct (Nat.eqb_spec (ib_last ib) (i_rows (indices t))) as [He|Hne];
    cbn [negb].
  - split; [intros H; contradiction | reflexivity].
  - split; reflexivity.
Qed.

(** Witness of X10: one index column for a tensor of two sparse
    dimensions. *)
Lemma gather_dimension_check_witness :
  gather_from_sparse_tensor (fun ib => ib) matrix_example
    (mkIndexBatch [1%nat] 1 [[0]]) = Raise ValueError.
Proof.
  apply (proj1 (gather_dimension_check matrix_example
                  (mkIndexBatch [1%nat] 1 [[0]]) (fun ib => ib) (fun ib => ib))).
  simpl. lia.
Defined.

End GatherFacts.

(* ================================================================== *)
(** ** The other sparse blocks *)

Module BlocksV2Facts.
Import Blocks BlocksV2.
Local Open Scope Z_scope.

(** X11.  [SparseBasicBlock.__init__] succeeds exactly when one, and
    only one, of ["sub"] and ["sparse"] occurs in [conv_type];
    otherwise the assertion fails with [self] untouched.  The
    [ValueError] of its last branch can never be raised. *)
Theorem basic_block_conv_type (conv_type : string) (self : Self) :
  (xorb (contains "sub" conv_type) (contains "sparse" conv_type) = true ->
   SparseBasicBlock_init conv_type self
   = (Ok tt, mkSelf true (attrs self))) /\
  (xorb (contains "sub" conv_type) (contains "sparse" conv_type) = false ->
   SparseBasicBlock_init conv_type self = (Raise AssertionError, self)) /\
  fst (SparseBasicBlock_init conv_type self) <> Raise ValueError.
Proof.
  unfold SparseBasicBlock_init, bind, assert_, ret, raise, super_init.
  destruct (contains "sub" conv_type); destruct (contains "sparse" conv_type);
    simpl; repeat split; intros; try discriminate; reflexivity.
Qed.

(** Witness of X11: ["submanifold"] is accepted, a type naming both
    kinds is not. *)
Lemma basic_block_conv_type_witness :
  SparseBasicBlock_init "submanifold" new_self = (Ok tt, mkSelf true []) /\
  SparseBasicBlock_init "sparse_submanifold" new_self
  = (Raise AssertionError, new_self).
Proof.
  split.
  - apply (proj1 (basic_block_conv_type "submanifold" new_self)).
    reflexivity.
  - apply (proj1 (proj2 (basic_block_conv_type "sparse_submanifold" new_self))).
    reflexivity.
Defined.

Section Stage.
Variable get_padding : Z -> Z -> Z -> Z.






End Stage.



End BlocksV2Facts.

(* ================================================================== *)
(** ** [sum_neighbors] *)

Module SumNeighborsFacts.
Import EMDataset SumNeighbors.
Local Open Scope Z_scope.

Lemma norm_index_nonneg (n : nat) (i : Z) :
  0 <= i < Z.of_nat n -> norm_index n i = Some (Z.to_nat i).
Proof.
  intros H. unfold norm_index.
  destruct (Z.leb_spec 0 i); [|lia].
  destruct (Z.ltb_spec i (Z.of_nat n)); [|lia]. reflexivity.
Qed.

Lemma norm_index_high (n : nat) (i : Z) :
  Z.of_nat n <= i -> norm_index n i = None.
Proof.
  intros H. unfold norm_index.
  destruct (Z.leb_spec 0 i); [|lia].
  destruct (Z.ltb_spec i (Z.of_nat n)); [lia|]. simpl.
  destruct (Z.leb_spec (- Z.of_nat n) i); simpl;
    [destruct (Z.ltb_spec i 0); [lia | reflexivity] | reflexivity].
Qed.

Lemma rect_row (arr : Arr) (R C i : nat) :
  rect arr R C -> (i < R)%nat -> length (nth i arr []) = C.
Proof.
  intros [Hl Hall] Hi. rewrite Forall_forall in Hall.
  apply Hall. apply nth_In. lia.
Qed.

Lemma rect_zero_cell (arr : Arr) (R C : nat) (remove : bool) (r c : Z) :
  rect arr R C -> rect (zero_cell remove r c arr) R C.
Proof.
  intros [Hl Hall]. unfold zero_cell. destruct remove; [|now split].
  split.
  - now rewrite ExtractFacts.update_length.
  - apply ExtractFacts.Forall_update; [|exact Hall].
    intros row Hrow. now rewrite ExtractFacts.update_length.
Qed.

Lemma shape2_rect (arr : Arr) (R C : nat) :
  rect arr R C -> (0 < R)%nat -> shape2 arr = (R, C).
Proof.
  intros H HR. unfold shape2. rewrite (rect_row arr R C 0 H HR).
  destruct H as [-> _]. reflexivity.
Qed.

Lemma getitem_ok (arr : Arr) (R C : nat) (r c : Z) :
  rect arr R C -> 0 <= r < Z.of_nat R -> 0 <= c < Z.of_nat C ->
  getitem r c arr = (Ok (padded arr r c), arr).
Proof.
  intros H Hr Hc. unfold getitem, padded.
  destruct H as [Hl Hall]. rewrite Hl, (norm_index_nonneg R r Hr).
  rewrite (rect_row arr R C (Z.to_nat r) (conj Hl Hall)) by lia.
  rewrite (norm_index_nonneg C c Hc).
  destruct (Z.leb_spec 0 r); [|lia]. destruct (Z.leb_spec 0 c); [|lia].
  reflexivity.
Qed.

Lemma setitem0_ok (arr : Arr) (R C : nat) (r c : Z) :
  rect arr R C -> 0 <= r < Z.of_nat R -> 0 <= c < Z.of_nat C ->
  setitem0 r c arr = (Ok tt, zero_cell true r c arr).
Proof.
  intros H Hr Hc. unfold setitem0, zero_cell.
  destruct H as [Hl Hall]. rewrite Hl, (norm_index_nonneg R r Hr).
  rewrite (rect_row arr R C (Z.to_nat r) (conj Hl Hall)) by lia.
  rewrite (norm_index_nonneg C c Hc). reflexivity.
Qed.

Lemma getitem_row_out (arr : Arr) (R C : nat) (r c : Z) :
  rect arr R C -> Z.of_nat R <= r -> getitem r c arr = (Raise IndexError, arr).
Proof.
  intros [Hl _] Hr. unfold getitem. rewrite Hl, (norm_index_high R r Hr).
  reflexivity.
Qed.

Lemma getitem_col_out (arr : Arr) (R C : nat) (r c : Z) :
  rect arr R C -> 0 <= r < Z.of_nat R -> Z.of_nat C <= c ->
  getitem r c arr = (Raise IndexError, arr).
Proof.
  intros H Hr Hc. unfold getitem.
  destruct H as [Hl Hall]. rewrite Hl, (norm_index_nonneg R r Hr).
  rewrite (rect_row arr R C (Z.to_nat r) (conj Hl Hall)) by lia.
  rewrite (norm_index_high C c Hc). reflexivity.
Qed.

(** A neighbor that exists is added and, with [remove], cleared. *)
Lemma visit_ok (arr : Arr) (R C : nat) (r c : Z) (remove : bool) (sum : Q) :
  rect arr R C -> 0 <= r < Z.of_nat R -> 0 <= c < Z.of_nat C ->
  visit r c remove sum arr
  = (Ok (sum + padded arr r c)%Q, zero_cell remove r c arr).
Proof.
  intros H Hr Hc. unfold visit, bind.
  rewrite (getitem_ok arr R C r c H Hr Hc).
  destruct remove.
  - rewrite (setitem0_ok arr R C r c H Hr Hc). reflexivity.
  - reflexivity.
Qed.

Lemma when_ok (arr : Arr) (R C : nat) (cond : bool) (r c : Z)
    (remove : bool) (sum : Q) :
  rect arr R C ->
  (cond = true -> 0 <= r < Z.of_nat R /\ 0 <= c < Z.of_nat C) ->
  when cond (visit r c remove) sum arr
  = (Ok (if cond then (sum + padded arr r c)%Q else sum),
     if cond then zero_cell remove r c arr else arr).
Proof.
  intros H Hc. unfold when. destruct cond; [|reflexivity].
  destruct (Hc eq_refl). now apply visit_ok with (R := R) (C := C).
Qed.

Lemma at2_zero_cell (arr : Arr) (remove : bool) (r' c' : Z) (r c : nat) :
  at2 (zero_cell remove r' c' arr) r c
  = if remove && Nat.eqb r (Z.to_nat r') && Nat.eqb c (Z.to_nat c')
    then 0%Q else at2 arr r c.
Proof.
  unfold zero_cell, at2. destruct remove; [|reflexivity]. simpl.
  destruct (Nat.eqb_spec r (Z.to_nat r')) as [->|Hr]; simpl.
  - destruct (Nat.lt_ge_cases (Z.to_nat r') (length arr)) as [Hlt|Hge].
    + rewrite DatasetFacts.nth_update_same by exact Hlt.
      destruct (Nat.eqb_spec c (Z.to_nat c')) as [->|Hc].
      * destruct (Nat.lt_ge_cases (Z.to_nat c')
                    (length (nth (Z.to_nat r') arr []))) as [Hlt'|Hge'].
        -- now rewrite DatasetFacts.nth_update_same by exact Hlt'.
        -- rewrite nth_overflow; [reflexivity|].
           now rewrite ExtractFacts.update_length.
      * rewrite DatasetFacts.nth_update_other by congruence. reflexivity.
    + rewrite (nth_overflow (update _ _ _))
        by now rewrite ExtractFacts.update_length.
      rewrite (nth_overflow arr) by exact Hge.
      now destruct (Nat.eqb c (Z.to_nat c')); destruct c.
  - rewrite DatasetFacts.nth_update_other by congruence. reflexivity.
Qed.

Lemma padded_zero_cell (arr : Arr) (remove : bool) (r' c' r c : Z) :
  0 <= r' -> 0 <= c' -> r <> r' \/ c <> c' ->
  padded (zero_cell remove r' c' arr) r c = padded arr r c.
Proof.
  intros Hr Hc Hne. unfold padded.
  destruct (Z.leb_spec 0 r); simpl; [|reflexivity].
  destruct (Z.leb_spec 0 c); simpl; [|reflexivity].
  rewrite at2_zero_cell.
  destruct (Nat.eqb_spec (Z.to_nat r) (Z.to_nat r'));
    destruct (Nat.eqb_spec (Z.to_nat c) (Z.to_nat c'));
    rewrite ?andb_false_r; simpl; try reflexivity.
  lia.
Qed.

Lemma padded_out (arr : Arr) (R C : nat) (r c : Z) :
  rect arr R C ->
  r < 0 \/ Z.of_nat R <= r \/ c < 0 \/ Z.of_nat C <= c ->
  padded arr r c = 0%Q.
Proof.
  intros H Hout. unfold padded.
  destruct (Z.leb_spec 0 r); simpl; [|reflexivity].
  destruct (Z.leb_spec 0 c); simpl; [|reflexivity].
  unfold at2.
  destruct (Nat.lt_ge_cases (Z.to_nat r) R) as [Hlt|Hge].
  - apply nth_overflow. rewrite (rect_row arr R C _ H Hlt). lia.
  - destruct H as [Hl _]. rewrite (nth_overflow arr) by lia.
    now destruct (Z.to_nat c).
Qed.

Lemma clear_ok (arr : Arr) (R C : nat) (r c : Z) (remove : bool) :
  rect arr R C -> 0 <= r < Z.of_nat R -> 0 <= c < Z.of_nat C ->
  (if remove then setitem0 r c else ret tt) arr
  = (Ok tt, zero_cell remove r c arr).
Proof.
  intros H Hr Hc. destruct remove; [|reflexivity].
  now apply setitem0_ok with (R := R) (C := C).
Qed.

Ltac side := first [lia | repeat apply rect_zero_cell; assumption].

Ltac run R C :=
  repeat first
    [ rewrite (visit_ok _ R C) by side
    | rewrite (getitem_ok _ R C) by side
    | rewrite (clear_ok _ R C) by side
    | progress cbv beta iota ].

(** The two things left to show once the run is unfolded: the sum,
    where cleared cells are never read again, and the cleared cells. *)
Ltac block_total :=
  match goal with
  | H : rect ?arr ?n ?n |- (_ == _)%Q =>
      rewrite ?padded_zero_cell by lia; unfold block_sum;
      repeat match goal with
             | |- context [padded arr ?r ?c] =>
                 rewrite (padded_out arr n n r c H) by lia
             end;
      ring
  end.

Ltac cleared_cells :=
  match goal with
  | |- forall r c, (r < _)%nat -> (c < _)%nat -> _ =>
      let r := fresh "r" in
      let c := fresh "c" in
      intros r c ? ?; rewrite ?at2_zero_cell; unfold in_block;
      match goal with
      | |- context [if ?rm && _ then _ else _] =>
          destruct rm; cbn [andb]; [|reflexivity]
      end;
      repeat match goal with
             | |- context [Nat.eqb ?a ?b] =>
                 destruct (Nat.eqb_spec a b); cbn [andb]; try lia
             | |- context [Z.leb ?a ?b] =>
                 destruct (Z.leb_spec a b); cbn [andb]; try lia
             end; reflexivity
  end.

Ltac finish := first [block_total | cleared_cells].

(** The run on a square array, neighbor by neighbor. *)
Lemma sum_neighbors_run (arr : Arr) (n : nat) (i j : Z) (remove : bool) :
  rect arr n n -> 0 <= i < Z.of_nat n -> 0 <= j < Z.of_nat n ->
  exists s arr',
    sum_neighbors (i, j) remove arr = (Ok s, arr') /\
    (s == block_sum arr i j)%Q /\
    (remove = false -> arr' = arr) /\
    rect arr' n n /\
    forall r c, (r < n)%nat -> (c < n)%nat ->
      at2 arr' r c
      = if remove && in_block i j r c then 0%Q else at2 arr r c.
Proof.
  intros H Hi Hj.
  assert (Hn : (0 < n)%nat) by lia.
  unfold sum_neighbors, bind, shape.
  run n n.
  rewrite (shape2_rect _ n n) by (auto using rect_zero_cell).
  cbv beta iota. cbn [fst snd].
  unfold when.
  destruct (Z.leb_spec 0 (j - 1)) as [Hl|Hl];
    destruct (Z.ltb_spec (j + 1) (Z.of_nat n)) as [Hr|Hr];
    destruct (Z.leb_spec 0 (i - 1)) as [Hu|Hu];
    destruct (Z.ltb_spec (i + 1) (Z.of_nat n)) as [Hd|Hd];
    cbn [andb]; unfold ret; run n n;
    (eexists; eexists; split; [reflexivity|]; split; [|split; [|split]]);
    try (repeat apply rect_zero_cell; assumption);
    try (intros ->; reflexivity).
  all: finish.
Qed.

(** On an array that is not square one of the two swapped bounds lets
    a neighbor through that does not exist. *)
Lemma sum_neighbors_raises (arr : Arr) (R C : nat) (remove : bool) :
  rect arr R C -> (0 < R)%nat -> (0 < C)%nat -> R <> C ->
  exists i j,
    0 <= i < Z.of_nat R /\ 0 <= j < Z.of_nat C /\
    fst (sum_neighbors (i, j) remove arr) = Raise IndexError.
Proof.
  intros H HR HC Hne.
  destruct (Nat.lt_ge_cases R C) as [Hlt|Hge].
  - (* more columns than rows: the last row has a "lower neighbor" *)
    exists (Z.of_nat R - 1), 0. split; [lia|]. split; [lia|].
    unfold sum_neighbors, bind, shape. run R C.
    rewrite (shape2_rect _ R C) by (auto using rect_zero_cell).
    cbv beta iota. cbn [fst snd]. unfold when.
    destruct (Z.leb_spec 0 (0 - 1)) as [Hl|Hl]; [lia|].
    destruct (Z.ltb_spec (0 + 1) (Z.of_nat R)) as [Hr|Hr];
      destruct (Z.leb_spec 0 (Z.of_nat R - 1 - 1)) as [Hu|Hu];
      destruct (Z.ltb_spec (Z.of_nat R - 1 + 1) (Z.of_nat C)) as [Hd|Hd];
      try lia; cbn [andb]; unfold ret; run R C;
      unfold visit, bind;
      rewrite (getitem_row_out _ R C) by side; reflexivity.
  - (* more rows than columns: the last column has a "right neighbor" *)
    exists 0, (Z.of_nat C - 1). split; [lia|]. split; [lia|].
    unfold sum_neighbors, bind, shape. run R C.
    rewrite (shape2_rect _ R C) by (auto using rect_zero_cell).
    cbv beta iota. cbn [fst snd]. unfold when.
    destruct (Z.leb_spec 0 (Z.of_nat C - 1 - 1)) as [Hl|Hl];
      destruct (Z.ltb_spec (Z.of_nat C - 1 + 1) (Z.of_nat R)) as [Hr|Hr];
      try lia; cbn [andb]; unfold ret; run R C;
      unfold visit, bind;
      rewrite (getitem_col_out _ R C) by side; reflexivity.
Qed.

(** X14.  On a square array and an index inside it, [sum_neighbors]
    returns the sum of the 3x3 block around the index, the array being
    continued by zeros.  Without [remove] the array is left as it was;
    with [remove] exactly the cells of that block are set to 0. *)
Theorem sum_neighbors_block (arr : Arr) (n : nat) (i j : Z) (remove : bool) :
  rect arr n n -> 0 <= i < Z.of_nat n -> 0 <= j < Z.of_nat n ->
  exists s arr',
    sum_neighbors (i, j) remove arr = (Ok s, arr') /\
    (s == block_sum arr i j)%Q /\
    (remove = false -> arr' = arr) /\
    rect arr' n n /\
    forall r c, (r < n)%nat -> (c < n)%nat ->
      at2 arr' r c
      = if remove && in_block i j r c then 0%Q else at2 arr r c.
Proof.
  apply sum_neighbors_run.
Qed.

(** Witness of X14: the centre of a 3x3 array, with [remove]. *)
Lemma sum_neighbors_block_witness :
  exists s arr',
    sum_neighbors (1, 1) true array_3x3 = (Ok s, arr') /\
    (s == block_sum array_3x3 1 1)%Q /\
    (true = false -> arr' = array_3x3) /\
    rect arr' 3 3 /\
    forall r c, (r < 3)%nat -> (c < 3)%nat ->
      at2 arr' r c
      = if true && in_block 1 1 r c then 0%Q else at2 array_3x3 r c.
Proof.
  apply (sum_neighbors_block array_3x3 3 1 1 true).
  - split; [reflexivity | repeat constructor].
  - lia.
  - lia.
Defined.

Lemma sum_neighbors_example :
  sum_neighbors (0, 0) true array_3x3
  = (Ok 12%Q, [[0; 0; 3]; [0; 0; 6]; [7; 8; 9]]%Q).
Proof. reflexivity. Qed.

(** X15.  [sum_neighbors] compares the column with the number of rows
    and the row with the number of columns.  It returns for every
    index of a square array; on every other array with at least one
    entry some index inside the array raises [IndexError]. *)
Theorem sum_neighbors_square_only (arr : Arr) (R C : nat) (remove : bool) :
  rect arr R C -> (0 < R)%nat -> (0 < C)%nat ->
  (R = C ->
   forall i j, 0 <= i < Z.of_nat R -> 0 <= j < Z.of_nat C ->
     exists s arr', sum_neighbors (i, j) remove arr = (Ok s, arr')) /\
  (R <> C ->
   exists i j,
     0 <= i < Z.of_nat R /\ 0 <= j < Z.of_nat C /\
     fst (sum_neighbors (i, j) remove arr) = Raise IndexError).
Proof.
  intros H HR HC. split.
  - intros <- i j Hi Hj.
    destruct (sum_neighbors_run arr R i j remove H Hi Hj)
      as (s & arr' & Hrun & _).
    now exists s, arr'.
  - intros Hne. now apply sum_neighbors_raises.
Qed.

(** Witness of X15: three rows of two columns. *)
Lemma sum_neighbors_square_only_witness :
  exists i j,
    0 <= i < Z.of_nat 3 /\ 0 <= j < Z.of_nat 2 /\
    fst (sum_neighbors (i, j) false array_3x2) = Raise IndexError.
Proof.
  apply (proj2 (sum_neighbors_square_only array_3x2 3 2 false
                  ltac:(split; [reflexivity | repeat constructor])
                  ltac:(lia) ltac:(lia))).
  lia.
Defined.

Lemma sum_neighbors_3x2_example :
  sum_neighbors (0, 1) true array_3x2
  = (Raise IndexError, [[0; 0]; [3; 4]; [5; 6]]%Q).
Proof. reflexivity. Qed.

End SumNeighborsFacts.

(* ================================================================== *)
(** ** [EMFrameDataset] *)

Module FrameFacts.
Import EMDataset EMFrameDataset.
Import SumNeighbors.
Local Open Scope Z_scope.

(** *** Indexing into mapped and sliced arrays *)

Lemma nth_mapi_from {A B : Type} (f : nat -> A -> B) (l : list A)
    (s k : nat) (d : B) (d' : A) :
  (k < length l)%nat -> nth k (mapi_from s f l) d = f (s + k)%nat (nth k l d').
Proof.
  revert s k. induction l as [|x l IH]; intros s [|k] H; simpl in *; try lia.
  - now rewrite Nat.add_0_r.
  - rewrite IH by lia. f_equal. lia.
Qed.

Lemma nth_slice {A : Type} (l : list A) (a b : Z) (k : nat) (d : A) :
  0 <= a <= b -> b <= Z.of_nat (length l) -> (k < Z.to_nat (b - a))%nat ->
  nth k (slice l a b) d = nth (Z.to_nat a + k) l d.
Proof.
  intros Hab Hb Hk. unfold slice, slice_bound.
  destruct (Z.ltb_spec a 0); [lia|]. destruct (Z.ltb_spec b 0); [lia|].
  rewrite nth_firstn.
  destruct (Nat.ltb_spec k (Z.to_nat (Z.min b (Z.of_nat (length l)))
                            - Z.to_nat (Z.min a (Z.of_nat (length l)))));
    [|lia].
  rewrite nth_skipn. f_equal. lia.
Qed.

Lemma at2_slice2 (arr : Arr) (R C : nat) (r0 r1 c0 c1 : Z) (r c : nat) :
  rect arr R C ->
  0 <= r0 <= r1 -> r1 <= Z.of_nat R -> 0 <= c0 <= c1 -> c1 <= Z.of_nat C ->
  (r < Z.to_nat (r1 - r0))%nat -> (c < Z.to_nat (c1 - c0))%nat ->
  at2 (slice2 arr r0 r1 c0 c1) r c
  = at2 arr (Z.to_nat r0 + r) (Z.to_nat c0 + c).
Proof.
  intros H Hr0 Hr1 Hc0 Hc1 Hr Hc. unfold at2, slice2.
  assert (Hlen : length (slice arr r0 r1) = Z.to_nat (r1 - r0)).
  { apply DatasetFacts.slice_length; [lia|]. destruct H as [-> _]. lia. }
  rewrite (nth_indep _ [] (slice [] c0 c1))
    by (rewrite length_map, Hlen; exact Hr).
  rewrite (map_nth (fun row => slice row c0 c1)).
  assert (HR : length arr = R) by apply H.
  rewrite (nth_slice arr r0 r1 r []) by lia.
  assert (Hrow : length (nth (Z.to_nat r0 + r) arr []) = C)
    by (apply (SumNeighborsFacts.rect_row arr R C); [exact H | lia]).
  apply nth_slice; lia.
Qed.

(** *** Broadcasting to the shape the array already has *)

Lemma mapR_broadcast_same (cols : nat) (src : Arr) :
  Forall (fun r => length r = cols) src ->
  mapR (broadcast_axis cols) src = Ok src.
Proof.
  induction 1 as [|x l Hx _ IH]; simpl; [reflexivity|].
  unfold broadcast_axis at 1. rewrite Hx, Nat.eqb_refl. cbn [rbind].
  rewrite IH. reflexivity.
Qed.

Lemma broadcast_to_same (rows cols : nat) (src : Arr) :
  rect src rows cols -> broadcast_to rows cols src = Ok src.
Proof.
  intros [Hl Hall]. unfold broadcast_to, broadcast_axis at 1.
  rewrite Hl, Nat.eqb_refl. cbn [rbind]. now apply mapR_broadcast_same.
Qed.

Lemma rect_slice2 (arr : Arr) (R C : nat) (r0 r1 c0 c1 : Z) :
  rect arr R C ->
  0 <= r0 <= r1 -> r1 <= Z.of_nat R -> 0 <= c0 <= c1 -> c1 <= Z.of_nat C ->
  rect (slice2 arr r0 r1 c0 c1) (Z.to_nat (r1 - r0)) (Z.to_nat (c1 - c0)).
Proof.
  intros [Hl Hall] Hr0 Hr1 Hc0 Hc1.
  now apply DatasetFacts.slice2_shape with (n := R) (m := C).
Qed.

(** *** Adding into a window of the frame *)

Lemma iadd_slice2_ok (frame src : Arr) (R C : nat) (r0 r1 c0 c1 : Z) :
  rect frame R C -> (0 < R)%nat ->
  0 <= r0 <= r1 -> r1 <= Z.of_nat R -> 0 <= c0 <= c1 -> c1 <= Z.of_nat C ->
  rect src (Z.to_nat (r1 - r0)) (Z.to_nat (c1 - c0)) ->
  exists frame',
    iadd_slice2 frame r0 r1 c0 c1 src = Ok frame' /\
    rect frame' R C /\
    forall r c, (r < R)%nat -> (c < C)%nat ->
      at2 frame' r c
      = if (r0 <=? Z.of_nat r) && (Z.of_nat r <? r1) &&
           (c0 <=? Z.of_nat c) && (Z.of_nat c <? c1)
        then (at2 frame r c
              + at2 src (r - Z.to_nat r0) (c - Z.to_nat c0))%Q
        else at2 frame r c.
Proof.
  intros H HR Hr0 Hr1 Hc0 Hc1 Hsrc. unfold iadd_slice2.
  assert (Hrow0 : length (nth 0 frame []) = C)
    by (apply (SumNeighborsFacts.rect_row frame R C); [exact H | lia]).
  rewrite Hrow0. destruct H as [Hl Hall]. rewrite Hl.
  assert (Hb : forall n z, 0 <= z <= Z.of_nat n -> slice_bound n z = Z.to_nat z).
  { intros n z Hz. unfold slice_bound.
    destruct (Z.ltb_spec z 0); [lia|]. f_equal. lia. }
  rewrite !Hb by lia.
  replace (Z.to_nat r1 - Z.to_nat r0)%nat with (Z.to_nat (r1 - r0)) by lia.
  replace (Z.to_nat c1 - Z.to_nat c0)%nat with (Z.to_nat (c1 - c0)) by lia.
  rewrite (broadcast_to_same _ _ src Hsrc). cbn [rbind].
  eexists. split; [reflexivity|]. split.
  - split.
    + now rewrite DatasetFacts.mapi_from_length.
    + eapply DatasetFacts.Forall_mapi_from; [|exact Hall].
      intros k x Hx. simpl.
      destruct ((Z.to_nat r0 <=? k)%nat && (k <? Z.to_nat r1)%nat);
        [now rewrite DatasetFacts.mapi_from_length | exact Hx].
  - intros r c Hr Hc. unfold at2 at 1.
    rewrite (nth_mapi_from _ frame 0 r [] []) by lia. simpl (0 + r)%nat.
    assert (Hrow : length (nth r frame []) = C)
      by (apply (SumNeighborsFacts.rect_row frame R C); [now split | lia]).
    destruct (Nat.leb_spec (Z.to_nat r0) r);
      destruct (Nat.ltb_spec r (Z.to_nat r1));
      destruct (Z.leb_spec r0 (Z.of_nat r));
      destruct (Z.ltb_spec (Z.of_nat r) r1); try lia; cbn [andb];
      try reflexivity.
    rewrite (nth_mapi_from _ (nth r frame []) 0 c 0%Q 0%Q) by lia.
    simpl (0 + c)%nat.
    destruct (Nat.leb_spec (Z.to_nat c0) c);
      destruct (Nat.ltb_spec c (Z.to_nat c1));
      destruct (Z.leb_spec c0 (Z.of_nat c));
      destruct (Z.ltb_spec (Z.of_nat c) c1); try lia; cbn [andb];
      reflexivity.
Qed.

(** X16.  With [delta = int((EVT_SIZE-1)/2)] not negative, a patch of
    side [2 * delta + 1] and a location inside the frame, the patch is
    added with its centre on the location and cut at the borders of
    the frame: the two slices always have the same shape, every pixel
    within [delta] of the location on both axes gains the entry of the
    patch lying over it, and no other pixel changes. *)
Theorem paste_centred (cfg : Emnet) (frame evt_arr : Arr) (R C i j : nat) :
  0 <= half_width (EVT_SIZE cfg) ->
  rect frame R C -> (i < R)%nat -> (j < C)%nat ->
  rect evt_arr (Z.to_nat (2 * half_width (EVT_SIZE cfg) + 1))
               (Z.to_nat (2 * half_width (EVT_SIZE cfg) + 1)) ->
  exists frame',
    paste cfg frame evt_arr (i, j) = Ok frame' /\
    rect frame' R C /\
    forall r c, (r < R)%nat -> (c < C)%nat ->
      at2 frame' r c
      = if in_patch (half_width (EVT_SIZE cfg)) i j r c
        then (at2 frame r c
              + patch_entry evt_arr (half_width (EVT_SIZE cfg)) i j r c)%Q
        else at2 frame r c.
Proof.
  intros Hd H Hi Hj Hevt. unfold paste.
  rewrite (SumNeighborsFacts.shape2_rect frame R C H) by lia.
  cbn [fst snd].
  set (d := half_width (EVT_SIZE cfg)) in *.
  set (ileft := Z.max (Z.of_nat i - d) 0).
  set (jleft := Z.max (Z.of_nat j - d) 0).
  set (iright := Z.min (Z.of_nat i + d + 1) (Z.of_nat R)).
  set (jright := Z.min (Z.of_nat j + d + 1) (Z.of_nat C)).
  assert (Hsrc : rect (slice2 evt_arr (d - (Z.of_nat i - ileft))
                         (d + (iright - Z.of_nat i))
                         (d - (Z.of_nat j - jleft))
                         (d + (jright - Z.of_nat j)))
                   (Z.to_nat (iright - ileft)) (Z.to_nat (jright - jleft))).
  { replace (iright - ileft)
      with (d + (iright - Z.of_nat i) - (d - (Z.of_nat i - ileft))) by lia.
    replace (jright - jleft)
      with (d + (jright - Z.of_nat j) - (d - (Z.of_nat j - jleft))) by lia.
    apply rect_slice2 with (R := Z.to_nat (2 * d + 1))
                           (C := Z.to_nat (2 * d + 1));
      [exact Hevt | subst ileft iright jleft jright; lia ..]. }
  destruct (iadd_slice2_ok frame _ R C ileft iright jleft jright H
              ltac:(lia) ltac:(subst ileft iright; lia)
              ltac:(subst iright; lia) ltac:(subst jleft jright; lia)
              ltac:(subst jright; lia) Hsrc)
    as (frame' & Hrun & Hrect & Hat).
  exists frame'. split; [exact Hrun|]. split; [exact Hrect|].
  intros r c Hr Hc. rewrite (Hat r c Hr Hc). unfold in_patch, patch_entry.
  destruct (Z.leb_spec ileft (Z.of_nat r));
    destruct (Z.ltb_spec (Z.of_nat r) iright);
    destruct (Z.leb_spec (Z.abs (Z.of_nat r - Z.of_nat i)) d);
    try (subst ileft iright; lia); cbn [andb]; try reflexivity.
  destruct (Z.leb_spec jleft (Z.of_nat c));
    destruct (Z.ltb_spec (Z.of_nat c) jright);
    destruct (Z.leb_spec (Z.abs (Z.of_nat c - Z.of_nat j)) d);
    try (subst jleft jright; lia); cbn [andb]; try reflexivity.
  f_equal.
  rewrite (at2_slice2 evt_arr (Z.to_nat (2 * d + 1)) (Z.to_nat (2 * d + 1)));
    [|exact Hevt | subst ileft iright jleft jright; lia ..].
  f_equal; subst ileft jleft; lia.
Qed.

(** Witness of X16: a 5x5 patch put on the pixel (1, 0) of an empty
    4x4 frame. *)
Lemma paste_centred_witness :
  exists frame',
    paste emnet_example (zeros 4 4) patch_example (1%nat, 0%nat) = Ok frame' /\
    rect frame' 4 4 /\
    forall r c, (r < 4)%nat -> (c < 4)%nat ->
      at2 frame' r c
      = if in_patch (half_width (EVT_SIZE emnet_example)) 1 0 r c
        then (at2 (zeros 4 4) r c
              + patch_entry patch_example
                  (half_width (EVT_SIZE emnet_example)) 1 0 r c)%Q
        else at2 (zeros 4 4) r c.
Proof.
  apply (paste_centred emnet_example (zeros 4 4) patch_example 4 4 1 0).
  - vm_compute. discriminate.
  - split; [reflexivity | repeat constructor].
  - lia.
  - lia.
  - split; [reflexivity | repeat constructor].
Defined.

Lemma paste_example :
  paste emnet_example (zeros 4 4) patch_example (1%nat, 0%nat)
  = Ok [[8; 9; 10; 0]; [13; 14; 15; 0]; [18; 19; 20; 0]; [23; 24; 25; 0]]%Q.
Proof. reflexivity. Qed.

(** *** The index arrays *)

Lemma nth_map2 {A B C : Type} (f : A -> B -> C) (a : list A) (b : list B)
    (k : nat) (da : A) (db : B) (dc : C) :
  (k < length a)%nat -> (k < length b)%nat ->
  nth k (map2 f a b) dc = f (nth k a da) (nth k b db).
Proof.
  revert b k. induction a as [|x a IH]; intros [|y b] [|k] Ha Hb;
    simpl in *; try lia; [reflexivity|].
  apply IH; lia.
Qed.

Lemma irows_shape (self : EMFrameDataset) (r : nat) :
  length (irows self) = frame_size self /\
  ((r < frame_size self)%nat ->
   length (nth r (irows self) []) = frame_size self).
Proof.
  unfold irows, indices. cbn [fst]. split.
  - now rewrite length_map, length_seq.
  - intros Hr.
    rewrite (nth_indep _ [] (repeat (Z.of_nat 0) (frame_size self)))
      by (now rewrite length_map, length_seq).
    rewrite (map_nth (fun i => repeat (Z.of_nat i) (frame_size self))).
    apply repeat_length.
Qed.

Lemma icols_shape (self : EMFrameDataset) (r : nat) :
  length (icols self) = frame_size self /\
  ((r < frame_size self)%nat ->
   length (nth r (icols self) []) = frame_size self).
Proof.
  unfold icols, indices. cbn [snd]. split.
  - apply repeat_length.
  - intros Hr.
    rewrite (nth_indep _ [] (map Z.of_nat (seq 0 (frame_size self))))
      by (now rewrite repeat_length).
    rewrite nth_repeat. now rewrite length_map, length_seq.
Qed.

Lemma irows_at (self : EMFrameDataset) (r c : nat) :
  (r < frame_size self)%nat -> (c < frame_size self)%nat ->
  atz (irows self) (r, c) = Z.of_nat r.
Proof.
  intros Hr Hc. unfold atz, irows, indices. cbn [fst snd].
  rewrite (nth_indep _ [] (repeat (Z.of_nat 0) (frame_size self)))
    by (now rewrite length_map, length_seq).
  rewrite (map_nth (fun i => repeat (Z.of_nat i) (frame_size self))).
  rewrite seq_nth by exact Hr. simpl (0 + r)%nat.
  rewrite (nth_indep _ 0 (Z.of_nat r)) by (now rewrite repeat_length).
  apply nth_repeat.
Qed.

Lemma icols_at (self : EMFrameDataset) (r c : nat) :
  (r < frame_size self)%nat -> (c < frame_size self)%nat ->
  atz (icols self) (r, c) = Z.of_nat c.
Proof.
  intros Hr Hc. unfold atz, icols, indices. cbn [fst snd].
  rewrite (nth_indep _ [] (map Z.of_nat (seq 0 (frame_size self))))
    by (now rewrite repeat_length).
  rewrite nth_repeat.
  rewrite (nth_indep _ 0 (Z.of_nat 0)) by (now rewrite length_map, length_seq).
  rewrite (map_nth Z.of_nat). now rewrite seq_nth by exact Hc.
Qed.

(** An entry of an array computed from the two index arrays. *)
Lemma nth_index_map {C : Type} (f : Z -> Z -> C) (self : EMFrameDataset)
    (r c : nat) (d : C) :
  (r < frame_size self)%nat -> (c < frame_size self)%nat ->
  nth c (nth r (map2_2d f (irows self) (icols self)) []) d
  = f (Z.of_nat r) (Z.of_nat c).
Proof.
  intros Hr Hc. unfold map2_2d.
  rewrite (nth_map2 (map2 f) _ _ r [] [] [])
    by (rewrite ?(proj1 (irows_shape self r)), ?(proj1 (icols_shape self r));
        exact Hr).
  rewrite (nth_map2 f _ _ c 0 0 d)
    by (rewrite ?(proj2 (irows_shape self r) Hr),
          ?(proj2 (icols_shape self r) Hr); exact Hc).
  f_equal; [apply (irows_at self r c Hr Hc) | apply (icols_at self r c Hr Hc)].
Qed.

(** *** The line *)








(** *** The loop *)

Lemma shape2_zeros (n : nat) : shape2 (zeros n n) = (n, n).
Proof.
  unfold shape2, zeros. rewrite repeat_length.
  destruct n as [|n]; [reflexivity|]. simpl. now rewrite repeat_length.
Qed.

Lemma unravel_index_in (k : nat) (shp : nat * nat) (eloc : nat * nat) :
  unravel_index k shp = Ok eloc ->
  (fst eloc < fst shp)%nat /\ (snd eloc < snd shp)%nat.
Proof.
  unfold unravel_index.
  destruct (Nat.ltb_spec k (fst shp * snd shp)) as [Hk|]; [|discriminate].
  intros [= <-]. cbn [fst snd].
  assert (snd shp <> 0)%nat by nia.
  split.
  - apply Nat.Div0.div_lt_upper_bound. nia.
  - now apply Nat.mod_upper_bound.
Qed.

(** A frame that leaves the loop took one of the draws, which was not
    rejected, and the electron thrown there. *)
Lemma throw_thrown (cfg : Emnet) (self : EMFrameDataset) (draws : Draws)
    (light_region : Z) (frame frame_truth : Arr) (elocs : list nat)
    (out : Arr * Arr) :
  throw cfg self draws light_region frame frame_truth elocs = Some (Ok out) ->
  exists eloc,
    (fst eloc < fst (shape2 frame))%nat /\
    (snd eloc < snd (shape2 frame))%nat /\
    rejected self light_region eloc = false /\
    throw_electron cfg self draws frame frame_truth eloc = Ok out.
Proof.
  induction elocs as [|u elocs IH]; cbn [throw]; [discriminate|].
  destruct (randint (fst (shape2 frame) * snd (shape2 frame)) u)
    as [k|e] eqn:Hk; cbn [rbind]; [|discriminate].
  destruct (unravel_index k (shape2 frame)) as [eloc|e] eqn:Hu;
    [|discriminate].
  destruct (rejected self light_region eloc) eqn:Hrej; [exact IH|].
  intros [= Hthrow]. exists eloc.
  destruct (unravel_index_in k _ eloc Hu) as [H1 H2].
  repeat split; assumption.
Qed.

Lemma throw_electron_truth (cfg : Emnet) (self : EMFrameDataset)
    (draws : Draws) (frame frame_truth : Arr) (eloc : nat * nat)
    (out : Arr * Arr) :
  throw_electron cfg self draws frame frame_truth eloc = Ok out ->
  snd out = set_at frame_truth eloc 1%Q.
Proof.
  unfold throw_electron.
  destruct (randint _ _) as [ievt|]; cbn [rbind]; [|discriminate].
  destruct (EMDataset.__getitem__ _ _ _ _ _) as [item|]; cbn [rbind];
    [|discriminate].
  destruct (paste _ _ _ _) as [frame'|]; cbn [rbind]; [|discriminate].
  now intros [= <-].
Qed.

(** Without a line nothing is rejected: the first draw ends the loop. *)
Lemma throw_first_draw (cfg : Emnet) (self : EMFrameDataset) (draws : Draws)
    (light_region : Z) (frame frame_truth : Arr) (elocs : list nat) :
  m_line self = None \/ b_line self = None -> elocs <> [] ->
  exists res,
    throw cfg self draws light_region frame frame_truth elocs = Some res.
Proof.
  intros Hline Hne. destruct elocs as [|u elocs]; [congruence|]. cbn [throw].
  destruct (randint _ u) as [k|e]; cbn [rbind]; [|eexists; reflexivity].
  destruct (unravel_index k _) as [eloc|e]; [|eexists; reflexivity].
  assert (Hrej : rejected self light_region eloc = false).
  { unfold rejected. destruct Hline as [-> | ->]; [reflexivity|].
    now destruct (m_line self). }
  rewrite Hrej. eexists. reflexivity.
Qed.

(** X18.  With [m_line] or [b_line] left at [None], as by default,
    [__getitem__] never hands out a frame: no electron is rejected, so
    the first draw of a location ends the loop, and the call ends in an
    exception, at the latest in [TypeError] at the distance matrix. *)
Theorem getitem_needs_line (cfg : Emnet) (self : EMFrameDataset)
    (draws : Draws) (idx : Z) :
  m_line self = None \/ b_line self = None ->
  (forall a, __getitem__ cfg self draws idx <> Some (Returns a)) /\
  (eloc_draws draws <> [] ->
   exists o, __getitem__ cfg self draws idx = Some o /\
             (o = RaisesTypeError \/ exists e, o = Raises e)).
Proof.
  intros Hline.
  assert (Htruths : forall lr f t, truths self draws lr f t = RaisesTypeError).
  { intros lr f t. unfold truths. destruct Hline as [-> | ->]; [reflexivity|].
    now destruct (m_line self). }
  split.
  - intros a. unfold __getitem__.
    destruct (throw _ _ _ _ _ _ _) as [[[f t]|e]|]; try discriminate.
    now rewrite Htruths.
  - intros Hne. unfold __getitem__.
    destruct (throw_first_draw cfg self draws
                (if 0 <=? lside self then lside self
                 else Z.of_nat (region_draw draws))
                (zeros (frame_size self) (frame_size self))
                (zeros (fst (shape2 (zeros (frame_size self) (frame_size self))))
                       (snd (shape2 (zeros (frame_size self) (frame_size self)))))
                (eloc_draws draws) Hline Hne) as [res ->].
    destruct res as [[f t]|e].
    + eexists. split; [reflexivity|]. left. apply Htruths.
    + eexists. split; [reflexivity|]. right. now exists e.
Qed.

(** Witness of X18: the defaults. *)
Lemma getitem_needs_line_witness :
  (forall a, __getitem__ emnet_example frames_default draws_example 0
             <> Some (Returns a)) /\
  (eloc_draws draws_example <> [] ->
   exists o, __getitem__ emnet_example frames_default draws_example 0 = Some o /\
             (o = RaisesTypeError \/ exists e, o = Raises e)).
Proof.
  apply (getitem_needs_line emnet_example frames_default draws_example 0).
  left. reflexivity.
Defined.

Lemma getitem_default_example :
  __getitem__ emnet_example frames_default draws_example 0
  = Some RaisesTypeError.
Proof. reflexivity. Qed.

(** X19.  Whenever [__getitem__] hands out a frame, its truth arrays
    are the electron truth, the threshold truth, the edge truth and
    the distance matrix, in this order; the electron truth is 1 at one
    location inside the frame and 0 elsewhere, and for a light region
    of 0 or 1 that location is marked in the edge truth: no electron is
    thrown in the dark region. *)
Theorem thrown_in_light_region (cfg : Emnet) (self : EMFrameDataset)
    (draws : Draws) (idx : Z) (frame : Arr) (all_truth : list Arr) :
  __getitem__ cfg self draws idx = Some (Returns (frame, all_truth)) ->
  let light_region :=
    if 0 <=? lside self then lside self else Z.of_nat (region_draw draws) in
  exists m b i j th_truth,
    m_line self = Some m /\ b_line self = Some b /\
    (i < frame_size self)%nat /\ (j < frame_size self)%nat /\
    all_truth
    = [set_at (zeros (frame_size self) (frame_size self)) (i, j) 1%Q;
       th_truth;
       map (map bool_to_float) (edge_truth self light_region m b);
       dist self m b] /\
    (light_region = 0 \/ light_region = 1 ->
     at2 (map (map bool_to_float) (edge_truth self light_region m b)) i j
     = 1%Q).
Proof.
  intros Hget light_region. unfold __getitem__ in Hget.
  fold light_region in Hget. rewrite shape2_zeros in Hget.
  cbn [fst snd] in Hget.
  destruct (throw _ _ _ _ _ _ _) as [[[f t]|e]|] eqn:Hthrow;
    try discriminate.
  apply throw_thrown in Hthrow.
  destruct Hthrow as ([i j] & Hi & Hj & Hrej & Hel).
  rewrite shape2_zeros in Hi, Hj. cbn [fst snd] in Hi, Hj.
  apply throw_electron_truth in Hel. cbn [snd] in Hel. subst t.
  injection Hget as Hget. unfold truths in Hget.
  destruct (m_line self) as [m|] eqn:Hm; [|discriminate].
  destruct (b_line self) as [b|] eqn:Hb; [|discriminate].
  destruct (k <- argmax _ ;; unravel_index k _) as [loc|e]; [|discriminate].
  injection Hget as _ Hall.
  exists m, b, i, j. eexists.
  split; [reflexivity|]. split; [reflexivity|].
  split; [exact Hi|]. split; [exact Hj|].
  split; [symmetry; exact Hall|].
  intros Hlr. unfold at2.
  change (@nil Q) with (map bool_to_float []).
  rewrite (map_nth (map bool_to_float)).
  change 0%Q with (bool_to_float false).
  rewrite (map_nth bool_to_float).
  unfold edge_truth. rewrite nth_index_map by assumption.
  unfold rejected in Hrej. rewrite Hm, Hb in Hrej.
  rewrite (irows_at self i j Hi Hj), (icols_at self i j Hi Hj) in Hrej.
  unfold dark in Hrej.
  destruct Hlr as [Hlr|Hlr]; rewrite Hlr in *; cbn [Z.eqb andb orb] in *.
  - destruct (Qlt_le_dec (inject_Z (Z.of_nat i))
                (m * inject_Z (Z.of_nat j) + b)); [discriminate|reflexivity].
  - destruct (Qlt_le_dec (m * inject_Z (Z.of_nat j) + b)
                (inject_Z (Z.of_nat i))); [discriminate|reflexivity].
Qed.

(** Witness of X19: the first location drawn is rejected, the second
    taken. *)
Lemma thrown_in_light_region_witness :
  let light_region :=
    if 0 <=? lside frames_example then lside frames_example
    else Z.of_nat (region_draw draws_two) in
  exists m b i j th_truth,
    m_line frames_example = Some m /\ b_line frames_example = Some b /\
    (i < frame_size frames_example)%nat /\
    (j < frame_size frames_example)%nat /\
    all_truth_example
    = [set_at (zeros (frame_size frames_example) (frame_size frames_example))
         (i, j) 1%Q;
       th_truth;
       map (map bool_to_float) (edge_truth frames_example light_region m b);
       dist frames_example m b] /\
    (light_region = 0 \/ light_region = 1 ->
     at2 (map (map bool_to_float) (edge_truth frames_example light_region m b))
       i j = 1%Q).
Proof.
  apply (thrown_in_light_region emnet_example frames_example draws_two 0
           frame_example all_truth_example).
  reflexivity.
Defined.

End FrameFacts.

(* ================================================================== *)
(** ** Gathering from a tensor with a dense last dimension *)

Module GatherDenseFacts.
Import SparseUtils SparseGather SparseGatherDense GatherFacts.
Local Open Scope Z_scope.

Lemma add_rows_length (u w : list Q) (c : nat) :
  length u = c -> length w = c -> length (add_rows u w) = c.
Proof.
  revert w c. induction u as [|x u IH]; intros [|y w] c Hu Hw; simpl in *;
    try congruence.
  destruct c as [|c]; [discriminate|]. f_equal. apply IH; congruence.
Qed.

Lemma nth_add_rows (u w : list Q) (ch : nat) :
  length u = length w ->
  nth ch (add_rows u w) 0%Q
  = if (ch <? length u)%nat then (nth ch u 0 + nth ch w 0)%Q else 0%Q.
Proof.
  revert w ch. induction u as [|x u IH]; intros [|y w] ch H; simpl in *;
    try discriminate.
  - now destruct ch.
  - destruct ch as [|ch]; [reflexivity|].
    rewrite IH by congruence. reflexivity.
Qed.

Lemma zero_row_length (c : nat) : length (zero_row c) = c.
Proof. apply repeat_length. Qed.

Lemma nth_zero_row (c ch : nat) : nth ch (zero_row c) 0%Q = 0%Q.
Proof.
  unfold zero_row. destruct (Nat.lt_ge_cases ch c).
  - apply nth_repeat_lt. exact H.
  - apply nth_overflow. now rewrite repeat_length.
Qed.

(** The sum of feature rows, channel by channel. *)
Lemma fold_add_rows (c : nat) (rows : list (list Q)) :
  Forall (fun r => length r = c) rows ->
  length (fold_right add_rows (zero_row c) rows) = c /\
  forall ch, (ch < c)%nat ->
    nth ch (fold_right add_rows (zero_row c) rows) 0%Q
    = fold_right Qplus 0%Q (map (fun r => nth ch r 0%Q) rows).
Proof.
  induction 1 as [|r rows Hr _ [IHl IHn]]; simpl.
  - split; [apply zero_row_length|]. intros ch _. apply nth_zero_row.
  - split; [now apply add_rows_length|]. intros ch Hch.
    rewrite nth_add_rows by congruence.
    rewrite Hr. destruct (Nat.ltb_spec ch c); [|lia].
    now rewrite IHn.
Qed.

(** X20.  On a coalesced tensor whose last dimension, of [c] channels,
    is dense, with a feature row of [c] entries for every coordinate,
    coordinates inside the sparse shape and index rows inside it, the
    gathered tensor has the shape of the index tensor with [c] in place
    of its last dimension, and holds for every index the dense feature
    row at that index; all zeros where nothing is stored. *)
Theorem gather_feature_rows (leading : IndexBatch -> IndexBatch)
    (t : SparseTensor) (shp : list nat) (n c : nat) (v : list (list Q))
    (ib : IndexBatch) :
  is_coalesced t = true ->
  values t = Values2 n c v ->
  Forall (fun r => length r = c) v ->
  size t = shp ++ [c] ->
  i_rows (indices t) = length shp ->
  Forall (in_bounds shp) (coordinates (indices t)) ->
  ib_last ib = length shp ->
  Forall (in_bounds shp) (ib_rows ib) ->
  gather_from_sparse_tensor leading t ib
  = Ok (Vectors (ib_lead ib ++ [c]) (map (dense_row t c) (ib_rows ib))).
Proof.
  intros Hco Hv Hvrows Hsize Hrows Hcoords Hlast Hin.
  unfold gather_from_sparse_tensor.
  rewrite Hlast, Hrows, Nat.eqb_refl. cbn [negb].
  unfold get_indices. rewrite Hco. cbn [rbind].
  rewrite Hsize, firstn_app, firstn_all, Nat.sub_diag. cbn [firstn].
  rewrite app_nil_r.
  rewrite (mapR_ok _ (fun i => i)).
  2:{ intros i Hi. apply in_map_iff in Hi. destruct Hi as [k [<- Hk]].
      pose proof (linearize_range shp k
                    (proj1 (Forall_forall _ _) Hin k Hk)) as Hr.
      unfold select_position.
      destruct (Z.leb_spec 0 (linearize (dim_linear_offsets shp) k)); [|lia].
      destruct (Z.ltb_spec (linearize (dim_linear_offsets shp) k) (prod shp));
        [reflexivity | lia]. }
  rewrite map_id, Hv. cbn [rbind]. f_equal. f_equal. rewrite map_map.
  apply map_ext_in. intros k Hk.
  pose proof (proj1 (Forall_forall _ _) Hin k Hk) as Hkb.
  unfold select_vector.
  set (rows := map _ (combine _ _)).
  assert (Hrl : Forall (fun r => length r = c) rows).
  { subst rows. apply Forall_map. apply Forall_forall. intros p _.
    destruct (fst p =? linearize (dim_linear_offsets shp) k);
      [|apply zero_row_length].
    destruct (Nat.lt_ge_cases (snd p) (length v)) as [Hlt|Hge].
    - apply (proj1 (Forall_forall _ _) Hvrows). now apply nth_In.
    - rewrite nth_overflow by exact Hge. apply zero_row_length. }
  destruct (fold_add_rows c rows Hrl) as [Hlen Hnth].
  apply (nth_ext _ _ 0%Q 0%Q).
  { unfold dense_row. now rewrite Hlen, length_map, length_seq. }
  intros ch Hch. rewrite Hlen in Hch. rewrite (Hnth ch Hch).
  unfold dense_row.
  rewrite (nth_indep _ 0%Q (dense_at t (k ++ [Z.of_nat 0])))
    by (now rewrite length_map, length_seq).
  rewrite (map_nth (fun ch => dense_at t (k ++ [Z.of_nat ch]))).
  rewrite seq_nth by exact Hch. simpl (0 + ch)%nat.
  unfold dense_at. rewrite Hrows, Hv.
  rewrite <- (in_bounds_length _ _ Hkb).
  rewrite firstn_app, firstn_all, Nat.sub_diag. cbn [firstn].
  rewrite app_nil_r.
  rewrite skipn_app, skipn_all, Nat.sub_diag. cbn [skipn app].
  subst rows. rewrite length_map.
  assert (Hclen : length (coordinates (indices t)) = i_cols (indices t)).
  { unfold coordinates, transpose. simpl.
    now rewrite length_map, length_seq. }
  rewrite Hclen, combine_map_l, !map_map.
  f_equal. apply map_ext_in. intros [k' m] Hin'. cbn [fst snd value_at].
  rewrite Nat2Z.id.
  assert (Hk' : in_bounds shp k').
  { apply (proj1 (Forall_forall _ _) Hcoords).
    apply in_combine_l in Hin'. exact Hin'. }
  assert (Hdef : nth ch (nth m v (zero_row c)) 0%Q = nth ch (nth m v []) 0%Q).
  { destruct (Nat.lt_ge_cases m (length v)) as [Hlt|Hge].
    - now rewrite (nth_indep v (zero_row c) [] Hlt).
    - rewrite !(nth_overflow v) by exact Hge. rewrite nth_zero_row.
      now destruct ch. }
  destruct (list_eqb k' k) eqn:E.
  - apply list_eqb_eq in E. subst k'. now rewrite Z.eqb_refl.
  - destruct (Z.eqb_spec (linearize (dim_linear_offsets shp) k')
                (linearize (dim_linear_offsets shp) k)) as [Heq|Hne];
      [|apply nth_zero_row].
    apply linearize_injective in Heq; [|assumption|assumption].
    subst k'. assert (list_eqb k k = true) by now apply list_eqb_eq.
    congruence.
Qed.

(** Witness of X20: a stored row, the other stored row, and a position
    without an entry. *)
Lemma gather_feature_rows_witness :
  gather_from_sparse_tensor (fun ib => ib) features_example
    (mkIndexBatch [3%nat] 2 [[1; 0]; [0; 1]; [1; 2]])
  = Ok (Vectors ([3%nat] ++ [2%nat])
          (map (dense_row features_example 2) [[1; 0]; [0; 1]; [1; 2]])).
Proof.
  apply (gather_feature_rows (fun ib => ib) features_example [2; 3]%nat 2 2
           [[1; 2]; [3; 4]]%Q
           (mkIndexBatch [3%nat] 2 [[1; 0]; [0; 1]; [1; 2]])).
  - reflexivity.
  - reflexivity.
  - repeat constructor.
  - reflexivity.
  - reflexivity.
  - repeat constructor; simpl; lia.
  - reflexivity.
  - repeat constructor; simpl; lia.
Defined.

Lemma gather_feature_rows_example :
  gather_from_sparse_tensor (fun ib => ib) features_example
    (mkIndexBatch [3%nat] 2 [[1; 0]; [0; 1]; [1; 2]])
  = Ok (Vectors [3; 2]%nat [[3; 4]; [1; 2]; [0; 0]]%Q).
Proof. reflexivity. Qed.

End GatherDenseFacts.

(* ================================================================== *)
(** ** From spconv to torch and back *)

Module SparseBackFacts.
Import SparseUtils SparseBack.
Local Open Scope Z_scope.

(** *** The order of coordinates *)


Lemma lex_compare_refl (k : list Z) : lex_compare k k = Eq.
Proof.
  induction k as [|x k IH]; simpl; [reflexivity|].
  now rewrite Z.compare_refl.
Qed.



Section Entries.
Variable V : Type.
Variable add : V -> V -> V.






(** *** The sum of the values at a coordinate *)

Variable val : V -> Q.
Variable R : V -> Prop.
Hypothesis add_R : forall a b, R a -> R b -> R (add a b).
Hypothesis val_add : forall a b, R a -> R b -> (val (add a b) == val a + val b)%Q.


End Entries.

(** *** The dense form read off a list of entries *)











Lemma spconv_to_torch_example :
  spconv_to_torch_sparse (Spconv spconv_example)
  = Ok (mkSparseTensor [1; 2; 2; 2]%nat
          (mkIndexTensor 3 2 [[0; 0]; [0; 1]; [1; 0]])
          (Values2 2 2 [[3; 4]; [11; 22]]%Q) true).
Proof. reflexivity. Qed.

(** *** Back to spconv *)




(** Sites out of order or given twice come back in order and merged. *)
Lemma round_trip_back_example :
  round_trip_back spconv_example = Ok spconv_sorted_example.
Proof. reflexivity. Qed.

End SparseBackFacts.

(* ================================================================== *)
(** ** [unpack_sparse_tensors] *)

Module UnpackFacts.
Import Unpack.
Local Open Scope string_scope.

(** *** Strings *)

Lemma length_append (a b : string) :
  String.length (a ++ b) = (String.length a + String.length b)%nat.
Proof.
  induction a as [|c a IH]; simpl; [reflexivity|]. now rewrite IH.
Qed.

Lemma substring_all (s : string) : substring 0 (String.length s) s = s.
Proof.
  induction s as [|c s IH]; simpl; [reflexivity|]. now rewrite IH.
Qed.

Lemma substring_head (a b : string) :
  substring 0 (String.length a) (a ++ b) = a.
Proof.
  induction a as [|c a IH]; simpl.
  - now destruct b.
  - now rewrite IH.
Qed.

Lemma substring_tail (a b : string) :
  substring (String.length a) (String.length b) (a ++ b) = b.
Proof.
  induction a as [|c a IH]; simpl; [apply substring_all | exact IH].
Qed.

Lemma substring_split (s : string) (n : nat) :
  (n <= String.length s)%nat ->
  s = substring 0 n s ++ substring n (String.length s - n) s.
Proof.
  revert n. induction s as [|c s IH]; intros [|n] H; simpl in *.
  - reflexivity.
  - lia.
  - now rewrite substring_all.
  - f_equal. apply IH. lia.
Qed.

Lemma has_newline_append (a b : string) :
  has_newline (a ++ b) = has_newline a || has_newline b.
Proof.
  induction a as [|c a IH]; simpl; [reflexivity|].
  now rewrite IH, orb_assoc.
Qed.

Lemma list_of_append (a b : string) :
  list_ascii_of_string (a ++ b)
  = (list_ascii_of_string a ++ list_ascii_of_string b)%list.
Proof.
  induction a as [|c a IH]; simpl; [reflexivity|]. now rewrite IH.
Qed.

Lemma list_of_injective (a b : string) :
  list_ascii_of_string a = list_ascii_of_string b -> a = b.
Proof.
  intros H. rewrite <- (string_of_list_ascii_of_string a),
              <- (string_of_list_ascii_of_string b). now rewrite H.
Qed.

Lemma append_inv_tail (a b s : string) : a ++ s = b ++ s -> a = b.
Proof.
  intros H. apply list_of_injective.
  apply (f_equal list_ascii_of_string) in H.
  rewrite !list_of_append in H. now apply app_inv_tail in H.
Qed.

(** The ends of two keys, last character first. *)
Lemma rev_append (a s : string) :
  rev (list_ascii_of_string (a ++ s))
  = (rev (list_ascii_of_string s) ++ rev (list_ascii_of_string a))%list.
Proof.
  now rewrite list_of_append, rev_app_distr.
Qed.

Ltac ends_differ H :=
  apply (f_equal (fun s => rev (list_ascii_of_string s))) in H;
  rewrite !rev_append in H; simpl in H; discriminate H.

(** A part belongs to one tensor only, and is one part of it. *)
Lemma part_of_one (p q key : string) :
  part_of p key -> part_of q key -> p = q.
Proof.
  intros [Hp|[Hp|Hp]] [Hq|[Hq|Hq]]; subst key;
    try (now apply append_inv_tail in Hq);
    try (symmetry in Hq; ends_differ Hq); ends_differ Hq.
Qed.

Lemma parts_differ (p : string) :
  p ++ "_indices" <> p ++ "_values" /\
  p ++ "_indices" <> p ++ "_shape" /\
  p ++ "_values" <> p ++ "_shape".
Proof.
  repeat split; intros H; ends_differ H.
Qed.

(** *** Matching *)

Lemma match_at_append (tail p : string) :
  p <> "" -> has_newline p = false -> match_at tail (p ++ tail) = Some p.
Proof.
  intros Hp Hnl. unfold match_at.
  rewrite length_append, Nat.add_sub, substring_head, substring_tail.
  rewrite String.eqb_refl, Hnl.
  destruct (String.eqb_spec p ""); [contradiction | reflexivity].
Qed.

Lemma match_at_inv (tail key p : string) :
  match_at tail key = Some p -> p <> "" /\ key = p ++ tail.
Proof.
  unfold match_at.
  set (n := (String.length key - String.length tail)%nat).
  destruct (String.eqb_spec (substring n (String.length tail) key) tail)
    as [Ht|]; [|discriminate].
  destruct (String.eqb_spec (substring 0 n key) "") as [|Hne];
    [discriminate|].
  destruct (has_newline (substring 0 n key)); [discriminate|].
  simpl. intros [= <-]. split; [exact Hne|].
  destruct (Nat.le_gt_cases (String.length tail) (String.length key))
    as [Hle|Hgt].
  - rewrite (substring_split key n) at 1 by lia.
    replace (String.length key - n)%nat with (String.length tail) by lia.
    now rewrite Ht.
  - exfalso. apply Hne. replace n with 0%nat by lia. now destruct key.
Qed.

(** On a key without a newline the match is the key without the
    suffix, when something comes before the suffix. *)
Lemma re_match_spec (suffix key p : string) :
  has_newline key = false ->
  re_match suffix key = Some p <-> p <> "" /\ key = p ++ suffix.
Proof.
  intros Hnl. unfold re_match. split.
  - destruct (match_at suffix key) as [h|] eqn:E.
    + intros [= <-]. now apply match_at_inv.
    + intros H. apply match_at_inv in H. destruct H as [_ H].
      rewrite H, !has_newline_append in Hnl. simpl in Hnl.
      rewrite !orb_true_r in Hnl. discriminate.
  - intros [Hp ->]. rewrite has_newline_append in Hnl.
    apply orb_false_elim in Hnl. destruct Hnl as [Hnl _].
    now rewrite match_at_append.
Qed.

Lemma prefixes_of_spec (suffix : string) (keys : list string) (p : string) :
  Forall (fun k => has_newline k = false) keys ->
  In p (prefixes_of suffix keys) <-> p <> "" /\ In (p ++ suffix) keys.
Proof.
  intros Hnl. unfold prefixes_of. rewrite in_flat_map. split.
  - intros (key & Hkey & Hin).
    pose proof (proj1 (Forall_forall _ _) Hnl key Hkey) as Hk.
    destruct (re_match suffix key) as [h|] eqn:E; [|contradiction].
    destruct Hin as [<-|[]]. apply (re_match_spec _ _ _ Hk) in E.
    destruct E as [Hp ->]. now split.
  - intros [Hp Hin]. exists (p ++ suffix). split; [exact Hin|].
    pose proof (proj1 (Forall_forall _ _) Hnl _ Hin) as Hk.
    rewrite (proj2 (re_match_spec suffix _ p Hk) (conj Hp eq_refl)).
    now left.
Qed.

(** *** The dictionary *)

Section BatchFacts.
Variable Value : Type.
Variable Err : Type.
Variable sparse_coo_tensor : Value -> Value -> Value -> Value + Err.
Variable set_order : list string -> list string.

Lemma lookup_setitem (key k : string) (v : Value) (d : Dict Value) :
  lookup Value k (setitem Value key v d)
  = if String.eqb k key then Some v else lookup Value k d.
Proof.
  induction d as [|[k' v'] d IH]; simpl.
  - reflexivity.
  - destruct (String.eqb_spec key k') as [-> | Hne]; simpl.
    + destruct (String.eqb_spec k k'); reflexivity.
    + rewrite IH. destruct (String.eqb_spec k k') as [-> | ];
        [|reflexivity].
      destruct (String.eqb_spec k' key); [congruence | reflexivity].
Qed.

Lemma lookup_remove (key k : string) (d : Dict Value) :
  lookup Value k (remove Value key d)
  = if String.eqb k key then None else lookup Value k d.
Proof.
  unfold remove. induction d as [|[k' v'] d IH]; simpl.
  - now destruct (String.eqb k key).
  - destruct (String.eqb_spec key k') as [-> | Hne]; simpl.
    + rewrite IH. destruct (String.eqb_spec k k'); reflexivity.
    + rewrite IH. destruct (String.eqb_spec k k') as [-> | ];
        [|reflexivity].
      destruct (String.eqb_spec k' key); [congruence | reflexivity].
Qed.

Lemma lookup_In (k : string) (d : Dict Value) :
  lookup Value k d <> None <-> In k (map fst d).
Proof.
  induction d as [|[k' v'] d IH]; simpl.
  - split; [congruence | contradiction].
  - destruct (String.eqb_spec k k') as [-> | Hne].
    + split; [now left | discriminate].
    + rewrite IH. split; [now right | intros [H|H]; congruence].
Qed.

Lemma append_neq (p s : string) : s <> "" -> p ++ s <> p.
Proof.
  intros Hs H. apply (f_equal String.length) in H.
  rewrite length_append in H. destruct s; [congruence | simpl in H; lia].
Qed.

Lemma part_neq (p k : string) : part_of p k -> k <> p.
Proof.
  intros [-> | [-> | ->]]; apply append_neq; discriminate.
Qed.

(** *** One turn of the loop *)

Lemma unpack_one_ok (p : string) (d : Dict Value) (i v s t : Value) :
  lookup Value (p ++ "_indices") d = Some i ->
  lookup Value (p ++ "_values") d = Some v ->
  lookup Value (p ++ "_shape") d = Some s ->
  sparse_coo_tensor i v s = inl t ->
  exists d',
    unpack_one Value Err sparse_coo_tensor p d = (Done tt, d') /\
    lookup Value p d' = Some t /\
    (forall k, part_of p k -> lookup Value k d' = None) /\
    (forall k, k <> p -> ~ part_of p k ->
       lookup Value k d' = lookup Value k d).
Proof.
  intros Hi Hv Hs Ht.
  destruct (parts_differ p) as (Hiv & His & Hvs).
  assert (Hpi : p ++ "_indices" <> p) by (apply append_neq; discriminate).
  assert (Hpv : p ++ "_values" <> p) by (apply append_neq; discriminate).
  assert (Hps : p ++ "_shape" <> p) by (apply append_neq; discriminate).
  unfold unpack_one, bind, getitem, call, delitem.
  rewrite Hs, Hi, Hv, Ht.
  rewrite lookup_setitem.
  destruct (String.eqb_spec (p ++ "_indices") p); [contradiction|].
  rewrite Hi.
  rewrite lookup_remove, lookup_setitem.
  destruct (String.eqb_spec (p ++ "_values") (p ++ "_indices"));
    [congruence|].
  destruct (String.eqb_spec (p ++ "_values") p); [contradiction|].
  rewrite Hv.
  rewrite !lookup_remove, lookup_setitem.
  destruct (String.eqb_spec (p ++ "_shape") (p ++ "_values")); [congruence|].
  destruct (String.eqb_spec (p ++ "_shape") (p ++ "_indices")); [congruence|].
  destruct (String.eqb_spec (p ++ "_shape") p); [contradiction|].
  rewrite Hs.
  eexists. split; [reflexivity|].
  split; [|split].
  - rewrite !lookup_remove, lookup_setitem.
    destruct (String.eqb_spec p (p ++ "_shape")); [congruence|].
    destruct (String.eqb_spec p (p ++ "_values")); [congruence|].
    destruct (String.eqb_spec p (p ++ "_indices")); [congruence|].
    now rewrite String.eqb_refl.
  - intros k Hk. rewrite !lookup_remove.
    destruct (String.eqb_spec k (p ++ "_shape")); [reflexivity|].
    destruct (String.eqb_spec k (p ++ "_values")); [reflexivity|].
    destruct (String.eqb_spec k (p ++ "_indices")); [reflexivity|].
    destruct Hk as [Hk|[Hk|Hk]]; contradiction.
  - intros k Hkp Hk. rewrite !lookup_remove, lookup_setitem.
    destruct (String.eqb_spec k (p ++ "_shape")) as [-> | ];
      [exfalso; apply Hk; right; now right|].
    destruct (String.eqb_spec k (p ++ "_values")) as [-> | ];
      [exfalso; apply Hk; right; now left|].
    destruct (String.eqb_spec k (p ++ "_indices")) as [-> | ];
      [exfalso; apply Hk; now left|].
    destruct (String.eqb_spec k p); [contradiction | reflexivity].
Qed.

(** *** The candidates *)

Lemma part_ofb_spec (p k : string) : part_ofb p k = true <-> part_of p k.
Proof.
  unfold part_ofb, part_of. rewrite !orb_true_iff, !String.eqb_eq. tauto.
Qed.

Lemma existsb_eqb (p : string) (l : list string) :
  existsb (String.eqb p) l = true <-> In p l.
Proof.
  rewrite existsb_exists. split.
  - intros (x & Hx & E). apply String.eqb_eq in E. now subst.
  - intros H. exists p. split; [exact H | apply String.eqb_refl].
Qed.

Lemma candidates_packed (batch : Dict Value) (p : string) :
  plain_keys Value batch = true ->
  In p (candidates Value batch) <-> packed Value batch p.
Proof.
  intros Hplain.
  assert (Hnl : Forall (fun k => has_newline k = false) (map fst batch)).
  { apply Forall_forall. intros k Hk. unfold plain_keys in Hplain.
    rewrite forallb_forall in Hplain. specialize (Hplain k Hk).
    now destruct (has_newline k). }
  unfold candidates, common, packed.
  rewrite filter_In, andb_true_iff, !existsb_eqb.
  rewrite !(prefixes_of_spec _ _ _ Hnl), !lookup_In. tauto.
Qed.

Lemma tensor_of_parts (batch : Dict Value) (p : string) (t : Value) :
  tensor_of Value Err sparse_coo_tensor batch p = Some t ->
  exists i v s,
    lookup Value (p ++ "_indices") batch = Some i /\
    lookup Value (p ++ "_values") batch = Some v /\
    lookup Value (p ++ "_shape") batch = Some s /\
    sparse_coo_tensor i v s = inl t.
Proof.
  unfold tensor_of.
  destruct (lookup Value (p ++ "_indices") batch) as [i|]; [|discriminate].
  destruct (lookup Value (p ++ "_values") batch) as [v|]; [|discriminate].
  destruct (lookup Value (p ++ "_shape") batch) as [s|]; [|discriminate].
  destruct (sparse_coo_tensor i v s) as [t'|] eqn:E; [|discriminate].
  intros [= ->]. now exists i, v, s.
Qed.

(** *** The loop, for prefixes in any order *)

Lemma unpack_loop_ok (batch : Dict Value) (todo : list string) (d : Dict Value) :
  NoDup todo ->
  (forall p q, In p todo -> In q todo -> ~ part_of p q) ->
  (forall p, In p todo ->
     tensor_of Value Err sparse_coo_tensor batch p <> None) ->
  (forall p k, In p todo -> part_of p k ->
     lookup Value k d = lookup Value k batch) ->
  exists d',
    unpack_loop Value Err sparse_coo_tensor todo d = (Done tt, d') /\
    (forall p, In p todo ->
       lookup Value p d' = tensor_of Value Err sparse_coo_tensor batch p) /\
    (forall p k, In p todo -> part_of p k -> lookup Value k d' = None) /\
    (forall k, ~ In k todo -> (forall p, In p todo -> ~ part_of p k) ->
       lookup Value k d' = lookup Value k d).
Proof.
  revert d. induction todo as [|p rest IH]; intros d Hnd Hflat Hten Hparts.
  - exists d. split; [reflexivity|].
    repeat split; intros; try contradiction; reflexivity.
  - apply NoDup_cons_iff in Hnd. destruct Hnd as [Hp Hnd].
    destruct (tensor_of Value Err sparse_coo_tensor batch p) as [t|] eqn:Et;
      [|exfalso; apply (Hten p (or_introl eq_refl) Et)].
    destruct (tensor_of_parts batch p t Et) as (i & v & s & Hi & Hv & Hs & Ht).
    destruct (unpack_one_ok p d i v s t) as (d1 & Hrun & Hp1 & Hpart1 & Hrest1);
      try assumption;
      try (rewrite (Hparts p _ (or_introl eq_refl)); [eassumption|];
           unfold part_of; tauto).
    destruct (IH d1 Hnd) as (d' & Hloop & Ha & Hb & Hc).
    + intros q q' Hq Hq'. apply Hflat; now right.
    + intros q Hq. apply Hten. now right.
    + intros q k Hq Hk. rewrite Hrest1.
      * apply (Hparts q k); [now right | exact Hk].
      * intros ->. apply (Hflat q p); [now right | now left | exact Hk].
      * intros Hk'. apply Hp. now rewrite (part_of_one p q k Hk' Hk).
    + exists d'. split.
      { cbn [unpack_loop]. unfold bind at 1. rewrite Hrun. exact Hloop. }
      split; [|split].
      * intros q [<-|Hq]; [|now apply Ha].
        rewrite Hc; [now rewrite Hp1, Et | exact Hp |].
        intros q Hq Hk. apply (Hflat q p); [now right | now left | exact Hk].
      * intros q k [<-|Hq] Hk; [|now apply (Hb q)].
        rewrite Hc; [now apply Hpart1 | |].
        -- intros Hin. apply (Hflat p k); [now left | now right | exact Hk].
        -- intros q Hq Hk'. apply Hp. now rewrite (part_of_one p q k Hk Hk').
      * intros k Hk Hnone. rewrite Hc.
        -- apply Hrest1; [intros ->; apply Hk; now left|].
           apply Hnone. now left.
        -- intros Hin. apply Hk. now right.
        -- intros q Hq. apply Hnone. now right.
Qed.

(** X23.  On a batch whose keys hold no newline, in which no packed
    tensor is named like a part of another one and on whose packed
    parts the constructor returns, [unpack_sparse_tensors] returns the
    batch with every prefix [p] that occurs as [p_indices], [p_values]
    and [p_shape] bound to the tensor built from these three, the three
    parts deleted, and every other entry as it was; in whatever order
    the set of prefixes is gone through. *)
Theorem unpack_sparse_tensors_ok (batch : Dict Value) :
  plain_keys Value batch = true ->
  flatb Value batch = true ->
  constructible Value Err sparse_coo_tensor batch = true ->
  any_order Value set_order batch ->
  exists d',
    unpack_sparse_tensors Value Err sparse_coo_tensor set_order batch
    = (Done tt, d') /\
    (forall p, packed Value batch p ->
       lookup Value p d' <> None /\
       lookup Value p d' = tensor_of Value Err sparse_coo_tensor batch p) /\
    (forall p k, packed Value batch p -> part_of p k ->
       lookup Value k d' = None) /\
    (forall k, ~ packed Value batch k ->
       (forall p, packed Value batch p -> ~ part_of p k) ->
       lookup Value k d' = lookup Value k batch).
Proof.
  intros Hplain Hflat Hcons Horder.
  unfold any_order in Horder.
  set (C := candidates Value batch) in *.
  assert (Hin : forall p, In p (set_order C) <-> packed Value batch p).
  { intros p. rewrite <- (candidates_packed batch p Hplain). fold C.
    split; intros Hp.
    - apply (Permutation_in _ Horder) in Hp.
      exact (proj1 (nodup_In string_dec C p) Hp).
    - apply (Permutation_in _ (Permutation_sym Horder)).
      exact (proj2 (nodup_In string_dec C p) Hp). }
  assert (Hnd : NoDup (set_order C)).
  { apply (Permutation_NoDup (Permutation_sym Horder)). apply NoDup_nodup. }
  assert (HinC : forall p, In p (set_order C) -> In p C).
  { intros p Hp. apply (candidates_packed batch p Hplain). now apply Hin. }
  assert (Hten : forall p, In p (set_order C) ->
                   tensor_of Value Err sparse_coo_tensor batch p <> None).
  { intros p Hp. unfold constructible in Hcons.
    rewrite forallb_forall in Hcons. specialize (Hcons p (HinC p Hp)).
    now destruct (tensor_of Value Err sparse_coo_tensor batch p). }
  destruct (unpack_loop_ok batch (set_order C) batch Hnd) as
    (d' & Hrun & Ha & Hb & Hc).
  - intros p q Hp Hq Hpart. unfold flatb in Hflat.
    rewrite forallb_forall in Hflat. specialize (Hflat p (HinC p Hp)).
    rewrite forallb_forall in Hflat. specialize (Hflat q (HinC q Hq)).
    apply part_ofb_spec in Hpart. now rewrite Hpart in Hflat.
  - exact Hten.
  - reflexivity.
  - exists d'. split; [exact Hrun|]. split; [|split].
    + intros p Hp. apply Hin in Hp. rewrite (Ha p Hp).
      split; [now apply Hten | reflexivity].
    + intros p k Hp. apply Hb. now apply Hin.
    + intros k Hk Hnone. apply Hc.
      * intros Hk'. apply Hk. now apply Hin.
      * intros p Hp. apply Hnone. now apply Hin.
Qed.

End BatchFacts.

(** Witness of X23: one packed tensor among other entries. *)
Lemma unpack_sparse_tensors_ok_witness :
  exists d',
    unpack_sparse_tensors nat unit sum_parts (fun l => l) batch_example
    = (Done tt, d') /\
    (forall p, packed nat batch_example p ->
       lookup nat p d' <> None /\
       lookup nat p d' = tensor_of nat unit sum_parts batch_example p) /\
    (forall p k, packed nat batch_example p -> part_of p k ->
       lookup nat k d' = None) /\
    (forall k, ~ packed nat batch_example k ->
       (forall p, packed nat batch_example p -> ~ part_of p k) ->
       lookup nat k d' = lookup nat k batch_example).
Proof.
  apply (unpack_sparse_tensors_ok nat unit sum_parts (fun l => l)
           batch_example).
  - reflexivity.
  - reflexivity.
  - reflexivity.
  - unfold any_order. vm_compute. reflexivity.
Defined.

Lemma unpack_example :
  unpack_sparse_tensors nat unit sum_parts (fun l => l) batch_example
  = (Done tt, [("image", 2%nat); ("b_shape", 4%nat); ("a", 9%nat)]).
Proof. reflexivity. Qed.

(** A key that ends in a newline is matched by [$] all the same; the
    key without the newline is then looked up, and is not there. *)
Lemma unpack_newline_example :
  unpack_sparse_tensors nat unit sum_parts (fun l => l)
    [("x_indices" ++ newline, 1%nat); ("x_values", 2%nat); ("x_shape", 3%nat)]
  = (KeyError "x_indices",
     [("x_indices" ++ newline, 1%nat); ("x_values", 2%nat);
      ("x_shape", 3%nat)]).
Proof. reflexivity. Qed.

End UnpackFacts.
